(** * GeminiManager: the live-session manager of src/addons/ai/GeminiManager.ts

    A shallow embedding of the class [GeminiManager] and of the platform
    operations it calls, followed by the properties of the session
    manager that the design document states.

    Conventions of the embedding.
    - A JavaScript string is a [string]: a sequence of 8-bit code units.
      This covers ASCII text, base64 text and the "binary strings" that
      [btoa] and [atob] exchange.
    - An [ArrayBuffer] (and the [Uint8Array] over it) is a [list byte].
    - A PCM sample after normalisation is a rational number: the quotient
      of a 16-bit integer by 32768 = 2^15 is exact in binary floating
      point (double and single precision alike), so [Q] holds exactly the
      value that is stored in the [Float32Array].
    - A method that may throw returns a [result]; a method that reads or
      writes the fields of the manager or calls the platform is a state
      transformer over [St] (see the monad [M] below). *)

From Stdlib Require Import QArith.
From Stdlib.Strings Require Import Byte Ascii String.
From stdpp Require Import base numbers list strings.

Set Default Proof Using "Type".

(** ** Results of JavaScript computations *)

Inductive JsError : Type :=
| InvalidCharacterError   (* DOMException of [atob] *)
| RangeError              (* [new Int16Array] over a buffer of odd length *)
| NotSupportedError       (* [createBuffer] with a length of zero *)
| TypeError               (* call of a method on [null] or [undefined] *)
| NoAudioTracks           (* Error('No audio tracks found.') *)
| NotReadyAudio           (* Error('AI not ready to send audio clip.') *)
| NotReadyVideo           (* Error('AI not ready to send video frame') *)
| ExternalFailure (what : string). (* thrown or rejected by a platform call *)

(** [Pending] is an [await] on a promise that never settles: the rest of
    the async function never runs, and no [catch] sees it. *)
Inductive result (A : Type) : Type :=
| Ok (a : A)
| Throw (e : JsError)
| Pending.
Arguments Ok {A} a.
Arguments Throw {A} e.
Arguments Pending {A}.

Definition bindR {A B} (r : result A) (k : A -> result B) : result B :=
  match r with
  | Ok a => k a
  | Throw e => Throw e
  | Pending => Pending
  end.

Definition is_throw {A} (r : result A) : bool :=
  match r with Throw _ => true | _ => false end.

Definition is_ok {A} (r : result A) : bool :=
  match r with Ok _ => true | _ => false end.

(** ** Base64: the platform functions [btoa] and [atob]

    [btoa] is the base64 encoding of RFC 4648 section 4, with padding.
    [atob] is the "forgiving-base64 decode" of the WHATWG Infra standard:
    ASCII whitespace is removed; if the length is then a multiple of four,
    one or two trailing '=' are removed; a length of 1 modulo 4 or any
    character outside the alphabet is an InvalidCharacterError; the
    remaining characters are decoded six bits at a time and the bits left
    over at the end are dropped. *)

Module Base64.

(** Sextet to the code unit of its alphabet character. *)
Definition encodeSextet (s : N) : N :=
  if (s <? 26)%N then (s + 65)%N          (* 'A'..'Z' *)
  else if (s <? 52)%N then (s + 71)%N     (* 'a'..'z' *)
  else if (s <? 62)%N then (s - 4)%N      (* '0'..'9' *)
  else if (s =? 62)%N then 43%N           (* '+' *)
  else 47%N.                              (* '/' *)

(** Code unit of an alphabet character to its sextet. *)
Definition decodeSextet (c : N) : option N :=
  if ((65 <=? c) && (c <=? 90))%N then Some (c - 65)%N
  else if ((97 <=? c) && (c <=? 122))%N then Some (c - 71)%N
  else if ((48 <=? c) && (c <=? 57))%N then Some (c + 4)%N
  else if (c =? 43)%N then Some 62%N
  else if (c =? 47)%N then Some 63%N
  else None.

Definition padChar : N := 61%N.           (* '=' *)

(** TAB, LF, FF, CR and SPACE. *)
Definition isAsciiWhitespace (c : N) : bool :=
  ((c =? 9) || (c =? 10) || (c =? 12) || (c =? 13) || (c =? 32))%N.

(** The 6-bit groups of a sequence of octets; the last group of an
    incomplete triple is filled with zero bits. *)
Fixpoint sextets (l : list N) : list N :=
  match l with
  | a :: b :: c :: r =>
      (a / 4) :: ((a mod 4) * 16 + b / 16) :: ((b mod 16) * 4 + c / 64)
        :: (c mod 64) :: sextets r
  | [a; b] => [a / 4; (a mod 4) * 16 + b / 16; (b mod 16) * 4]
  | [a] => [a / 4; (a mod 4) * 16]
  | [] => []
  end%N.

Fixpoint padding (l : list N) : list N :=
  match l with
  | _ :: _ :: _ :: r => padding r
  | [_; _] => [padChar]
  | [_] => [padChar; padChar]
  | [] => []
  end.

Definition encode (l : list N) : list N :=
  map encodeSextet (sextets l) ++ padding l.

(** Removes one or two '=' at the very end. *)
Fixpoint stripPadding (d : list N) : list N :=
  match d with
  | [] => []
  | c :: r =>
      match r with
      | [] => if (c =? padChar)%N then [] else [c]
      | [c'] =>
          if ((c =? padChar) && (c' =? padChar))%N then []
          else c :: stripPadding r
      | _ => c :: stripPadding r
      end
  end.

(** The octets of a sequence of 6-bit groups; the bits of an
    incomplete group of four that do not fill an octet are dropped. *)
Fixpoint octets (l : list N) : list N :=
  match l with
  | a :: b :: c :: d :: r =>
      (a * 4 + b / 16) :: ((b mod 16) * 16 + c / 4) :: ((c mod 4) * 64 + d)
        :: octets r
  | [a; b; c] => [a * 4 + b / 16; (b mod 16) * 16 + c / 4]
  | [a; b] => [a * 4 + b / 16]
  | _ => []
  end%N.

Definition decode (data : list N) : option (list N) :=
  let data := filter (fun c => isAsciiWhitespace c = false) data in
  let data :=
    if (length data mod 4 =? 0)%nat then stripPadding data else data in
  if (length data mod 4 =? 1)%nat then None
  else octets <$> mapM decodeSextet data.

End Base64.

Definition isOctet (n : N) : Prop := (n < 256)%N.
Definition isSextet (n : N) : Prop := (n < 64)%N.

Definition codeUnits (s : string) : list N :=
  map N_of_ascii (list_ascii_of_string s).

Definition ofCodeUnits (l : list N) : string :=
  string_of_list_ascii (map ascii_of_N l).

(** [btoa(s)].  The InvalidCharacterError of [btoa] is raised for a code
    unit above 255, which a [string] cannot hold. *)
Definition btoa (s : string) : result string :=
  Ok (ofCodeUnits (Base64.encode (codeUnits s))).

(** [atob(s)]. *)
Definition atob (s : string) : result string :=
  match Base64.decode (codeUnits s) with
  | Some l => Ok (ofCodeUnits l)
  | None => Throw InvalidCharacterError
  end.

(** ** Typed arrays *)

Definition ArrayBuffer := list byte.

(** [String.fromCharCode(bytes[i])] for an element of a [Uint8Array]. *)
Definition fromCharCode (b : byte) : ascii := ascii_of_N (Byte.to_N b).

(** [s.charCodeAt(i)] for the character at position [i]. *)
Definition charCodeAt (c : ascii) : N := N_of_ascii c.

(** [bytes[i] = n] on a [Uint8Array]: the number is stored modulo 256. *)
Definition toUint8 (n : N) : byte :=
  default x00 (Byte.of_N (n mod 256)).

(** [new Int16Array(buffer)]: a RangeError when the byte length is odd;
    otherwise the 16-bit two's-complement integers of the successive
    byte pairs, low byte first (the byte order of the platforms that run
    this code). *)
Definition toInt16 (u : Z) : Z :=
  if (u <? 32768)%Z then u else (u - 65536)%Z.

Fixpoint int16Elements (buffer : ArrayBuffer) : list Z :=
  match buffer with
  | lo :: hi :: r =>
      toInt16 (Z.of_N (Byte.to_N lo) + 256 * Z.of_N (Byte.to_N hi))
        :: int16Elements r
  | _ => []
  end.

Definition newInt16Array (buffer : ArrayBuffer) : result (list Z) :=
  if Nat.even (length buffer) then Ok (int16Elements buffer)
  else Throw RangeError.

(** ** The two base64 helpers of the class *)

(** [arrayBufferToBase64], lines 297-304: the loop appends one character
    per byte to [binary], then [btoa]. *)
Definition arrayBufferToBase64 (buffer : ArrayBuffer) : result string :=
  let bytes := buffer in
  let binary :=
    fold_left (fun binary b => binary +:+ String (fromCharCode b) "")
      bytes "" in
  btoa binary.

(** [base64ToArrayBuffer], lines 306-314: [atob], then the loop stores the
    code unit of every character into a [Uint8Array] of the same length. *)
Definition base64ToArrayBuffer (base64 : string) : result ArrayBuffer :=
  bindR (atob base64) (fun binaryString =>
  let len := String.length binaryString in
  let bytes := replicate len x00 in
  Ok (fold_left
        (fun (bytes : list byte) i =>
           match String.get i binaryString with
           | Some c => <[i := toUint8 (charCodeAt c)]> bytes
           | None => bytes
           end)
        (seq 0 len) bytes)).

(** ** PCM decoding of an inbound audio payload *)

(** An [AudioBuffer] with one channel. *)
Record AudioBuffer : Type := mkAudioBuffer {
  numberOfChannels : Z;
  sampleRate : Z;
  channelData : list Q;
}.

(** [int16View[i] / 32768.0]. *)
Definition normalize (sample : Z) : Q := Qmake sample 32768.

(** Lines 208-210: the loop writes one normalised sample per element of
    [int16View]; a write past the end of a typed array is ignored. *)
Definition fillChannelData (int16View : list Z) (channelData : list Q)
  : list Q :=
  fold_left
    (fun (channelData : list Q) i =>
       match int16View !! i with
       | Some sample => <[i := normalize sample]> channelData
       | None => channelData
       end)
    (seq 0 (length int16View)) channelData.

(** The range of a normalised sample: [-1.0, 1.0). *)
Definition inUnitRange (q : Q) : Prop := (-1 <= q)%Q /\ (q < 1)%Q.

(** [createBuffer(numberOfChannels, length, sampleRate)] of the Web Audio
    API: a buffer of silence; NotSupportedError when [length] is zero.
    One channel and the rate 24000 are always inside the supported
    range. *)
Definition createBuffer (channels : Z) (len : nat) (rate : Z)
  : result AudioBuffer :=
  if (len =? 0)%nat then Throw NotSupportedError
  else Ok (mkAudioBuffer channels rate (replicate len 0%Q)).

(** The decode-and-normalize step of [playAudioChunk], lines 202-210:
    [base64ToArrayBuffer], the allocation of the buffer by
    [createBuffer], the [Int16Array] view and the loop; the result is
    the channel data that the loop has written for the payload
    [audioData]. *)
Definition decodePcm (audioData : string) : result (list Q) :=
  bindR (base64ToArrayBuffer audioData) (fun arrayBuffer =>
  bindR (createBuffer 1 (length arrayBuffer / 2) 24000) (fun audioBuffer =>
  bindR (newInt16Array arrayBuffer) (fun int16View =>
  Ok (fillChannelData int16View (channelData audioBuffer))))).

(** ** Platform objects and the fields of the manager *)

Record AudioContext : Type := mkAudioContext {
  ctxId : nat;
  ctxSampleRate : Z;
}.

Record MediaStream : Type := mkMediaStream {
  streamId : nat;
  streamTracks : list nat;
}.

(** [xb.AI]: the two methods whose presence the class tests. *)
Record AI : Type := mkAI {
  hasStopLiveSession : bool;
  hasSendRealtimeInput : bool;
}.

(** The argument of [ai.sendRealtimeInput].  The [data] of a video frame
    is [None] when the caller passed [undefined]. *)
Inductive RealtimeInput : Type :=
| AudioInput (data : string) (mimeType : string)
| VideoInput (data : option string) (mimeType : string).

(** [GeminiManagerEventMap]. *)
Inductive GeminiEvent : Type :=
| InputTranscription (message : string)
| OutputTranscription (message : string)
| TurnComplete.

(** [LiveServerMessage], the part that [handleAIMessage] reads. *)
Record Transcription : Type := mkTranscription {
  text : option string;
}.

Record ServerContent : Type := mkServerContent {
  inputTranscription : option Transcription;
  outputTranscription : option Transcription;
  turnComplete : option bool;
}.

Record LiveServerMessage : Type := mkMessage {
  data : option string;
  serverContent : option ServerContent;
}.

(** The fields of [GeminiManager], lines 12-34. *)
Record Manager : Type := mkManager {
  xrDeviceCamera : option nat;
  ai : option AI;
  audioStream : option MediaStream;
  audioContext : option AudioContext;
  sourceNode : option nat;
  processorNode : option nat;
  isAIRunning : bool;
  audioQueue : list AudioBuffer;
  isPlayingAudio : bool;
  screenshotInterval : option nat;
  currentInputText : string;
  currentOutputText : string;
}.

(** The state of a freshly constructed manager. *)
Definition newManager : Manager :=
  mkManager None None None None None None false [] false None "" "".

(** ** The platform: calls, their outcomes, and the event loop *)

(** What the manager does to the outside, in the order it does it.
    [QueuePush] is not a platform call: it records
    [this.audioQueue.push(audioBuffer)] so that the trace orders the
    enqueueing of a segment with respect to the calls around it. *)
Inductive Action : Type :=
| ConsoleWarn (msg : string)
| ConsoleError (msg : string)
| GetUserMedia
| NewAudioContext (ctx : AudioContext)
| AddModule (ctx : AudioContext)
| CreateMediaStreamSource (ctx : AudioContext) (stream : MediaStream)
| NewAudioWorkletNode (ctx : AudioContext)
| ConnectSource (source processor : nat)
| ConnectProcessor (processor : nat) (ctx : AudioContext)
| SetLiveCallbacks
| StartLiveSession
| StopLiveSession
| SetInterval (timer : nat) (intervalMs : Z)
| ClearInterval (timer : nat)
| GetSnapshot
| SendRealtimeInput (input : RealtimeInput)
| CreateBuffer (ctx : AudioContext) (len : nat) (rate : Z)
| QueuePush (buffer : AudioBuffer)
| CreateBufferSource (ctx : AudioContext)
| ConnectBufferSource (ctx : AudioContext)
| SourceStart (ctx : AudioContext) (buffer : AudioBuffer)
| DisconnectProcessor (processor : nat)
| DisconnectSource (source : nat)
| CloseContext (ctx : AudioContext)
| TrackStop (track : nat)
| DispatchEvent (event : GeminiEvent)
| SuperDispose.

(** How the transport answers [startLiveSession]. *)
Inductive LiveOutcome : Type :=
| LiveOpened       (* [onopen] fires *)
| LiveErrored      (* [onerror] fires before [onopen] *)
| LiveSilent.      (* neither fires *)

(** What [getSnapshot] returns when it returns. *)
Inductive Snapshot : Type :=
| SnapString (base64Image : string)
| SnapOther.       (* a value whose [typeof] is not 'string' *)

(** The behaviour of the platform during one call of the manager. *)
Record Env : Type := mkEnv {
  fails : Action -> bool;      (* the platform calls that throw or reject *)
  userMediaTracks : list nat;  (* the tracks of the stream of getUserMedia *)
  liveOutcome : LiveOutcome;
  snapshot : Snapshot;
}.

(** The continuation of an async function that waits in the microtask
    queue: [playAudioChunk] after its [await], with the outcome of the
    awaited promise. *)
Inductive Task : Type :=
| ResumePlayAudioChunk (awaited : result unit) (audioData : string).

Record World : Type := mkWorld {
  trace : list Action;          (* oldest first *)
  microtasks : list Task;       (* oldest first *)
  fresh : nat;                  (* the next object identity *)
  timers : list nat;            (* the interval timers that are set *)
  playing : list (AudioContext * AudioBuffer);
                                (* the buffer sources started, not ended *)
  callbacksSet : bool;          (* [setLiveCallbacks] has been called *)
}.

Definition newWorld : World := mkWorld [] [] 1 [] [] false.

Record St : Type := mkSt {
  mgr : Manager;
  world : World;
}.

Definition initial : St := mkSt newManager newWorld.

(** ** The monad of the methods: state, exceptions, pending awaits

    A method transforms the state and ends normally, by throwing, or in
    an [await] that never resumes.  The state changes made before a
    throw are kept, as in JavaScript. *)

Definition M (A : Type) : Type := St -> result A * St.

Definition retM {A} (a : A) : M A := fun st => (Ok a, st).

Definition bindM {A B} (m : M A) (k : A -> M B) : M B :=
  fun st =>
    match m st with
    | (Ok a, st') => k a st'
    | (Throw e, st') => (Throw e, st')
    | (Pending, st') => (Pending, st')
    end.

#[export] Instance M_ret : MRet M := @retM.
#[export] Instance M_bind : MBind M := fun A B k m => bindM m k.

Definition throw {A} (e : JsError) : M A := fun st => (Throw e, st).

Definition liftR {A} (r : result A) : M A := fun st => (r, st).

(** [try { body } catch (error) { handler }]. *)
Definition tryCatch {A} (body : M A) (handler : JsError -> M A) : M A :=
  fun st =>
    match body st with
    | (Throw e, st') => handler e st'
    | other => other
    end.

Definition getMgr : M Manager := fun st => (Ok (mgr st), st).

Definition modifyMgr (f : Manager -> Manager) : M unit :=
  fun st => (Ok tt, mkSt (f (mgr st)) (world st)).

Definition modifyWorld (f : World -> World) : M unit :=
  fun st => (Ok tt, mkSt (mgr st) (f (world st))).

Definition when (c : bool) (m : M unit) : M unit :=
  if c then m else retM tt.

(** [for (const x of l) body(x)]. *)
Fixpoint forEach {A} (l : list A) (body : A -> M unit) : M unit :=
  match l with
  | [] => retM tt
  | x :: r => body x ;; forEach r body
  end.

(** Field assignments. *)
Definition set_audioStream v (m : Manager) : Manager :=
  mkManager (xrDeviceCamera m) (ai m) v (audioContext m) (sourceNode m)
    (processorNode m) (isAIRunning m) (audioQueue m) (isPlayingAudio m)
    (screenshotInterval m) (currentInputText m) (currentOutputText m).
Definition set_audioContext v (m : Manager) : Manager :=
  mkManager (xrDeviceCamera m) (ai m) (audioStream m) v (sourceNode m)
    (processorNode m) (isAIRunning m) (audioQueue m) (isPlayingAudio m)
    (screenshotInterval m) (currentInputText m) (currentOutputText m).
Definition set_sourceNode v (m : Manager) : Manager :=
  mkManager (xrDeviceCamera m) (ai m) (audioStream m) (audioContext m) v
    (processorNode m) (isAIRunning m) (audioQueue m) (isPlayingAudio m)
    (screenshotInterval m) (currentInputText m) (currentOutputText m).
Definition set_processorNode v (m : Manager) : Manager :=
  mkManager (xrDeviceCamera m) (ai m) (audioStream m) (audioContext m)
    (sourceNode m) v (isAIRunning m) (audioQueue m) (isPlayingAudio m)
    (screenshotInterval m) (currentInputText m) (currentOutputText m).
Definition set_isAIRunning v (m : Manager) : Manager :=
  mkManager (xrDeviceCamera m) (ai m) (audioStream m) (audioContext m)
    (sourceNode m) (processorNode m) v (audioQueue m) (isPlayingAudio m)
    (screenshotInterval m) (currentInputText m) (currentOutputText m).
Definition set_audioQueue v (m : Manager) : Manager :=
  mkManager (xrDeviceCamera m) (ai m) (audioStream m) (audioContext m)
    (sourceNode m) (processorNode m) (isAIRunning m) v (isPlayingAudio m)
    (screenshotInterval m) (currentInputText m) (currentOutputText m).
Definition set_isPlayingAudio v (m : Manager) : Manager :=
  mkManager (xrDeviceCamera m) (ai m) (audioStream m) (audioContext m)
    (sourceNode m) (processorNode m) (isAIRunning m) (audioQueue m) v
    (screenshotInterval m) (currentInputText m) (currentOutputText m).
Definition set_screenshotInterval v (m : Manager) : Manager :=
  mkManager (xrDeviceCamera m) (ai m) (audioStream m) (audioContext m)
    (sourceNode m) (processorNode m) (isAIRunning m) (audioQueue m)
    (isPlayingAudio m) v (currentInputText m) (currentOutputText m).
Definition set_currentInputText v (m : Manager) : Manager :=
  mkManager (xrDeviceCamera m) (ai m) (audioStream m) (audioContext m)
    (sourceNode m) (processorNode m) (isAIRunning m) (audioQueue m)
    (isPlayingAudio m) (screenshotInterval m) v (currentOutputText m).
Definition set_currentOutputText v (m : Manager) : Manager :=
  mkManager (xrDeviceCamera m) (ai m) (audioStream m) (audioContext m)
    (sourceNode m) (processorNode m) (isAIRunning m) (audioQueue m)
    (isPlayingAudio m) (screenshotInterval m) (currentInputText m) v.
Definition set_collaborators cam a (m : Manager) : Manager :=
  mkManager cam a (audioStream m) (audioContext m)
    (sourceNode m) (processorNode m) (isAIRunning m) (audioQueue m)
    (isPlayingAudio m) (screenshotInterval m) (currentInputText m)
    (currentOutputText m).

(** Updates of the platform state. *)
Definition logAction (a : Action) (w : World) : World :=
  mkWorld (trace w ++ [a]) (microtasks w) (fresh w) (timers w) (playing w)
    (callbacksSet w).
Definition bumpFresh (w : World) : World :=
  mkWorld (trace w) (microtasks w) (S (fresh w)) (timers w) (playing w)
    (callbacksSet w).
Definition set_microtasks v (w : World) : World :=
  mkWorld (trace w) v (fresh w) (timers w) (playing w) (callbacksSet w).
Definition set_timers v (w : World) : World :=
  mkWorld (trace w) (microtasks w) (fresh w) v (playing w) (callbacksSet w).
Definition set_playing v (w : World) : World :=
  mkWorld (trace w) (microtasks w) (fresh w) (timers w) v (callbacksSet w).
Definition set_callbacksSet v (w : World) : World :=
  mkWorld (trace w) (microtasks w) (fresh w) (timers w) (playing w) v.

Definition logActions (l : list Action) (w : World) : World :=
  mkWorld (trace w ++ l) (microtasks w) (fresh w) (timers w) (playing w)
    (callbacksSet w).

(** An action that cannot fail: it is recorded. *)
Definition note (a : Action) : M unit := modifyWorld (logAction a).

(** A platform call: it is recorded, then it throws if the platform says
    so.  For a call that returns a promise which the caller awaits, the
    throw is the rejection of that promise. *)
Definition call (env : Env) (a : Action) : M unit :=
  note a ;;
  if fails env a then throw (ExternalFailure "platform") else retM tt.

(** A new object identity. *)
Definition freshId : M nat :=
  fun st => (Ok (fresh (world st)), mkSt (mgr st) (bumpFresh (world st))).

(** [x!.method()] on a field that may be [null] or [undefined]. *)
Definition nonNull {A} (x : option A) : M A :=
  match x with
  | Some a => retM a
  | None => throw TypeError
  end.

(** [if (s) { k(s) }] for a string that may be absent: the empty string
    is falsy. *)
Definition whenText (s : option string) (k : string -> M unit) : M unit :=
  match s with
  | Some s => if String.eqb s "" then retM tt else k s
  | None => retM tt
  end.

(** ** Platform operations that return a value *)

(** [new AudioContext({sampleRate})]. *)
Definition newAudioContext (env : Env) (rate : Z) : M AudioContext :=
  id ← freshId;
  let ctx := mkAudioContext id rate in
  call env (NewAudioContext ctx) ;;
  mret ctx.

(** [await navigator.mediaDevices.getUserMedia(...)]. *)
Definition getUserMedia (env : Env) : M MediaStream :=
  call env GetUserMedia ;;
  id ← freshId;
  mret (mkMediaStream id (userMediaTracks env)).

Definition createMediaStreamSource (env : Env) (ctx : AudioContext)
    (stream : MediaStream) : M nat :=
  call env (CreateMediaStreamSource ctx stream) ;;
  freshId.

Definition newAudioWorkletNode (env : Env) (ctx : AudioContext) : M nat :=
  call env (NewAudioWorkletNode ctx) ;;
  freshId.

(** [setInterval(callback, intervalMs)]: the timer is set. *)
Definition setInterval (intervalMs : Z) : M nat :=
  id ← freshId;
  note (SetInterval id intervalMs) ;;
  modifyWorld (fun w => set_timers (timers w ++ [id]) w) ;;
  mret id.

(** [clearInterval(timer)]: the timer no longer fires. *)
Definition clearInterval (env : Env) (timer : nat) : M unit :=
  call env (ClearInterval timer) ;;
  modifyWorld (fun w =>
    set_timers (filter (fun t => t <> timer) (timers w)) w).

(** [audioContext.close()]: returns a promise that nobody awaits, so it
    cannot throw into the caller; the sources of the context fall
    silent. *)
Definition closeContext (ctx : AudioContext) : M unit :=
  note (CloseContext ctx) ;;
  modifyWorld (fun w =>
    set_playing
      (filter (fun p => ctxId (fst p) <> ctxId ctx) (playing w)) w).

(** [source.start()]: the source sounds until it ends. *)
Definition startSource (env : Env) (ctx : AudioContext)
    (buffer : AudioBuffer) : M unit :=
  call env (SourceStart ctx buffer) ;;
  modifyWorld (fun w => set_playing (playing w ++ [(ctx, buffer)]) w).

(** [xrDeviceCamera.getSnapshot({outputFormat: 'base64', ...})]. *)
Definition getSnapshot (env : Env) : M Snapshot :=
  call env GetSnapshot ;;
  mret (snapshot env).

(** [s.split(sep)] for a separator of one character. *)
Fixpoint split (sep : ascii) (s : string) : list string :=
  match s with
  | EmptyString => [EmptyString]
  | String c r =>
      if Ascii.eqb c sep then EmptyString :: split sep r
      else match split sep r with
           | h :: t => String c h :: t
           | [] => [String c EmptyString]
           end
  end.

(** [s.startsWith(p)]. *)
Definition startsWith (p s : string) : bool := String.prefix p s.

(** ** The methods of [GeminiManager] *)

(** [init], lines 40-43. *)
Definition init (deviceCamera : option nat) (coreAi : option AI) : M unit :=
  modifyMgr (set_collaborators deviceCamera coreAi).

(** Line 267: [audioStream.getTracks().forEach(track => track.stop())]. *)
Definition stopTracks (env : Env) (stream : MediaStream) : M unit :=
  forEach (streamTracks stream) (fun track => call env (TrackStop track)).

(** [cleanup], lines 241-270. *)
Definition cleanup (env : Env) : M unit :=
  m ← getMgr;
  match screenshotInterval m with
  | Some timer =>
      clearInterval env timer ;;
      modifyMgr (set_screenshotInterval None)
  | None => mret tt
  end ;;
  modifyMgr (set_audioQueue []) ;;
  modifyMgr (set_isPlayingAudio false) ;;
  m ← getMgr;
  match processorNode m with
  | Some node =>
      call env (DisconnectProcessor node) ;;
      modifyMgr (set_processorNode None)
  | None => mret tt
  end ;;
  m ← getMgr;
  match sourceNode m with
  | Some node =>
      call env (DisconnectSource node) ;;
      modifyMgr (set_sourceNode None)
  | None => mret tt
  end ;;
  m ← getMgr;
  match audioContext m with
  | Some ctx =>
      closeContext ctx ;;
      modifyMgr (set_audioContext None)
  | None => mret tt
  end ;;
  m ← getMgr;
  match audioStream m with
  | Some stream =>
      stopTracks env stream ;;
      modifyMgr (set_audioStream None)
  | None => mret tt
  end.

(** [sendAudioData], lines 165-177. *)
Definition sendAudioData (env : Env) (audioBuffer : ArrayBuffer) : M unit :=
  m ← getMgr;
  if negb (isAIRunning m)
     || match ai m with
        | None => true
        | Some ai => negb (hasSendRealtimeInput ai)
        end
  then throw NotReadyAudio
  else
    tryCatch
      (base64Audio ← liftR (arrayBufferToBase64 audioBuffer);
       call env
         (SendRealtimeInput (AudioInput base64Audio "audio/pcm;rate=16000")))
      (fun error => note (ConsoleError "Failed to send audio:")).

(** [sendVideoFrame], lines 179-191.  The argument is [None] when the
    caller passes [undefined].  The console messages are given without
    their pictogram. *)
Definition sendVideoFrame (env : Env) (base64Image : option string)
  : M unit :=
  m ← getMgr;
  if negb (isAIRunning m)
     || match ai m with
        | None => true
        | Some ai => negb (hasSendRealtimeInput ai)
        end
  then throw NotReadyVideo
  else
    tryCatch
      (call env (SendRealtimeInput (VideoInput base64Image "image/jpeg")))
      (fun error =>
         note (ConsoleError "Failed to send video frame:") ;;
         note (ConsoleError "Error stack:")).

(** Lines 155-157:
    [base64Image.startsWith('data:') ? base64Image.split(',')[1] : base64Image].
    The result is [None] when the element 1 of the array is [undefined]. *)
Definition stripDataUrlPrefix (base64Image : string) : option string :=
  if startsWith "data:" base64Image
  then split "," base64Image !! 1%nat
  else Some base64Image.

(** [captureAndSendScreenshot], lines 146-163. *)
Definition captureAndSendScreenshot (env : Env) : M unit :=
  tryCatch
    (m ← getMgr;
     _ ← nonNull (xrDeviceCamera m);
     base64Image ← getSnapshot env;
     match base64Image with
     | SnapString base64Image =>
         let base64Data := stripDataUrlPrefix base64Image in
         sendVideoFrame env base64Data
     | SnapOther => mret tt
     end)
    (fun error => note (ConsoleError "Failed to capture screenshot:")).

(** [startScreenshotCapture], lines 136-144.  A timer identifier is
    truthy. *)
Definition startScreenshotCapture (intervalMs : Z) : M unit :=
  m ← getMgr;
  match screenshotInterval m with
  | Some _ => note (ConsoleError "Screenshot interval already running")
  | None =>
      timer ← setInterval intervalMs;
      modifyMgr (set_screenshotInterval (Some timer))
  end.

(** [setupAudioCapture], lines 82-112.  The handler installed on
    [processorNode.port.onmessage] is [onWorkletMessage] below. *)
Definition setupAudioCapture (env : Env) : M unit :=
  stream ← getUserMedia env;
  modifyMgr (set_audioStream (Some stream)) ;;
  let audioTracks := streamTracks stream in
  if (length audioTracks =? 0)%nat then throw NoAudioTracks
  else
    ctx ← newAudioContext env 16000;
    modifyMgr (set_audioContext (Some ctx)) ;;
    call env (AddModule ctx) ;;
    source ← createMediaStreamSource env ctx stream;
    modifyMgr (set_sourceNode (Some source)) ;;
    processor ← newAudioWorkletNode env ctx;
    modifyMgr (set_processorNode (Some processor)) ;;
    call env (ConnectSource source processor) ;;
    call env (ConnectProcessor processor ctx).

(** [startLiveAI], lines 114-134: the promise resolves on [onopen],
    rejects on [onerror] and when [startLiveSession] rejects, and stays
    pending when the transport is silent.  The handlers installed are
    [handleAIMessage] for [onmessage] and [onclose] below. *)
Definition startLiveAI (env : Env) : M unit :=
  m ← getMgr;
  _ ← nonNull (ai m);
  call env SetLiveCallbacks ;;
  modifyWorld (set_callbacksSet true) ;;
  call env StartLiveSession ;;
  match liveOutcome env with
  | LiveOpened => mret tt
  | LiveErrored =>
      note (ConsoleError "Live AI error:") ;;
      throw (ExternalFailure "onerror")
  | LiveSilent => liftR Pending
  end.

(** The [onclose] callback, lines 127-129. *)
Definition onclose : M unit := modifyMgr (set_isAIRunning false).

(** [initializeAudioContext], lines 193-197. *)
Definition initializeAudioContext (env : Env) : M unit :=
  m ← getMgr;
  match audioContext m with
  | None =>
      ctx ← newAudioContext env 24000;
      modifyMgr (set_audioContext (Some ctx))
  | Some _ => mret tt
  end.

(** [playNextAudioBuffer], lines 222-239.  The handler installed on
    [source.onended] is [playNextAudioBuffer] itself; the event loop
    below calls it when the source ends. *)
Definition playNextAudioBuffer (env : Env) : M unit :=
  m ← getMgr;
  match audioQueue m with
  | [] => modifyMgr (set_isPlayingAudio false)
  | audioBuffer :: rest =>
      modifyMgr (set_isPlayingAudio true) ;;
      modifyMgr (set_audioQueue rest) ;;
      m ← getMgr;
      ctx ← nonNull (audioContext m);
      call env (CreateBufferSource ctx) ;;
      m ← getMgr;
      ctx ← nonNull (audioContext m);
      call env (ConnectBufferSource ctx) ;;
      startSource env ctx audioBuffer
  end.

(** [playAudioChunk], lines 199-220, after its [await]: the rest of the
    [try] block, resumed from the microtask queue with the outcome of
    the awaited promise.  The call of [createBuffer] is recorded with
    the context it is made on; its result is the one of [createBuffer]
    above. *)
Definition resumePlayAudioChunk (env : Env) (awaited : result unit)
    (audioData : string) : M unit :=
  tryCatch
    (liftR awaited ;;
     arrayBuffer ← liftR (base64ToArrayBuffer audioData);
     m ← getMgr;
     ctx ← nonNull (audioContext m);
     let len := (length arrayBuffer / 2)%nat in
     call env (CreateBuffer ctx len 24000) ;;
     audioBuffer ← liftR (createBuffer 1 len 24000);
     int16View ← liftR (newInt16Array arrayBuffer);
     let audioBuffer :=
       mkAudioBuffer (numberOfChannels audioBuffer) (sampleRate audioBuffer)
         (fillChannelData int16View (channelData audioBuffer)) in
     note (QueuePush audioBuffer) ;;
     m ← getMgr;
     modifyMgr (set_audioQueue (audioQueue m ++ [audioBuffer])) ;;
     m ← getMgr;
     when (negb (isPlayingAudio m)) (playNextAudioBuffer env))
    (fun error => note (ConsoleError "Error playing audio chunk:")).

(** [playAudioChunk], lines 199-220, up to its [await]: the body of
    [initializeAudioContext] runs at once (it has no [await] of its
    own), then [playAudioChunk] suspends and its caller goes on; the
    rest runs from the microtask queue.  The call itself returns a
    promise and never throws. *)
Definition playAudioChunk (env : Env) (audioData : string) : M unit :=
  fun st =>
    let (awaited, st) := initializeAudioContext env st in
    modifyWorld
      (fun w =>
         set_microtasks
           (microtasks w ++ [ResumePlayAudioChunk awaited audioData]) w)
      st.

(** [dispatchEvent(event)]: the listeners run at once. *)
Definition dispatchEvent (env : Env) (event : GeminiEvent) : M unit :=
  call env (DispatchEvent event).

(** [handleAIMessage], lines 272-295. *)
Definition handleAIMessage (env : Env) (message : LiveServerMessage)
  : M unit :=
  whenText (data message) (fun data => playAudioChunk env data) ;;
  match serverContent message with
  | Some serverContent =>
      match inputTranscription serverContent with
      | Some transcription =>
          whenText (text transcription) (fun text =>
            dispatchEvent env (InputTranscription text))
      | None => mret tt
      end ;;
      match outputTranscription serverContent with
      | Some transcription =>
          whenText (text transcription) (fun text =>
            dispatchEvent env (OutputTranscription text))
      | None => mret tt
      end ;;
      match turnComplete serverContent with
      | Some true => dispatchEvent env TurnComplete
      | _ => mret tt
      end
  | None => mret tt
  end.

(** The handler of [processorNode.port.onmessage], lines 104-108. *)
Definition onWorkletMessage (env : Env) (isAudioData : bool)
    (audioBuffer : ArrayBuffer) : M unit :=
  m ← getMgr;
  when (isAudioData && isAIRunning m) (sendAudioData env audioBuffer).

(** [startGeminiLive], lines 45-61. *)
Definition startGeminiLive (env : Env) : M unit :=
  m ← getMgr;
  if isAIRunning m || negb (bool_decide (is_Some (ai m)))
  then note (ConsoleWarn "AI already running or not available")
  else
    tryCatch
      (setupAudioCapture env ;;
       startLiveAI env ;;
       startScreenshotCapture 1000 ;;
       modifyMgr (set_isAIRunning true))
      (fun error =>
         note (ConsoleError "Failed to start Gemini Live:") ;;
         cleanup env ;;
         throw error).

(** [stopGeminiLive], lines 63-80. *)
Definition stopGeminiLive (env : Env) : M unit :=
  m ← getMgr;
  if negb (isAIRunning m) then mret tt
  else
    tryCatch
      (m ← getMgr;
       match ai m with
       | Some ai => when (hasStopLiveSession ai) (call env StopLiveSession)
       | None => mret tt
       end ;;
       cleanup env ;;
       modifyMgr (set_isAIRunning false) ;;
       modifyMgr (set_currentInputText "") ;;
       modifyMgr (set_currentOutputText ""))
      (fun error => note (ConsoleError "Failed to stop Gemini Live:")).

(** [dispose], lines 316-319. *)
Definition dispose (env : Env) : M unit :=
  cleanup env ;;
  call env SuperDispose.

(** ** The event loop

    The platform runs one job at a time: a call by the application or a
    callback of the transport, of the interval timer or of a buffer
    source.  When the job returns, the microtask queue is emptied before
    the next job starts.  An [await] on a platform promise
    ([getUserMedia], [addModule], the live session, [stopLiveSession])
    is taken together with its outcome: what other callbacks do while a
    method waits there is outside this model.  The [await] inside
    [playAudioChunk] is different, its caller keeps running, and it is
    modelled by the microtask queue. *)

Definition runTask (env : Env) (task : Task) : M unit :=
  match task with
  | ResumePlayAudioChunk awaited audioData =>
      resumePlayAudioChunk env awaited audioData
  end.

(** Runs the waiting continuations, oldest first.  A continuation of
    this program never adds another one ([drainMicrotasks_empty]). *)
Definition drainMicrotasks (env : Env) (st : St) : St :=
  fold_left (fun st task => snd (runTask env task st))
    (microtasks (world st))
    (mkSt (mgr st) (set_microtasks [] (world st))).

Definition job (env : Env) (m : M unit) (st : St) : result unit * St :=
  let (r, st) := m st in (r, drainMicrotasks env st).

Inductive Event : Type :=
| CallStartGeminiLive
| CallStopGeminiLive
| CallPlayAudioChunk (audioData : string)
| CallDispose
| TransportMessage (message : LiveServerMessage)
| TransportClose
| TimerTick
| SourceEnded.

(** One job.  [None] when the event cannot happen: the transport calls
    back only after [setLiveCallbacks], the interval fires only while a
    timer is set, and a source ends only if it is playing. *)
Definition step (env : Env) (event : Event) (st : St)
  : option (result unit * St) :=
  match event with
  | CallStartGeminiLive => Some (job env (startGeminiLive env) st)
  | CallStopGeminiLive => Some (job env (stopGeminiLive env) st)
  | CallPlayAudioChunk audioData =>
      Some (job env (playAudioChunk env audioData) st)
  | CallDispose => Some (job env (dispose env) st)
  | TransportMessage message =>
      if callbacksSet (world st)
      then Some (job env (handleAIMessage env message) st) else None
  | TransportClose =>
      if callbacksSet (world st) then Some (job env onclose st) else None
  | TimerTick =>
      match timers (world st) with
      | [] => None
      | _ :: _ => Some (job env (captureAndSendScreenshot env) st)
      end
  | SourceEnded =>
      match playing (world st) with
      | [] => None
      | _ :: rest =>
          Some (job env (playNextAudioBuffer env)
                  (mkSt (mgr st) (set_playing rest (world st))))
      end
  end.

(** A sequence of jobs, each with the behaviour of the platform during
    it.  An exception that escapes a job is reported by the platform and
    the loop goes on. *)
Fixpoint run (events : list (Env * Event)) (st : St) : option St :=
  match events with
  | [] => Some st
  | (env, event) :: rest =>
      match step env event st with
      | Some (_, st) => run rest st
      | None => None
      end
  end.

(** A string without a comma. *)
Definition commaFree (s : string) : Prop :=
  Forall (fun c => c <> ","%char) (list_ascii_of_string s).

(** No platform call fails. *)
Definition noFail (env : Env) : Prop := forall a, fails env a = false.

(** A platform on which no call fails. *)
Definition benign (tracks : list nat) (snap : Snapshot) : Env :=
  mkEnv (fun _ => false) tracks LiveOpened snap.

(** ** Playback *)

(** The segment that lines 202-210 of [playAudioChunk] build for a
    payload, with the platform left out. *)
Definition decodeSegment (audioData : string) : result AudioBuffer :=
  bindR (base64ToArrayBuffer audioData) (fun arrayBuffer =>
  bindR (createBuffer 1 (length arrayBuffer / 2) 24000) (fun audioBuffer =>
  bindR (newInt16Array arrayBuffer) (fun int16View =>
  Ok (mkAudioBuffer (numberOfChannels audioBuffer) (sampleRate audioBuffer)
        (fillChannelData int16View (channelData audioBuffer)))))).

(** The length that [playAudioChunk] passes to [createBuffer]. *)
Definition segmentLength (audioData : string) : nat :=
  match base64ToArrayBuffer audioData with
  | Ok arrayBuffer => length arrayBuffer / 2
  | _ => 0
  end.

(** The state after the rest of [playAudioChunk] has enqueued [segment]
    on a platform where no call fails: the segment waits if playback is
    busy; if playback is idle the head of the queue is started. *)
Definition afterEnqueue (ctx : AudioContext) (len : nat)
    (segment : AudioBuffer) (st : St) : St :=
  let m := mgr st in
  let w := world st in
  if isPlayingAudio m then
    mkSt (set_audioQueue (audioQueue m ++ [segment]) m)
      (logActions [CreateBuffer ctx len 24000; QueuePush segment] w)
  else
    let head := hd segment (audioQueue m ++ [segment]) in
    mkSt (set_audioQueue (tl (audioQueue m ++ [segment]))
            (set_isPlayingAudio true m))
      (set_playing (playing w ++ [(ctx, head)])
         (logActions
            [CreateBuffer ctx len 24000; QueuePush segment;
             CreateBufferSource ctx; ConnectBufferSource ctx;
             SourceStart ctx head] w)).

(** The buffers whose playback was started, in order. *)
Definition startedBuffers (l : list Action) : list AudioBuffer :=
  omap (fun a => match a with
                 | SourceStart _ buffer => Some buffer
                 | _ => None
                 end) l.

(** The segments of the payloads that decode, in order. *)
Definition segmentsOf (payloads : list string) : list AudioBuffer :=
  omap (fun audioData => match decodeSegment audioData with
                         | Ok segment => Some segment
                         | _ => None
                         end) payloads.

(** The two events of playback: a call of [playAudioChunk], and the end
    of the source that is playing. *)
Inductive PlaybackEvent : Type :=
| Enqueue (audioData : string)
| Ended.

Definition playbackJob (event : PlaybackEvent) : Env * Event :=
  (benign [] SnapOther,
   match event with
   | Enqueue audioData => CallPlayAudioChunk audioData
   | Ended => SourceEnded
   end).

Definition payloads (events : list PlaybackEvent) : list string :=
  omap (fun event => match event with
                     | Enqueue audioData => Some audioData
                     | Ended => None
                     end) events.

(** Between two jobs of playback: no continuation waits; while
    [isPlayingAudio] is set there is a context and exactly one source
    sounds; while it is not set no source sounds and no segment waits. *)
Definition playbackInv (st : St) : Prop :=
  microtasks (world st) = [] /\
  (isPlayingAudio (mgr st) = true -> is_Some (audioContext (mgr st))) /\
  if isPlayingAudio (mgr st)
  then length (playing (world st)) = 1
  else playing (world st) = [] /\ audioQueue (mgr st) = [].

(** The audio contexts created, in order. *)
Definition contextsCreated (l : list Action) : list AudioContext :=
  omap (fun a => match a with
                 | NewAudioContext ctx => Some ctx
                 | _ => None
                 end) l.

(** ** Inbound messages *)

(** The state after [initializeAudioContext] on a platform where no call
    fails, and the context that playback uses from then on. *)
Definition playbackContext (st : St) : AudioContext :=
  match audioContext (mgr st) with
  | Some ctx => ctx
  | None => mkAudioContext (fresh (world st)) 24000
  end.

Definition afterInitialize (st : St) : St :=
  match audioContext (mgr st) with
  | Some _ => st
  | None =>
      mkSt (set_audioContext (Some (playbackContext st)) (mgr st))
        (logAction (NewAudioContext (playbackContext st))
           (bumpFresh (world st)))
  end.

(** The event of a transcription that carries a text. *)
Definition textEvent (mk : string -> GeminiEvent)
    (transcription : option Transcription) : list GeminiEvent :=
  match transcription with
  | Some transcription =>
      match text transcription with
      | Some text => if String.eqb text "" then [] else [mk text]
      | None => []
      end
  | None => []
  end.

(** The events that [handleAIMessage] dispatches for the content of a
    message, in order. *)
Definition dispatched (content : ServerContent) : list GeminiEvent :=
  textEvent InputTranscription (inputTranscription content)
  ++ textEvent OutputTranscription (outputTranscription content)
  ++ match turnComplete content with
     | Some true => [TurnComplete]
     | _ => []
     end.

(** The state when [handleAIMessage] returns, for a message with an
    audio payload, on a platform where no call fails: the events are
    dispatched and the rest of [playAudioChunk] waits. *)
Definition afterMessage (audioData : string) (content : ServerContent)
    (st : St) : St :=
  let st0 := afterInitialize st in
  mkSt (mgr st0)
    (logActions (map DispatchEvent (dispatched content))
       (set_microtasks
          (microtasks (world st0) ++ [ResumePlayAudioChunk (Ok tt) audioData])
          (world st0))).

(** The two things whose order a message with audio and a turn-complete
    marker fixes. *)
Inductive Milestone : Type :=
| SegmentEnqueued
| TurnCompleteDispatched.

Definition milestones (l : list Action) : list Milestone :=
  omap (fun a => match a with
                 | QueuePush _ => Some SegmentEnqueued
                 | DispatchEvent TurnComplete => Some TurnCompleteDispatched
                 | _ => None
                 end) l.

(** ** Teardown *)

(** The platform calls of [cleanup] on a manager, in order. *)
Definition cleanupActions (m : Manager) : list Action :=
  match screenshotInterval m with
  | Some timer => [ClearInterval timer]
  | None => []
  end
  ++ match processorNode m with
     | Some node => [DisconnectProcessor node]
     | None => []
     end
  ++ match sourceNode m with
     | Some node => [DisconnectSource node]
     | None => []
     end
  ++ match audioContext m with
     | Some ctx => [CloseContext ctx]
     | None => []
     end
  ++ match audioStream m with
     | Some stream => map TrackStop (streamTracks stream)
     | None => []
     end.

(** The fields of the manager after a complete teardown: no capture
    handle, no timer handle, an empty queue, idle playback, no
    transcription text. *)
Definition tornDown (m : Manager) : Prop :=
  audioStream m = None /\ audioContext m = None /\ sourceNode m = None /\
  processorNode m = None /\ screenshotInterval m = None /\
  audioQueue m = [] /\ isPlayingAudio m = false /\
  currentInputText m = "" /\ currentOutputText m = "".

(** The manager after [cleanup]. *)
Definition cleaned (m : Manager) : Manager :=
  mkManager (xrDeviceCamera m) (ai m) None None None None (isAIRunning m)
    [] false None (currentInputText m) (currentOutputText m).

(** The platform after [cleanup]: the calls are made, the timer of the
    manager is cleared and the sources of its context are silent. *)
Definition cleanedWorld (m : Manager) (w : World) : World :=
  mkWorld (trace w ++ cleanupActions m) (microtasks w) (fresh w)
    match screenshotInterval m with
    | Some timer => filter (fun t => t <> timer) (timers w)
    | None => timers w
    end
    match audioContext m with
    | Some ctx => filter (fun p => ctxId (fst p) <> ctxId ctx) (playing w)
    | None => playing w
    end
    (callbacksSet w).

(** The platform calls of [cleanup] that can throw, in the order in
    which they are made; [audioContext.close()] returns a promise that
    nobody awaits. *)
Definition cleanupCalls (m : Manager) : list Action :=
  match screenshotInterval m with
  | Some timer => [ClearInterval timer]
  | None => []
  end
  ++ match processorNode m with
     | Some node => [DisconnectProcessor node]
     | None => []
     end
  ++ match sourceNode m with
     | Some node => [DisconnectSource node]
     | None => []
     end
  ++ match audioStream m with
     | Some stream => map TrackStop (streamTracks stream)
     | None => []
     end.

(** The steps of [stopGeminiLive] that can throw: [stopLiveSession], if
    the transport offers it, and the calls of [cleanup]. *)
Definition stopCalls (m : Manager) : list Action :=
  match ai m with
  | Some a => if hasStopLiveSession a then [StopLiveSession] else []
  | None => []
  end
  ++ cleanupCalls m.

(** ** States and platforms used in the examples *)

Definition exampleAI : AI := mkAI true true.

Definition exampleEnv : Env :=
  benign [7] (SnapString "data:image/jpeg;base64,QUJD").

(** A manager after [init]. *)
Definition ready : St :=
  Eval vm_compute in snd (init (Some 0) (Some exampleAI) initial).

(** A manager after a successful [startGeminiLive]. *)
Definition running : St :=
  Eval vm_compute in snd (job exampleEnv (startGeminiLive exampleEnv) ready).

(** A platform on which [getSnapshot] throws. *)
Definition snapshotFails : Env :=
  mkEnv (fun a => match a with GetSnapshot => true | _ => false end)
    [7] LiveOpened SnapOther.

(** A platform on which [stopLiveSession] rejects. *)
Definition stopFails : Env :=
  mkEnv (fun a => match a with StopLiveSession => true | _ => false end)
    [7] LiveOpened SnapOther.

(** A message with two samples of audio and the turn-complete marker. *)
Definition exampleMessage : LiveServerMessage :=
  mkMessage (Some "AAD/fw==") (Some (mkServerContent None None (Some true))).

(** ** Session start and rollback *)

(** The platform calls that [cleanup] can throw from. *)
Definition isCleanupCall (a : Action) : bool :=
  match a with
  | ClearInterval _ | DisconnectProcessor _ | DisconnectSource _
  | TrackStop _ => true
  | _ => false
  end.

(** The release calls of the platform succeed. *)
Definition cleanupSucceeds (env : Env) : Prop :=
  forall a, isCleanupCall a = true -> fails env a = false.

(** The [try] block of [startGeminiLive], lines 52-55, and its [catch]
    block, lines 57-59. *)
Definition startBody (env : Env) : M unit :=
  setupAudioCapture env ;;
  startLiveAI env ;;
  startScreenshotCapture 1000 ;;
  modifyMgr (set_isAIRunning true).

Definition startHandler (env : Env) (error : JsError) : M unit :=
  note (ConsoleError "Failed to start Gemini Live:") ;;
  cleanup env ;;
  throw error.

(** The capture pipeline that [setupAudioCapture] builds on a platform
    where no call fails, from the next free object identity [n]. *)
Definition captureStream (env : Env) (n : nat) : MediaStream :=
  mkMediaStream n (userMediaTracks env).
Definition captureContext (n : nat) : AudioContext :=
  mkAudioContext (S n) 16000.
Definition captureActions (env : Env) (n : nat) : list Action :=
  [GetUserMedia;
   NewAudioContext (captureContext n);
   AddModule (captureContext n);
   CreateMediaStreamSource (captureContext n) (captureStream env n);
   NewAudioWorkletNode (captureContext n);
   ConnectSource (S (S n)) (S (S (S n)));
   ConnectProcessor (S (S (S n))) (captureContext n)].

(** The state after [setupAudioCapture]. *)
Definition afterSetup (env : Env) (st : St) : St :=
  let m := mgr st in
  let w := world st in
  let n := fresh w in
  mkSt
    (mkManager (xrDeviceCamera m) (ai m) (Some (captureStream env n))
       (Some (captureContext n)) (Some (S (S n))) (Some (S (S (S n))))
       (isAIRunning m) (audioQueue m) (isPlayingAudio m)
       (screenshotInterval m) (currentInputText m) (currentOutputText m))
    (mkWorld (trace w ++ captureActions env n)
       (microtasks w) (4 + n) (timers w) (playing w) (callbacksSet w)).

(** The state after [setupAudioCapture] and an opened live session. *)
Definition afterOpen (env : Env) (st : St) : St :=
  let m := mgr st in
  let w := world st in
  let n := fresh w in
  mkSt
    (mkManager (xrDeviceCamera m) (ai m) (Some (captureStream env n))
       (Some (captureContext n)) (Some (S (S n))) (Some (S (S (S n))))
       (isAIRunning m) (audioQueue m) (isPlayingAudio m)
       (screenshotInterval m) (currentInputText m) (currentOutputText m))
    (mkWorld
       (trace w ++ captureActions env n ++ [SetLiveCallbacks; StartLiveSession])
       (microtasks w) (4 + n) (timers w) (playing w) true).

(** The state after a successful [startGeminiLive]: the state after
    the session has opened, with the frame timer set (or the timer that
    was set already, kept with an error on the console) and
    [isAIRunning] true. *)
Definition afterStart (env : Env) (st : St) : St :=
  let st1 := afterOpen env st in
  let m := mgr st1 in
  let w := world st1 in
  match screenshotInterval m with
  | None =>
      mkSt (set_isAIRunning true (set_screenshotInterval (Some (fresh w)) m))
        (set_timers (timers w ++ [fresh w])
           (logAction (SetInterval (fresh w) 1000) (bumpFresh w)))
  | Some _ =>
      mkSt (set_isAIRunning true m)
        (logAction (ConsoleError "Screenshot interval already running") w)
  end.

(** The handles that the manager holds on the platform. *)
Definition holdsNothing (m : Manager) : Prop :=
  audioStream m = None /\ audioContext m = None /\ sourceNode m = None /\
  processorNode m = None /\ screenshotInterval m = None.

(** The identities of the handles that the manager holds, and a
    manager whose handles are all older than the identity [n]: the
    platform hands out identities in increasing order, so the handles
    of a manager are older than the next free identity. *)
Definition heldIds (m : Manager) : list nat :=
  match audioStream m with Some stream => [streamId stream] | None => [] end
  ++ match audioContext m with Some ctx => [ctxId ctx] | None => [] end
  ++ match sourceNode m with Some node => [node] | None => [] end
  ++ match processorNode m with Some node => [node] | None => [] end
  ++ match screenshotInterval m with Some timer => [timer] | None => [] end.

Definition handlesBelow (n : nat) (m : Manager) : Prop :=
  Forall (fun id => id < n) (heldIds m).

(** The release calls in a trace: the contexts closed and the tracks
    stopped. *)
Definition contextsClosed (l : list Action) : list AudioContext :=
  omap (fun a => match a with
                 | CloseContext ctx => Some ctx
                 | _ => None
                 end) l.

Definition tracksStopped (l : list Action) : list nat :=
  omap (fun a => match a with
                 | TrackStop track => Some track
                 | _ => None
                 end) l.

(** The chunks pushed to the transport. *)
Definition inputsSent (l : list Action) : list RealtimeInput :=
  omap (fun a => match a with
                 | SendRealtimeInput input => Some input
                 | _ => None
                 end) l.

(** The events dispatched to the subscribers. *)
Definition eventsDispatched (l : list Action) : list GeminiEvent :=
  omap (fun a => match a with
                 | DispatchEvent event => Some event
                 | _ => None
                 end) l.

(** A platform on which the transport reports an error before it
    opens, and one on which it stays silent. *)
Definition transportErrors : Env :=
  mkEnv (fun _ => false) [7] LiveErrored SnapOther.

Definition transportSilent : Env :=
  mkEnv (fun _ => false) [7] LiveSilent SnapOther.

(** ** Messages without audio *)

(** The events that [handleAIMessage] dispatches for a message. *)
Definition dispatchedFor (message : LiveServerMessage) : list GeminiEvent :=
  match serverContent message with
  | Some content => dispatched content
  | None => []
  end.

(** The message carries no audio: [data] is absent or empty. *)
Definition noAudio (message : LiveServerMessage) : Prop :=
  data message = None \/ data message = Some "".

(** A platform on which the subscriber of [inputTranscription] throws. *)
Definition listenerThrows : Env :=
  mkEnv (fun a => match a with
                  | DispatchEvent (InputTranscription _) => true
                  | _ => false
                  end)
    [7] LiveOpened SnapOther.

(** The text that an event carries. *)
Definition eventText (event : GeminiEvent) : option string :=
  match event with
  | InputTranscription message | OutputTranscription message => Some message
  | TurnComplete => None
  end.

(** * ScreenshotSynthesizer *)

(** ** Typed arrays and loops *)

(** [a.subarray(begin, end)] on a [Uint8Array], for indices that are not
    negative: the elements from [begin] up to [end], both clamped to the
    length of [a]. *)
Definition subarray (a : list byte) (begin end_ : nat) : list byte :=
  take (end_ - begin) (drop begin a).

(** [target.set(source, offset)] on a [Uint8Array]: a RangeError when
    [source] does not fit behind [offset]; otherwise the elements of
    [source] replace those of [target] from [offset] on. *)
Definition typedArraySet (target source : list byte) (offset : nat)
  : result (list byte) :=
  if length target <? length source + offset then Throw RangeError
  else Ok (take offset target ++ source
             ++ drop (offset + length source) target).

(** [for (let i = start; cond; i++) body] over a state [s].  The loop
    ends when [cond] is false or [body] throws; [Pending] when [fuel]
    iterations were not enough. *)
Fixpoint forLoop {T : Type} (fuel : nat) (cond : nat -> T -> bool)
    (body : nat -> T -> result T) (i : nat) (s : T) : result T :=
  match fuel with
  | 0 => Pending
  | S fuel =>
      if cond i s
      then bindR (body i s) (forLoop fuel cond body (S i))
      else Ok s
  end.

(** ** [flipBufferVertically], lines 6-21 *)

(** The body of the loop, lines 11-19, on the contents of [buffer] and
    [tempRow].  [width] and [height] are the sizes of a render target:
    integers that are not negative. *)
Definition flipRow (width height : nat) (y : nat)
    (s : list byte * list byte) : result (list byte * list byte) :=
  let '(buffer, tempRow) := s in
  let bytesPerRow := width * 4 in
  let topRowY := y in
  let bottomRowY := height - 1 - y in
  let topRowOffset := topRowY * bytesPerRow in
  let bottomRowOffset := bottomRowY * bytesPerRow in
  bindR (typedArraySet tempRow
           (subarray buffer topRowOffset (topRowOffset + bytesPerRow)) 0)
    (fun tempRow =>
  bindR (typedArraySet buffer
           (subarray buffer bottomRowOffset (bottomRowOffset + bytesPerRow))
           topRowOffset)
    (fun buffer =>
  bindR (typedArraySet buffer tempRow bottomRowOffset) (fun buffer =>
  Ok (buffer, tempRow)))).

(** The contents of [buffer] after the call.  [y < height / 2] is a
    comparison of real numbers: [2 * y < height].  The loop runs fewer
    than [height + 1] times. *)
Definition flipBufferVertically (buffer : list byte) (width height : nat)
  : result (list byte) :=
  let bytesPerRow := width * 4 in
  let tempRow := replicate bytesPerRow x00 in
  bindR (forLoop (S height) (fun y _ => 2 * y <? height)
           (flipRow width height) 0 (buffer, tempRow))
    (fun s => Ok (fst s)).

(** The row [y] of an image with [bytesPerRow] bytes in a row. *)
Definition rowOf (bytesPerRow : nat) (buffer : list byte) (y : nat)
  : list byte :=
  take bytesPerRow (drop (y * bytesPerRow) buffer).

(** ** Pending requests *)

(** A [PendingScreenshotRequest], lines 23-27.  [promise] names the
    promise that its [resolve] and [reject] settle. *)
Record PendingScreenshotRequest : Type := mkRequest {
  promise : nat;
  overlayOnCamera : bool;
}.

(** A call of [request.resolve(value)]. *)
Record Resolution : Type := mkResolution {
  resolvedPromise : nat;
  resolvedValue : string;
}.

(** The variables of the loops of lines 97-106 and 155-164: the array
    [pendingScreenshotRequests], [remainingRequests], and the calls of
    [resolve] made so far. *)
Record Compaction : Type := mkCompaction {
  requests : list PendingScreenshotRequest;
  remainingRequests : nat;
  resolutions : list Resolution;
}.

(** The body of the two loops, which differ in the test only:
    [resolves request] is [!request.overlayOnCamera] on line 100 and
    [request.overlayOnCamera] on line 158.  The index written,
    [remainingRequests], is never beyond the index read. *)
Definition resolveBody (resolves : PendingScreenshotRequest -> bool)
    (imageDataUrl : string) (i : nat) (s : Compaction) : result Compaction :=
  match requests s !! i with
  | Some request =>
      if resolves request
      then Ok (mkCompaction (requests s) (remainingRequests s)
                 (resolutions s
                    ++ [mkResolution (promise request) imageDataUrl]))
      else Ok (mkCompaction (<[remainingRequests s := request]> (requests s))
                 (S (remainingRequests s)) (resolutions s))
  | None => Throw TypeError
  end.

(** The loop and the assignment to [length] that follows it: the array
    that is left and the calls of [resolve] made. *)
Definition resolveRequests (resolves : PendingScreenshotRequest -> bool)
    (imageDataUrl : string) (pending : list PendingScreenshotRequest)
  : result (list PendingScreenshotRequest * list Resolution) :=
  bindR (forLoop (S (length pending))
           (fun i s => i <? length (requests s))
           (resolveBody resolves imageDataUrl) 0
           (mkCompaction pending 0 []))
    (fun s => Ok (take (remainingRequests s) (requests s), resolutions s)).

(** [resolveVirtualOnlyRequests], lines 96-107. *)
Definition resolveVirtualOnlyRequests (virtualImageDataUrl : string)
  := resolveRequests (fun request => negb (overlayOnCamera request))
       virtualImageDataUrl.

(** [resolveVirtualRealRequests], lines 154-165. *)
Definition resolveVirtualRealRequests (virtualRealImageDataUrl : string)
  := resolveRequests (fun request => overlayOnCamera request)
       virtualRealImageDataUrl.

(** ** Frames *)

Inductive ScreenshotError : Type :=
| ExpectingRenderTarget   (* Error('Expecting render target') *)
| NoDeviceCamera.         (* Error('No device camera provided') *)

(** The two image pipelines: [createVirtualImageDataURL] and
    [createVirtualRealImageDataURL]. *)
Inductive Pipeline : Type :=
| VirtualOnly
| VirtualReal.

(** What the platform provides in a frame: whether the renderer has a
    render target, the device camera (if one is passed) with its
    [loaded] flag, and the data URLs that the canvases of the two
    pipelines give. *)
Record FrameEnv : Type := mkFrameEnv {
  hasRenderTarget : bool;
  deviceCamera : option bool;
  virtualImage : string;
  virtualRealImage : string;
}.

(** [onAfterRender], lines 38-68: the pipelines that it starts and the
    error that it throws, if any. *)
Definition onAfterRender (env : FrameEnv)
    (pending : list PendingScreenshotRequest)
  : list Pipeline * option ScreenshotError :=
  if length pending =? 0 then ([], None)
  else if negb (hasRenderTarget env) then ([], Some ExpectingRenderTarget)
  else
    let haveVirtualOnlyRequests :=
      forallb (fun request => negb (overlayOnCamera request)) pending in
    let started := if haveVirtualOnlyRequests then [VirtualOnly] else [] in
    let haveVirtualAndRealReqeusts :=
      existsb (fun request => overlayOnCamera request) pending in
    if haveVirtualAndRealReqeusts
       && match deviceCamera env with Some _ => true | None => false end
    then (started ++ [VirtualReal], None)
    else if haveVirtualAndRealReqeusts then (started, Some NoDeviceCamera)
    else (started, None).

(** The synthesizer: the requests that wait and, as a record of the
    promises settled, the calls of [resolve] made. *)
Record Synthesizer : Type := mkSynthesizer {
  pendingScreenshotRequests : list PendingScreenshotRequest;
  settled : list Resolution;
}.

(** [getScreenshot], lines 181-186, for a new promise. *)
Definition getScreenshot (newPromise : nat) (overlay : bool)
    (s : Synthesizer) : Synthesizer :=
  mkSynthesizer
    (pendingScreenshotRequests s ++ [mkRequest newPromise overlay])
    (settled s).

(** The [then] callback of a pipeline that completes, lines 51-53 and
    60-64.  [createVirtualRealImageDataURL] gives [null] while the
    device camera is not loaded, lines 111-114. *)
Definition complete (env : FrameEnv) (pipeline : Pipeline)
    (s : Synthesizer) : result Synthesizer :=
  match pipeline with
  | VirtualOnly =>
      bindR (resolveVirtualOnlyRequests (virtualImage env)
               (pendingScreenshotRequests s))
        (fun r => Ok (mkSynthesizer (fst r) (settled s ++ snd r)))
  | VirtualReal =>
      let virtualRealImageDataUrl :=
        match deviceCamera env with
        | Some true => Some (virtualRealImage env)
        | _ => None
        end in
      match virtualRealImageDataUrl with
      | Some url =>
          if String.eqb url "" then Ok s
          else
            bindR (resolveVirtualRealRequests url
                     (pendingScreenshotRequests s))
              (fun r => Ok (mkSynthesizer (fst r) (settled s ++ snd r)))
      | None => Ok s
      end
  end.

(** A frame whose pipelines complete before the next one: the
    synthesizer afterwards and the error thrown by [onAfterRender]. *)
Definition frame (env : FrameEnv) (s : Synthesizer)
  : result (Synthesizer * option ScreenshotError) :=
  let '(started, error) := onAfterRender env (pendingScreenshotRequests s) in
  bindR (fold_left (fun acc pipeline => bindR acc (complete env pipeline))
           started (Ok s))
    (fun s => Ok (s, error)).

(** Successive frames; the errors thrown, in order. *)
Fixpoint frames (envs : list FrameEnv) (s : Synthesizer)
  : result (Synthesizer * list ScreenshotError) :=
  match envs with
  | [] => Ok (s, [])
  | env :: envs =>
      bindR (frame env s) (fun r =>
      bindR (frames envs (fst r)) (fun r' =>
      Ok (fst r',
          match snd r with Some e => [e] | None => [] end ++ snd r')))
  end.

(** ** Further platforms used in the examples *)

(** A platform on which [processorNode.disconnect] throws. *)
Definition disconnectFails : Env :=
  mkEnv (fun a => match a with DisconnectProcessor _ => true | _ => false end)
    [7] LiveOpened SnapOther.

(** A transport without [sendRealtimeInput]. *)
Definition receiveOnlyAI : AI := mkAI true false.

(** A manager after [init] with that transport and a successful
    [startGeminiLive]. *)
Definition runningReceiveOnly : St :=
  Eval vm_compute in
    snd (job exampleEnv (startGeminiLive exampleEnv)
           (snd (init (Some 0) (Some receiveOnlyAI) initial))).

(** * Properties *)

(** ** Lists *)

Lemma filter_Forall_id {A} (P : A -> Prop) `{forall x, Decision (P x)}
    (l : list A) :
  Forall P l -> filter P l = l.
Proof.
  induction 1 as [|x l Hx _ IH]; [reflexivity|].
  rewrite filter_cons_True, IH by assumption. reflexivity.
Qed.

Lemma fold_left_pointwise {A B} (f g : A -> B -> A) (l : list B) (a : A) :
  (forall a b, f a b = g a b) -> fold_left f l a = fold_left g l a.
Proof.
  intros Hfg. revert a; induction l as [|b l IH]; intros a; simpl;
    [reflexivity|]. rewrite Hfg. apply IH.
Qed.

(** ** Base64 *)

Section Base64Facts.
Import Base64.

Local Ltac arith :=
  unfold padChar in *; Z.to_euclidean_division_equations; lia.

(** Induction over a list three elements at a time. *)
Lemma list_ind3 {A} (P : list A -> Prop) :
  P [] -> (forall a, P [a]) -> (forall a b, P [a; b]) ->
  (forall a b c r, P r -> P (a :: b :: c :: r)) ->
  forall l, P l.
Proof.
  intros H0 H1 H2 H3 l.
  cut (P l /\ (forall a, P (a :: l)) /\ (forall a b, P (a :: b :: l))).
  { tauto. }
  induction l as [|x l (IH0 & IH1 & IH2)]; auto.
Qed.

Lemma sextets_bounded l : Forall isOctet l -> Forall isSextet (sextets l).
Proof.
  unfold isOctet, isSextet.
  induction l using list_ind3; intros Hl; simpl;
    repeat match goal with
           | H : Forall _ (_ :: _) |- _ => apply Forall_cons in H as [? H]
           end;
    repeat (apply Forall_cons; split); auto; zify; arith.
Qed.

(** The alphabet characters lie between '+' and 'z' and none is '='. *)
Lemma encodeSextet_cases s :
  isSextet s ->
  let c := encodeSextet s in
  (s < 26 /\ c = s + 65 \/ 26 <= s < 52 /\ c = s + 71 \/
   52 <= s < 62 /\ c + 4 = s \/ s = 62 /\ c = 43 \/ s = 63 /\ c = 47)%N.
Proof.
  unfold isSextet, encodeSextet; intros Hs; simpl.
  destruct (N.ltb_spec s 26); [lia|].
  destruct (N.ltb_spec s 52); [lia|].
  destruct (N.ltb_spec s 62); [lia|].
  destruct (N.eqb_spec s 62); lia.
Qed.

Lemma decode_encodeSextet s :
  isSextet s -> decodeSextet (encodeSextet s) = Some s.
Proof.
  intros Hs. pose proof (encodeSextet_cases s Hs) as Hc. simpl in Hc.
  unfold decodeSextet.
  destruct (N.leb_spec 65 (encodeSextet s)), (N.leb_spec (encodeSextet s) 90),
    (N.leb_spec 97 (encodeSextet s)), (N.leb_spec (encodeSextet s) 122),
    (N.leb_spec 48 (encodeSextet s)), (N.leb_spec (encodeSextet s) 57),
    (N.eqb_spec (encodeSextet s) 43), (N.eqb_spec (encodeSextet s) 47);
    simpl; try (f_equal; lia); lia.
Qed.

Lemma encodeSextet_not_whitespace s :
  isSextet s -> isAsciiWhitespace (encodeSextet s) = false.
Proof.
  intros Hs. pose proof (encodeSextet_cases s Hs) as Hc. simpl in Hc.
  unfold isAsciiWhitespace.
  destruct (N.eqb_spec (encodeSextet s) 9), (N.eqb_spec (encodeSextet s) 10),
    (N.eqb_spec (encodeSextet s) 12), (N.eqb_spec (encodeSextet s) 13),
    (N.eqb_spec (encodeSextet s) 32); simpl; try reflexivity; lia.
Qed.

Lemma encodeSextet_not_pad s : isSextet s -> encodeSextet s <> padChar.
Proof.
  intros Hs. pose proof (encodeSextet_cases s Hs) as Hc. simpl in Hc.
  unfold padChar. lia.
Qed.

Lemma encodeSextet_octet s : isSextet s -> isOctet (encodeSextet s).
Proof.
  intros Hs. pose proof (encodeSextet_cases s Hs) as Hc. simpl in Hc.
  unfold isOctet, isSextet in *. lia.
Qed.

Lemma padding_cases l :
  padding l = [] \/ padding l = [padChar] \/ padding l = [padChar; padChar].
Proof. induction l using list_ind3; simpl; auto. Qed.

Local Arguments Nat.modulo : simpl never.

Lemma mod4_add4 n : (S (S (S (S n))) mod 4 = n mod 4)%nat.
Proof.
  change (S (S (S (S n)))) with (4 + n)%nat.
  rewrite Nat.add_comm. apply (Nat.Div0.mod_add n 1 4).
Qed.

Lemma encode_length l : (length (encode l) mod 4 = 0)%nat.
Proof.
  unfold encode. rewrite length_app, length_map.
  induction l using list_ind3; simpl; try reflexivity.
  rewrite mod4_add4. exact IHl.
Qed.

Lemma sextets_length l : (length (sextets l) mod 4 <> 1)%nat.
Proof.
  induction l using list_ind3; simpl; try discriminate.
  rewrite mod4_add4. exact IHl.
Qed.

Lemma stripPadding_cons c r :
  c <> padChar -> stripPadding (c :: r) = c :: stripPadding r.
Proof.
  intros Hc. apply N.eqb_neq in Hc.
  destruct r as [|c' [|c'' r]]; simpl; rewrite ?Hc; reflexivity.
Qed.

Lemma stripPadding_app body pad :
  Forall (fun c => c <> padChar) body ->
  pad = [] \/ pad = [padChar] \/ pad = [padChar; padChar] ->
  stripPadding (body ++ pad) = body.
Proof.
  intros Hbody Hpad. induction Hbody as [|c body Hc _ IH].
  - destruct Hpad as [-> | [-> | ->]]; reflexivity.
  - rewrite <- app_comm_cons, stripPadding_cons, IH by assumption.
    reflexivity.
Qed.

Lemma octets_sextets l : Forall isOctet l -> octets (sextets l) = l.
Proof.
  unfold isOctet.
  induction l using list_ind3; intros Hl; simpl;
    repeat match goal with
           | H : Forall _ (_ :: _) |- _ => apply Forall_cons in H as [? H]
           end;
    try reflexivity.
  - f_equal. zify; arith.
  - f_equal; [|f_equal]; zify; arith.
  - rewrite IHl by assumption.
    f_equal; [|f_equal; [|f_equal]]; zify; arith.
Qed.

Lemma encode_octets l : Forall isOctet l -> Forall isOctet (encode l).
Proof.
  intros Hl. unfold encode. apply Forall_app. split.
  - apply Forall_fmap.
    eapply Forall_impl; [apply sextets_bounded, Hl|].
    intros s Hs. apply encodeSextet_octet, Hs.
  - destruct (padding_cases l) as [-> | [-> | ->]];
      repeat constructor.
Qed.

(** [atob] undoes [btoa], on code units. *)
Lemma decode_encode l : Forall isOctet l -> decode (encode l) = Some l.
Proof.
  intros Hl. pose proof (sextets_bounded l Hl) as Hs.
  unfold decode.
  assert (Hws : filter (fun c => isAsciiWhitespace c = false) (encode l)
                = encode l).
  { apply filter_Forall_id. unfold encode. apply Forall_app. split.
    - apply Forall_fmap. eapply Forall_impl; [exact Hs|].
      intros s Hs'. apply encodeSextet_not_whitespace, Hs'.
    - destruct (padding_cases l) as [-> | [-> | ->]];
        repeat constructor. }
  rewrite Hws, encode_length. simpl.
  unfold encode at 1 2. rewrite stripPadding_app.
  - rewrite length_map.
    destruct (Nat.eqb_spec (length (sextets l) mod 4) 1) as [E|_].
    + destruct (sextets_length l E).
    + rewrite mapM_fmap_Forall_Some.
      * simpl. rewrite octets_sextets; auto.
      * eapply Forall_impl; [exact Hs|].
        intros s Hs'. apply decode_encodeSextet, Hs'.
  - apply Forall_fmap. eapply Forall_impl; [exact Hs|].
    intros s Hs'. apply encodeSextet_not_pad, Hs'.
  - apply padding_cases.
Qed.

End Base64Facts.

(** ** Strings, code units and the loops over typed arrays *)

Lemma codeUnits_octets s : Forall isOctet (codeUnits s).
Proof.
  unfold codeUnits. apply Forall_fmap, Forall_forall.
  intros c _. apply N_ascii_bounded.
Qed.

Lemma ofCodeUnits_codeUnits s : ofCodeUnits (codeUnits s) = s.
Proof.
  unfold ofCodeUnits, codeUnits.
  rewrite <- (string_of_list_ascii_of_string s) at 2. f_equal.
  induction (list_ascii_of_string s) as [|c l IH]; simpl; [reflexivity|].
  rewrite ascii_N_embedding. f_equal. exact IH.
Qed.

Lemma codeUnits_ofCodeUnits l :
  Forall isOctet l -> codeUnits (ofCodeUnits l) = l.
Proof.
  unfold ofCodeUnits, codeUnits. rewrite list_ascii_of_string_of_list_ascii.
  induction 1 as [|n l Hn _ IH]; simpl; [reflexivity|].
  rewrite N_ascii_embedding by exact Hn. f_equal. exact IH.
Qed.

(** [atob(btoa(s)) = s]. *)
Lemma atob_btoa s : bindR (btoa s) atob = Ok s.
Proof.
  unfold btoa, atob; simpl.
  rewrite codeUnits_ofCodeUnits
    by apply encode_octets, codeUnits_octets.
  rewrite decode_encode by apply codeUnits_octets.
  rewrite ofCodeUnits_codeUnits. reflexivity.
Qed.

(** A loop [for (i = 0; i < src.length; i++) dst[i] = g(src[i])] over a
    destination as long as the source computes [map g src]. *)
Lemma fill_loop {A B} (g : A -> B) (src : list A) (dst : list B) :
  length dst = length src ->
  fold_left
    (fun (dst : list B) i =>
       match src !! i with
       | Some x => <[i := g x]> dst
       | None => dst
       end)
    (seq 0 (length src)) dst
  = map g src.
Proof.
  intros Hlen.
  assert (Hk : forall k, k <= length src ->
    fold_left
      (fun (dst : list B) i =>
         match src !! i with
         | Some x => <[i := g x]> dst
         | None => dst
         end)
      (seq 0 k) dst
    = take k (map g src) ++ drop k dst).
  { induction k as [|k IH]; intros Hle.
    - simpl. rewrite drop_0. reflexivity.
    - rewrite seq_S, fold_left_app; simpl. rewrite IH by lia.
      destruct (lookup_lt_is_Some_2 src k) as [x Hx]; [lia|].
      rewrite Hx.
      rewrite insert_app_r_alt by (rewrite length_take, length_map; lia).
      rewrite length_take, length_map, Nat.min_l, Nat.sub_diag by lia.
      destruct (lookup_lt_is_Some_2 dst k) as [y Hy]; [lia|].
      rewrite (drop_S _ _ _ Hy); simpl.
      rewrite (take_S_r _ _ (g x)), <- app_assoc; [reflexivity|].
      rewrite list_lookup_fmap, Hx. reflexivity. }
  rewrite Hk by lia.
  rewrite take_ge, drop_ge, app_nil_r by (rewrite ?length_map; lia).
  reflexivity.
Qed.

Lemma string_get_lookup s i : String.get i s = list_ascii_of_string s !! i.
Proof.
  revert i; induction s as [|c s IH]; intros [|i]; simpl; auto.
Qed.

Lemma string_length_list s :
  String.length s = length (list_ascii_of_string s).
Proof. induction s as [|c s IH]; simpl; auto. Qed.

Lemma toUint8_fromCharCode b : toUint8 (charCodeAt (fromCharCode b)) = b.
Proof.
  unfold toUint8, charCodeAt, fromCharCode.
  pose proof (Byte.to_N_bounded b) as Hb.
  rewrite N_ascii_embedding by lia.
  rewrite N.mod_small by lia.
  rewrite Byte.of_to_N. reflexivity.
Qed.

Lemma string_app_empty_r (s : string) : s +:+ "" = s.
Proof.
  induction s as [|c s IH]; [reflexivity|].
  change (String c (s +:+ "") = String c s). f_equal. exact IH.
Qed.

Lemma string_app_assoc (s1 s2 s3 : string) :
  (s1 +:+ s2) +:+ s3 = s1 +:+ (s2 +:+ s3).
Proof.
  induction s1 as [|c s IH]; [reflexivity|].
  change (String c ((s +:+ s2) +:+ s3) = String c (s +:+ (s2 +:+ s3))).
  f_equal. exact IH.
Qed.

(** The loop of [arrayBufferToBase64] builds the binary string of the
    bytes. *)
Lemma binary_loop (bytes : list byte) (binary : string) :
  fold_left (fun binary b => binary +:+ String (fromCharCode b) "")
    bytes binary
  = binary +:+ string_of_list_ascii (map fromCharCode bytes).
Proof.
  revert binary; induction bytes as [|b bytes IH]; intros binary; simpl.
  - rewrite string_app_empty_r. reflexivity.
  - rewrite IH, string_app_assoc. reflexivity.
Qed.

Lemma arrayBufferToBase64_btoa buffer :
  arrayBufferToBase64 buffer
  = btoa (string_of_list_ascii (map fromCharCode buffer)).
Proof. unfold arrayBufferToBase64. rewrite binary_loop. reflexivity. Qed.

(** The loop of [base64ToArrayBuffer] stores the code unit of every
    character of the decoded string. *)
Lemma base64ToArrayBuffer_atob base64 :
  base64ToArrayBuffer base64
  = bindR (atob base64) (fun binaryString =>
      Ok (map (fun c => toUint8 (charCodeAt c))
            (list_ascii_of_string binaryString))).
Proof.
  unfold base64ToArrayBuffer. destruct (atob base64) as [s| |]; simpl; auto.
  f_equal. rewrite string_length_list.
  rewrite <- (fill_loop (fun c => toUint8 (charCodeAt c))
                (list_ascii_of_string s)
                (replicate (length (list_ascii_of_string s)) x00))
    by apply length_replicate.
  apply fold_left_pointwise. intros bytes i. rewrite string_get_lookup.
  reflexivity.
Qed.

(** ** PCM samples *)

Lemma list_ind2 {A} (P : list A -> Prop) :
  P [] -> (forall a, P [a]) -> (forall a b r, P r -> P (a :: b :: r)) ->
  forall l, P l.
Proof.
  intros H0 H1 H2 l.
  cut (P l /\ (forall a, P (a :: l))); [tauto|].
  induction l as [|x l (IH0 & IH1)]; auto.
Qed.

Lemma int16Elements_length buffer :
  length (int16Elements buffer) = length buffer / 2.
Proof.
  induction buffer as [| |lo hi r IH] using list_ind2; try reflexivity.
  change (length (lo :: hi :: r)) with (1 * 2 + length r).
  rewrite Nat.div_add_l by discriminate.
  simpl. rewrite IH. reflexivity.
Qed.

Lemma normalize_inUnitRange sample :
  (-32768 <= sample < 32768)%Z -> inUnitRange (normalize sample).
Proof.
  intros Hs. unfold inUnitRange, normalize, Qle, Qlt; simpl. lia.
Qed.

Lemma toInt16_range u :
  (0 <= u < 65536)%Z -> (-32768 <= toInt16 u < 32768)%Z.
Proof.
  intros Hu. unfold toInt16. destruct (Z.ltb_spec u 32768); lia.
Qed.

Lemma int16Elements_range buffer :
  Forall (fun sample => (-32768 <= sample < 32768)%Z) (int16Elements buffer).
Proof.
  induction buffer as [| |lo hi r IH] using list_ind2; simpl;
    try constructor; [|exact IH].
  apply toInt16_range.
  pose proof (Byte.to_N_bounded lo). pose proof (Byte.to_N_bounded hi).
  lia.
Qed.

(** A buffer of two bytes or more has a 16-bit element. *)
Lemma half_length_positive (arrayBuffer : ArrayBuffer) :
  2 <= length arrayBuffer -> (length arrayBuffer / 2 =? 0) = false.
Proof.
  intros Hlen. destruct arrayBuffer as [|lo [|hi r]];
    cbn [length] in Hlen; try lia.
  change (length (lo :: hi :: r)) with (1 * 2 + length r).
  rewrite Nat.div_add_l by discriminate. reflexivity.
Qed.

(** On a buffer of even length, two bytes or more, the
    decode-and-normalize step yields the normalised 16-bit elements of
    the buffer. *)
Lemma decodePcm_even audioData arrayBuffer :
  base64ToArrayBuffer audioData = Ok arrayBuffer ->
  Nat.even (length arrayBuffer) = true ->
  2 <= length arrayBuffer ->
  decodePcm audioData = Ok (map normalize (int16Elements arrayBuffer)).
Proof.
  intros Hdec Heven Hlen. unfold decodePcm, createBuffer, newInt16Array.
  rewrite Hdec; cbn [bindR]. rewrite half_length_positive by assumption.
  cbn [bindR channelData]. rewrite Heven; cbn [bindR]. f_equal.
  apply fill_loop.
  rewrite length_replicate, int16Elements_length. reflexivity.
Qed.

(** The same for the segment that [playAudioChunk] enqueues. *)
Lemma decodeSegment_even audioData arrayBuffer :
  base64ToArrayBuffer audioData = Ok arrayBuffer ->
  Nat.even (length arrayBuffer) = true ->
  2 <= length arrayBuffer ->
  decodeSegment audioData
  = Ok (mkAudioBuffer 1 24000 (map normalize (int16Elements arrayBuffer))).
Proof.
  intros Hdec Heven Hlen. unfold decodeSegment, createBuffer, newInt16Array.
  rewrite Hdec; cbn [bindR]. rewrite half_length_positive by assumption.
  cbn [bindR numberOfChannels sampleRate channelData].
  rewrite Heven; cbn [bindR]. do 2 f_equal.
  apply fill_loop.
  rewrite length_replicate, int16Elements_length. reflexivity.
Qed.

(** C4, as the code has it. For every base64 payload that decodes to a
    buffer of even byte length n of two bytes or more, the
    decode-and-normalize step of [playAudioChunk], lines 202-210
    ([base64ToArrayBuffer], [createBuffer], the [Int16Array] view, the
    division of every sample by 32768), produces exactly n/2 samples:
    the little-endian 16-bit integers of the buffer, each divided by
    32768, every one in the half-open interval [-1.0, 1.0); they are the
    channel data of the one-channel segment at 24000 Hz that
    [playAudioChunk] enqueues. *)
Theorem decodePcm_count_and_range audioData arrayBuffer :
  base64ToArrayBuffer audioData = Ok arrayBuffer ->
  Nat.even (length arrayBuffer) = true ->
  2 <= length arrayBuffer ->
  exists samples,
    decodePcm audioData = Ok samples /\
    length samples = length arrayBuffer / 2 /\
    Forall inUnitRange samples /\
    samples = map normalize (int16Elements arrayBuffer) /\
    decodeSegment audioData = Ok (mkAudioBuffer 1 24000 samples).
Proof.
  intros Hdec Heven Hlen. exists (map normalize (int16Elements arrayBuffer)).
  split; [apply decodePcm_even; assumption|]. split; [|split; [|split]].
  - rewrite length_map. apply int16Elements_length.
  - apply Forall_fmap. eapply Forall_impl; [apply int16Elements_range|].
    intros sample Hs. apply normalize_inUnitRange, Hs.
  - reflexivity.
  - apply decodeSegment_even; assumption.
Qed.

(** The payload "AAD/fwCA//8=" holds the samples 0, 32767, -32768, -1. *)
Lemma decodePcm_count_and_range_witness :
  exists samples,
    decodePcm "AAD/fwCA//8=" = Ok samples /\
    length samples = 4 /\
    Forall inUnitRange samples.
Proof.
  destruct (decodePcm_count_and_range "AAD/fwCA//8="
              [x00; x00; xff; x7f; x00; x80; xff; xff])
    as (samples & Hdec & Hlen & Hrange & _);
    [reflexivity|reflexivity|cbn; lia|].
  exists samples. split; [exact Hdec|]. split; [exact Hlen|exact Hrange].
Defined.

(** C4 as stated fails for n = 0: a payload of white space decodes to
    the empty buffer, whose length is even, and [createBuffer] rejects
    the length 0 with a NotSupportedError before the view is taken and
    the loop runs: no sample is produced, [playAudioChunk] writes the
    error to the console and enqueues nothing. *)
Lemma decodePcm_empty_buffer_throws :
  let st := snd (job exampleEnv (playAudioChunk exampleEnv " ") running) in
  base64ToArrayBuffer " " = Ok [] /\
  Nat.even (length ([] : ArrayBuffer)) = true /\
  decodePcm " " = Throw NotSupportedError /\
  decodeSegment " " = Throw NotSupportedError /\
  audioQueue (mgr st) = [] /\
  playing (world st) = [] /\
  trace (world st)
  = trace (world running)
    ++ [CreateBuffer (mkAudioContext 2 16000) 0 24000;
        ConsoleError "Error playing audio chunk:"].
Proof. cbv zeta. repeat split; reflexivity. Qed.

(** Encoding a buffer succeeds and decoding the result gives the buffer
    back. *)
Lemma arrayBufferToBase64_decodes (buffer : ArrayBuffer) :
  exists base64,
    arrayBufferToBase64 buffer = Ok base64 /\
    base64ToArrayBuffer base64 = Ok buffer.
Proof.
  rewrite arrayBufferToBase64_btoa.
  pose proof (atob_btoa (string_of_list_ascii (map fromCharCode buffer)))
    as Hrt.
  unfold btoa in *; cbn [bindR] in Hrt.
  eexists. split; [reflexivity|].
  rewrite base64ToArrayBuffer_atob, Hrt; cbn [bindR].
  rewrite list_ascii_of_string_of_list_ascii, map_map. f_equal.
  clear Hrt. induction buffer as [|b buffer IH]; simpl; [reflexivity|].
  rewrite toUint8_fromCharCode, IH. reflexivity.
Qed.

(** C10. For every byte buffer, [base64ToArrayBuffer] applied to the
    result of [arrayBufferToBase64] returns a buffer with the same
    length and the same bytes: the two helpers form an exact round
    trip. *)
Theorem base64_helpers_round_trip (buffer : ArrayBuffer) :
  exists base64 decoded,
    arrayBufferToBase64 buffer = Ok base64 /\
    base64ToArrayBuffer base64 = Ok decoded /\
    length decoded = length buffer /\
    decoded = buffer.
Proof.
  destruct (arrayBufferToBase64_decodes buffer) as (base64 & Henc & Hdec).
  exists base64, buffer. auto.
Qed.

(** ** Running the methods *)

(** Unfolds the methods and the monad down to the state they build. *)
Ltac exec :=
  cbv beta iota zeta delta
    [mbind M_bind bindM mret M_ret retM throw liftR tryCatch getMgr
     modifyMgr modifyWorld when whenText nonNull freshId note call
     newAudioContext getUserMedia createMediaStreamSource newAudioWorkletNode
     setInterval clearInterval closeContext startSource getSnapshot
     init cleanup sendAudioData sendVideoFrame captureAndSendScreenshot
     startScreenshotCapture setupAudioCapture startLiveAI onclose
     initializeAudioContext playNextAudioBuffer resumePlayAudioChunk
     playAudioChunk dispatchEvent handleAIMessage onWorkletMessage
     startGeminiLive stopGeminiLive dispose runTask job step
     drainMicrotasks
     mgr world trace microtasks fresh timers playing callbacksSet
     xrDeviceCamera ai audioStream audioContext sourceNode processorNode
     isAIRunning audioQueue isPlayingAudio screenshotInterval
     currentInputText currentOutputText
     set_audioStream set_audioContext set_sourceNode set_processorNode
     set_isAIRunning set_audioQueue set_isPlayingAudio set_screenshotInterval
     set_currentInputText set_currentOutputText set_collaborators
     logAction logActions bumpFresh set_microtasks set_timers set_playing
     set_callbacksSet fst snd orb andb negb is_throw is_ok
     hasSendRealtimeInput hasStopLiveSession fold_left
     createBuffer newInt16Array numberOfChannels sampleRate channelData].

(** The same, keeping the methods folded. *)
Ltac exec_monad :=
  cbv beta iota zeta delta
    [mbind M_bind bindM mret M_ret retM throw liftR tryCatch getMgr
     modifyMgr modifyWorld when whenText nonNull freshId note call
     mgr world trace microtasks fresh timers playing callbacksSet
     xrDeviceCamera ai audioStream audioContext sourceNode processorNode
     isAIRunning audioQueue isPlayingAudio screenshotInterval
     currentInputText currentOutputText
     set_audioStream set_audioContext set_sourceNode set_processorNode
     set_isAIRunning set_audioQueue set_isPlayingAudio set_screenshotInterval
     set_currentInputText set_currentOutputText set_collaborators
     logAction logActions bumpFresh set_microtasks set_timers set_playing
     set_callbacksSet fst snd orb andb negb is_throw is_ok
     hasSendRealtimeInput hasStopLiveSession fold_left
     createBuffer newInt16Array numberOfChannels sampleRate channelData].

(** The same for one job of the event loop, keeping the rest of
    [playAudioChunk] and the other methods folded. *)
Ltac exec_job :=
  cbv beta iota zeta delta
    [mbind M_bind bindM mret M_ret retM throw liftR tryCatch getMgr
     modifyMgr modifyWorld when whenText nonNull freshId note call
     step job drainMicrotasks runTask playAudioChunk initializeAudioContext
     newAudioContext playbackJob dispatchEvent handleAIMessage
     mgr world trace microtasks fresh timers playing callbacksSet
     xrDeviceCamera ai audioStream audioContext sourceNode processorNode
     isAIRunning audioQueue isPlayingAudio screenshotInterval
     currentInputText currentOutputText
     data serverContent inputTranscription outputTranscription turnComplete
     text
     set_audioStream set_audioContext set_sourceNode set_processorNode
     set_isAIRunning set_audioQueue set_isPlayingAudio set_screenshotInterval
     set_currentInputText set_currentOutputText set_collaborators
     logAction logActions bumpFresh set_microtasks set_timers set_playing
     set_callbacksSet fst snd orb andb negb is_throw is_ok fold_left];
  cbn [app].

(** Names the fields of a state. *)
Ltac open_state st :=
  let m := fresh "m" in
  let w := fresh "w" in
  destruct st as [m w]; destruct m, w;
  cbn [mgr world trace microtasks fresh timers playing callbacksSet
       xrDeviceCamera ai audioStream audioContext sourceNode processorNode
       isAIRunning audioQueue isPlayingAudio screenshotInterval
       currentInputText currentOutputText] in *;
  subst.

(** A [try] whose [catch] does not throw does not throw. *)
Lemma tryCatch_no_throw {A} (body : M A) (handler : JsError -> M A) st :
  (forall e st, is_throw (fst (handler e st)) = false) ->
  is_throw (fst (tryCatch body handler st)) = false.
Proof.
  intros Hh. unfold tryCatch.
  destruct (body st) as [[a|e|] st']; simpl; auto.
Qed.

Lemma note_no_throw a st : is_throw (fst (note a st)) = false.
Proof. reflexivity. Qed.

(** C7. Calling [startGeminiLive] while [isAIRunning] is true returns
    normally after a warning: no field of the manager changes (audio
    stream, audio context, nodes, timer handle, queue, flags,
    transcription text), and on the platform nothing is acquired: the
    only effect is the warning on the console. *)
Theorem startGeminiLive_while_running env st :
  isAIRunning (mgr st) = true ->
  startGeminiLive env st
  = (Ok tt,
     mkSt (mgr st)
       (logAction (ConsoleWarn "AI already running or not available")
          (world st))).
Proof. intros Hrun. open_state st. exec. reflexivity. Qed.

(** C8. When the transport calls [onclose] on its own, the job ends
    normally, [isAIRunning] is false afterwards, no other field of the
    manager changes and the platform sees no call. *)
Theorem onclose_clears_running env st :
  callbacksSet (world st) = true ->
  microtasks (world st) = [] ->
  step env TransportClose st
  = Some (Ok tt, mkSt (set_isAIRunning false (mgr st)) (world st)) /\
  isAIRunning (set_isAIRunning false (mgr st)) = false.
Proof.
  intros Hcb Hmt. open_state st. exec. split; reflexivity.
Qed.

(** C6, as the code has it. While [isAIRunning] is false, and also
    while the manager has no transport or its transport has no
    [sendRealtimeInput], [sendAudioData] and [sendVideoFrame] throw
    their "AI not ready" error and leave the state as it is: nothing
    reaches the transport.  On a running session whose transport has
    [sendRealtimeInput], [sendAudioData] encodes the buffer in the call
    itself, with [arrayBufferToBase64], and pushes the encoding, which
    [base64ToArrayBuffer] decodes to the buffer again, as one chunk of
    type audio/pcm;rate=16000; [sendVideoFrame] pushes the value it is
    given, whatever it is, as one chunk of type image/jpeg and encodes
    nothing.  A failure of the transport call is written to the console
    and not thrown. *)
Theorem send_requires_open_session env st :
  (isAIRunning (mgr st) = false \/
   ai (mgr st) = None \/
   (exists a, ai (mgr st) = Some a /\ hasSendRealtimeInput a = false) ->
   (forall audioBuffer,
      sendAudioData env audioBuffer st = (Throw NotReadyAudio, st)) /\
   (forall base64Image,
      sendVideoFrame env base64Image st = (Throw NotReadyVideo, st))) /\
  (isAIRunning (mgr st) = true ->
   (exists a, ai (mgr st) = Some a /\ hasSendRealtimeInput a = true) ->
   (forall audioBuffer,
      exists base64Audio st',
        arrayBufferToBase64 audioBuffer = Ok base64Audio /\
        base64ToArrayBuffer base64Audio = Ok audioBuffer /\
        sendAudioData env audioBuffer st = (Ok tt, st') /\
        mgr st' = mgr st /\
        trace (world st')
        = trace (world st)
          ++ SendRealtimeInput (AudioInput base64Audio "audio/pcm;rate=16000")
          :: (if fails env
                   (SendRealtimeInput
                      (AudioInput base64Audio "audio/pcm;rate=16000"))
              then [ConsoleError "Failed to send audio:"] else [])) /\
   (forall base64Image,
      exists st',
        sendVideoFrame env base64Image st = (Ok tt, st') /\
        mgr st' = mgr st /\
        trace (world st')
        = trace (world st)
          ++ SendRealtimeInput (VideoInput base64Image "image/jpeg")
          :: (if fails env
                   (SendRealtimeInput (VideoInput base64Image "image/jpeg"))
              then [ConsoleError "Failed to send video frame:";
                    ConsoleError "Error stack:"]
              else []))).
Proof.
  split.
  - intros [Hrun | [Hai | (a & Hai & Hsend)]].
    + open_state st. split; intros; exec; reflexivity.
    + open_state st. destruct isAIRunning0; split; intros; reflexivity.
    + destruct a as [hasStop hasSend]. cbn in Hsend. subst hasSend.
      open_state st. destruct isAIRunning0; split; intros; reflexivity.
  - intros Hrun (a & Hai & Hsend). open_state st. destruct a; simpl in *.
    subst. split.
    + intros audioBuffer.
      destruct (arrayBufferToBase64_decodes audioBuffer)
        as (base64 & Henc & Hdec).
      exists base64. exec. rewrite Henc. exec.
      destruct (fails env _); eexists;
        (split; [reflexivity|]); (split; [exact Hdec|]);
        repeat split; rewrite <- ?app_assoc; reflexivity.
    + intros base64Image. exec.
      destruct (fails env _); eexists; repeat split;
        rewrite <- ?app_assoc; reflexivity.
Qed.

(** C6 as stated fails.  A session that was started with a transport
    without [sendRealtimeInput] is open ([isAIRunning] is true), and
    both senders throw their "AI not ready" error there and push
    nothing.  And on an open session [sendVideoFrame] does not encode:
    a string that is not base64 ([atob] rejects it) is pushed as it
    is. *)
Lemma send_on_open_session_not_ready_or_not_encoded :
  let st' := snd (sendVideoFrame exampleEnv (Some "<jpeg>") running) in
  isAIRunning (mgr runningReceiveOnly) = true /\
  sendAudioData exampleEnv [x00; x01] runningReceiveOnly
  = (Throw NotReadyAudio, runningReceiveOnly) /\
  sendVideoFrame exampleEnv (Some "QUJD") runningReceiveOnly
  = (Throw NotReadyVideo, runningReceiveOnly) /\
  isAIRunning (mgr running) = true /\
  atob "<jpeg>" = Throw InvalidCharacterError /\
  fst (sendVideoFrame exampleEnv (Some "<jpeg>") running) = Ok tt /\
  trace (world st')
  = trace (world running)
    ++ [SendRealtimeInput (VideoInput (Some "<jpeg>") "image/jpeg")].
Proof. cbv zeta. repeat split; reflexivity. Qed.

Lemma startGeminiLive_while_running_witness :
  startGeminiLive exampleEnv running
  = (Ok tt,
     mkSt (mgr running)
       (logAction (ConsoleWarn "AI already running or not available")
          (world running))).
Proof. apply startGeminiLive_while_running. reflexivity. Defined.

Lemma onclose_clears_running_witness :
  step exampleEnv TransportClose running
  = Some (Ok tt, mkSt (set_isAIRunning false (mgr running)) (world running)) /\
  isAIRunning (set_isAIRunning false (mgr running)) = false.
Proof. apply onclose_clears_running; reflexivity. Defined.

Lemma send_requires_open_session_witness :
  sendAudioData exampleEnv [x00; x01] ready = (Throw NotReadyAudio, ready) /\
  (exists base64Audio st',
     sendAudioData exampleEnv [x00; x01] running = (Ok tt, st') /\
     base64ToArrayBuffer base64Audio = Ok [x00; x01] /\
     trace (world st')
     = trace (world running)
       ++ [SendRealtimeInput
             (AudioInput base64Audio "audio/pcm;rate=16000")]) /\
  exists st',
    sendVideoFrame exampleEnv (Some "QUJD") running = (Ok tt, st') /\
    mgr st' = mgr running.
Proof.
  pose proof (send_requires_open_session exampleEnv ready) as [Hclosed _].
  pose proof (send_requires_open_session exampleEnv running) as [_ Hopen].
  split; [|split].
  - apply Hclosed. left. reflexivity.
  - destruct Hopen as [Haudio _].
    + reflexivity.
    + exists exampleAI. split; reflexivity.
    + destruct (Haudio [x00; x01])
        as (base64Audio & st' & _ & Hdec & Hsend & _ & Htrace).
      exists base64Audio, st'. split; [exact Hsend|].
      split; [exact Hdec|exact Htrace].
  - destruct Hopen as [_ Hvideo].
    + reflexivity.
    + exists exampleAI. split; reflexivity.
    + destruct (Hvideo (Some "QUJD")) as (st' & Hsend & Hmgr & _).
      exists st'. split; assumption.
Defined.

(** ** The frame sampler *)

Lemma split_commaFree s : commaFree s -> split "," s = [s].
Proof.
  unfold commaFree. induction s as [|c s IH]; simpl; intros Hs;
    [reflexivity|].
  apply Forall_cons in Hs as [Hc Hs].
  apply Ascii.eqb_neq in Hc. rewrite Hc, IH by assumption. reflexivity.
Qed.

Lemma split_comma a b :
  commaFree a -> split "," (a +:+ String "," b) = a :: split "," b.
Proof.
  unfold commaFree. induction a as [|c a IH]; intros Ha.
  - reflexivity.
  - simpl in Ha. apply Forall_cons in Ha as [Hc Ha].
    apply Ascii.eqb_neq in Hc.
    change (split "," (String c (a +:+ String "," b)) = String c a :: split "," b).
    simpl. rewrite Hc, IH by assumption. reflexivity.
Qed.

Lemma commaFree_app a b : commaFree a -> commaFree b -> commaFree (a +:+ b).
Proof.
  unfold commaFree. induction a as [|c a IH]; intros Ha Hb; [exact Hb|].
  simpl in Ha. apply Forall_cons in Ha as [Hc Ha].
  change (Forall (fun c => c <> ","%char)
            (c :: list_ascii_of_string (a +:+ b))).
  constructor; auto.
Qed.

Lemma startsWith_data rest : startsWith "data:" ("data:" +:+ rest) = true.
Proof. destruct rest; reflexivity. Qed.

(** A data URL loses everything up to its comma; any other string is
    forwarded as it is. *)
Lemma stripDataUrlPrefix_dataUrl meta payload :
  commaFree meta -> commaFree payload ->
  stripDataUrlPrefix ("data:" +:+ meta +:+ String "," payload) = Some payload.
Proof.
  intros Hm Hp. unfold stripDataUrlPrefix.
  rewrite startsWith_data. rewrite <- string_app_assoc.
  rewrite split_comma, split_commaFree; [reflexivity|exact Hp|].
  apply commaFree_app; [|exact Hm]. repeat constructor; discriminate.
Qed.

Lemma stripDataUrlPrefix_plain base64Image :
  startsWith "data:" base64Image = false ->
  stripDataUrlPrefix base64Image = Some base64Image.
Proof. intros H. unfold stripDataUrlPrefix. rewrite H. reflexivity. Qed.

(** C9. [captureAndSendScreenshot] never throws.  When [getSnapshot]
    throws on a tick, the tick ends normally after an error on the
    console, no field of the manager changes and the timer stays set; on
    the next tick on which the capture succeeds and the session is open,
    the frame is forwarded.  The frame forwarded is the captured string
    without its data-URL prefix: what follows the comma of
    "data:<meta>,<payload>", and the string itself when it does not
    start with "data:". *)
Theorem capture_failure_is_swallowed env st :
  is_throw (fst (captureAndSendScreenshot env st)) = false /\
  (fails env GetSnapshot = true ->
   is_Some (xrDeviceCamera (mgr st)) ->
   timers (world st) <> [] ->
   microtasks (world st) = [] ->
   let st1 :=
     mkSt (mgr st)
       (logActions
          [GetSnapshot; ConsoleError "Failed to capture screenshot:"]
          (world st)) in
   step env TimerTick st = Some (Ok tt, st1) /\
   timers (world st1) = timers (world st) /\
   forall env' base64Image a,
     noFail env' ->
     snapshot env' = SnapString base64Image ->
     isAIRunning (mgr st) = true ->
     ai (mgr st) = Some a ->
     hasSendRealtimeInput a = true ->
     step env' TimerTick st1
     = Some (Ok tt,
             mkSt (mgr st)
               (logActions
                  [GetSnapshot;
                   SendRealtimeInput
                     (VideoInput (stripDataUrlPrefix base64Image)
                        "image/jpeg")]
                  (world st1)))) /\
  (forall meta payload,
     commaFree meta -> commaFree payload ->
     stripDataUrlPrefix ("data:" +:+ meta +:+ String "," payload)
     = Some payload) /\
  (forall base64Image,
     startsWith "data:" base64Image = false ->
     stripDataUrlPrefix base64Image = Some base64Image).
Proof.
  split; [|split; [|split]].
  - apply tryCatch_no_throw. intros; apply note_no_throw.
  - intros Hfail [cam Hcam] Htimers Hmt. open_state st.
    destruct timers0 as [|timer timers0]; [contradiction|].
    split; [|split].
    + exec. rewrite Hfail. exec. rewrite <- app_assoc. reflexivity.
    + reflexivity.
    + intros env' base64Image a Hnf Hsnap Hrun Hai Hsend. subst.
      destruct a; simpl in Hsend; subst.
      exec. rewrite !Hnf, Hsnap. exec. rewrite !Hnf. exec.
      rewrite <- !app_assoc. reflexivity.
  - apply stripDataUrlPrefix_dataUrl.
  - apply stripDataUrlPrefix_plain.
Qed.

Lemma capture_failure_is_swallowed_witness :
  step snapshotFails TimerTick running
  = Some (Ok tt,
          mkSt (mgr running)
            (logActions
               [GetSnapshot; ConsoleError "Failed to capture screenshot:"]
               (world running))) /\
  step exampleEnv TimerTick
    (mkSt (mgr running)
       (logActions
          [GetSnapshot; ConsoleError "Failed to capture screenshot:"]
          (world running)))
  = Some (Ok tt,
          mkSt (mgr running)
            (logActions
               [GetSnapshot;
                SendRealtimeInput (VideoInput (Some "QUJD") "image/jpeg")]
               (logActions
                  [GetSnapshot; ConsoleError "Failed to capture screenshot:"]
                  (world running)))) /\
  stripDataUrlPrefix "data:image/jpeg;base64,QUJD" = Some "QUJD".
Proof.
  destruct (capture_failure_is_swallowed snapshotFails running)
    as (_ & Htick & Hstrip & _).
  destruct Htick as (Hfirst & _ & Hnext).
  - reflexivity.
  - exists 0. reflexivity.
  - discriminate.
  - reflexivity.
  - split; [exact Hfirst|]. split.
    + apply (Hnext exampleEnv "data:image/jpeg;base64,QUJD" exampleAI);
        try reflexivity.
      intros a. reflexivity.
    + apply (Hstrip "image/jpeg;base64" "QUJD");
        repeat constructor; discriminate.
Defined.

(** ** Teardown *)

Lemma forEach_call_noFail env (f : nat -> Action) (l : list nat) st :
  noFail env ->
  forEach l (fun x => call env (f x)) st
  = (Ok tt, mkSt (mgr st) (logActions (map f l) (world st))).
Proof.
  intros Hnf. revert st; induction l as [|x l IH]; intros st.
  - open_state st. exec. rewrite app_nil_r. reflexivity.
  - change (forEach (x :: l) (fun x => call env (f x)))
      with (call env (f x) ;; forEach l (fun x => call env (f x))).
    open_state st. exec. rewrite Hnf. exec. rewrite IH. exec.
    rewrite <- app_assoc. reflexivity.
Qed.

Lemma stopTracks_noFail env stream st :
  noFail env ->
  stopTracks env stream st
  = (Ok tt,
     mkSt (mgr st) (logActions (map TrackStop (streamTracks stream)) (world st))).
Proof. apply forEach_call_noFail. Qed.

Lemma cleanup_noFail env st :
  noFail env ->
  cleanup env st = (Ok tt, mkSt (cleaned (mgr st)) (cleanedWorld (mgr st) (world st))).
Proof.
  intros Hnf. open_state st. unfold cleaned, cleanedWorld, cleanupActions.
  destruct screenshotInterval0, processorNode0, sourceNode0, audioContext0,
    audioStream0;
    exec; rewrite ?Hnf; exec;
    rewrite ?stopTracks_noFail by assumption; exec;
    rewrite <- ?app_assoc; simpl; rewrite ?app_nil_r; reflexivity.
Qed.

(** A [forEach] of platform calls either makes them all or throws at
    the first one that fails. *)
Lemma forEach_call_cases env (f : nat -> Action) (l : list nat) st :
  ((forall x, x ∈ l -> fails env (f x) = false) /\
   forEach l (fun x => call env (f x)) st
   = (Ok tt, mkSt (mgr st) (logActions (map f l) (world st)))) \/
  (exists w,
     forEach l (fun x => call env (f x)) st
     = (Throw (ExternalFailure "platform"), mkSt (mgr st) w)).
Proof.
  revert st; induction l as [|x l IH]; intros st.
  - left. split; [intros x Hx; inversion Hx|].
    open_state st. exec. rewrite app_nil_r. reflexivity.
  - change (forEach (x :: l) (fun x => call env (f x)))
      with (call env (f x) ;; forEach l (fun x => call env (f x))).
    destruct (fails env (f x)) eqn:Hx.
    + right. open_state st. exec. rewrite Hx. exec. eexists. reflexivity.
    + open_state st. exec. rewrite Hx. exec.
      match goal with
      | |- context [forEach l ?body ?s] =>
          change (forEach l body s)
            with (forEach l (fun x => call env (f x)) s);
          destruct (IH s) as [[Hall Hok] | [w Hthrow]]
      end.
      * left. split.
        { intros y Hy. apply elem_of_cons in Hy as [-> | Hy]; auto. }
        rewrite Hok. exec. rewrite <- app_assoc. reflexivity.
      * right. exists w. rewrite Hthrow. reflexivity.
Qed.

Lemma stopTracks_cases env stream st :
  ((forall track,
      track ∈ streamTracks stream -> fails env (TrackStop track) = false) /\
   stopTracks env stream st
   = (Ok tt,
      mkSt (mgr st)
        (logActions (map TrackStop (streamTracks stream)) (world st)))) \/
  (exists w,
     stopTracks env stream st
     = (Throw (ExternalFailure "platform"), mkSt (mgr st) w)).
Proof. apply forEach_call_cases. Qed.

(** A release call that fails makes [cleanup] throw; [isAIRunning] is
    not touched. *)
Lemma cleanup_fails env st a :
  a ∈ cleanupCalls (mgr st) ->
  fails env a = true ->
  exists st',
    cleanup env st = (Throw (ExternalFailure "platform"), st') /\
    isAIRunning (mgr st') = isAIRunning (mgr st).
Proof.
  intros Hin Hfail. open_state st. unfold cleanupCalls in Hin.
  cbn [screenshotInterval processorNode sourceNode audioStream] in Hin.
  assert (Htracks : forall tracks,
            a ∈ map TrackStop tracks ->
            (forall track,
               track ∈ tracks -> fails env (TrackStop track) = false) ->
            False).
  { intros tracks Ha Hall.
    induction tracks as [|t tracks IHt]; cbn [map] in Ha; [inversion Ha|].
    apply elem_of_cons in Ha as [-> | Ha].
    - rewrite (Hall t) in Hfail by apply list_elem_of_here. discriminate.
    - apply IHt; [exact Ha|]. intros track Ht. apply Hall.
      apply elem_of_cons. right. exact Ht. }
  destruct screenshotInterval0 as [timer|], processorNode0 as [processor|],
    sourceNode0 as [source|], audioContext0 as [ctx|],
    audioStream0 as [stream|];
    cbn [app] in Hin;
    repeat (exec;
            match goal with
            | |- context [fails env ?c] => destruct (fails env c) eqn:?
            | |- context [stopTracks env ?s ?st] =>
                let Hall := fresh "Hall" in
                let Hok := fresh "Hok" in
                destruct (stopTracks_cases env s st)
                  as [[Hall Hok] | [? Hok]];
                rewrite Hok; clear Hok
            end);
    exec;
    try (eexists; split; reflexivity);
    exfalso;
    repeat match goal with
           | H : a ∈ _ :: _ |- _ => apply elem_of_cons in H as [-> | H]
           | H : a ∈ [] |- _ => inversion H
           | H : a ∈ map TrackStop _ |- _ => eapply Htracks; eassumption
           end;
    congruence.
Qed.

(** A step of [stopGeminiLive] that fails is written to the console:
    the call returns normally and the session still counts as
    running. *)
Lemma stopGeminiLive_logs_failure env st a :
  isAIRunning (mgr st) = true ->
  a ∈ stopCalls (mgr st) ->
  fails env a = true ->
  exists st',
    stopGeminiLive env st = (Ok tt, st') /\
    isAIRunning (mgr st') = true /\
    last (trace (world st'))
    = Some (ConsoleError "Failed to stop Gemini Live:").
Proof.
  intros Hrun Hin Hfail. unfold stopCalls in Hin.
  apply elem_of_app in Hin.
  assert (Hcaught : forall st1,
            mgr st1 = mgr st ->
            a ∈ cleanupCalls (mgr st) ->
            exists st',
              tryCatch
                (cleanup env ;;
                 modifyMgr (set_isAIRunning false) ;;
                 modifyMgr (set_currentInputText "") ;;
                 modifyMgr (set_currentOutputText ""))
                (fun error => note (ConsoleError "Failed to stop Gemini Live:"))
                st1 = (Ok tt, st') /\
              isAIRunning (mgr st') = true /\
              last (trace (world st'))
              = Some (ConsoleError "Failed to stop Gemini Live:")).
  { intros st1 Hmgr Ha. rewrite <- Hmgr in Ha.
    destruct (cleanup_fails env st1 a Ha Hfail) as (st' & Hc & Hr).
    exists (mkSt (mgr st')
              (logAction (ConsoleError "Failed to stop Gemini Live:")
                 (world st'))).
    split; [|split; [rewrite <- Hrun, <- Hmgr; exact Hr|apply last_snoc]].
    exec_monad. rewrite Hc. destruct st' as [m' w']. reflexivity. }
  open_state st. cbn [ai] in Hin.
  destruct ai0 as [[[|] hasSend]|]; cbn [hasStopLiveSession] in Hin.
  - destruct (fails env StopLiveSession) eqn:Hstop.
    + eexists. split; [exec; rewrite Hstop; exec; reflexivity|].
      split; [reflexivity|apply last_snoc].
    + destruct Hin as [Hin | Hin].
      { apply list_elem_of_singleton in Hin. congruence. }
      unfold stopGeminiLive. exec_monad. rewrite Hstop. exec_monad.
      apply Hcaught; [reflexivity|exact Hin].
  - destruct Hin as [Hin | Hin]; [inversion Hin|].
    unfold stopGeminiLive. exec_monad.
    apply Hcaught; [reflexivity|exact Hin].
  - destruct Hin as [Hin | Hin]; [inversion Hin|].
    unfold stopGeminiLive. exec_monad.
    apply Hcaught; [reflexivity|exact Hin].
Qed.

(** C1, as the code has it. [stopGeminiLive] never throws.  On a running
    session, when the transport offers [stopLiveSession] and no platform
    call fails, it performs the five steps of the teardown: it asks the
    transport to close, clears the timer, disconnects the nodes, closes
    the context and stops every track of the stream, empties the queue
    and resets the playback flag, and resets both transcription texts;
    [isAIRunning] is false afterwards.  A step that fails
    ([stopLiveSession] or one of the release calls of [cleanup]) is
    written to the console and not thrown: the call returns normally,
    its last action is the error on the console, and the session still
    counts as running. *)
Theorem stopGeminiLive_teardown env st :
  is_throw (fst (stopGeminiLive env st)) = false /\
  (isAIRunning (mgr st) = true ->
   (exists a, ai (mgr st) = Some a /\ hasStopLiveSession a = true) ->
   noFail env ->
   exists st',
     stopGeminiLive env st = (Ok tt, st') /\
     trace (world st')
     = trace (world st) ++ StopLiveSession :: cleanupActions (mgr st) /\
     tornDown (mgr st') /\
     isAIRunning (mgr st') = false /\
     (forall timer,
        screenshotInterval (mgr st) = Some timer ->
        timer ∉ timers (world st'))) /\
  (isAIRunning (mgr st) = true ->
   forall step,
     step ∈ stopCalls (mgr st) ->
     fails env step = true ->
     exists st',
       stopGeminiLive env st = (Ok tt, st') /\
       isAIRunning (mgr st') = true /\
       last (trace (world st'))
       = Some (ConsoleError "Failed to stop Gemini Live:")).
Proof.
  split; [|split].
  - open_state st. destruct isAIRunning0; [|reflexivity].
    cbv beta iota delta
      [stopGeminiLive mbind M_bind bindM getMgr mgr isAIRunning negb].
    apply tryCatch_no_throw. intros; apply note_no_throw.
  - intros Hrun (a & Hai & Hstop) Hnf. open_state st.
    destruct a; simpl in Hstop; subst.
    unfold stopGeminiLive. exec_monad.
    rewrite Hnf. exec_monad. rewrite cleanup_noFail by assumption.
    exec_monad. eexists. split; [reflexivity|].
    cbn. split; [|split; [|split]].
    + rewrite <- app_assoc. reflexivity.
    + repeat split.
    + reflexivity.
    + intros timer ->. rewrite list_elem_of_filter. tauto.
  - intros Hrun step Hin Hfail.
    exact (stopGeminiLive_logs_failure env st step Hrun Hin Hfail).
Qed.

Lemma stopGeminiLive_teardown_witness :
  (exists st',
     stopGeminiLive exampleEnv running = (Ok tt, st') /\
     tornDown (mgr st') /\
     isAIRunning (mgr st') = false) /\
  (exists st',
     stopGeminiLive stopFails running = (Ok tt, st') /\
     isAIRunning (mgr st') = true /\
     last (trace (world st'))
     = Some (ConsoleError "Failed to stop Gemini Live:")).
Proof.
  split.
  - destruct (stopGeminiLive_teardown exampleEnv running) as (_ & H & _).
    destruct H as (st' & Hstop & _ & Hdown & Hrun & _).
    + reflexivity.
    + exists exampleAI. split; reflexivity.
    + intros a. reflexivity.
    + exists st'. auto.
  - destruct (stopGeminiLive_teardown stopFails running) as (_ & _ & H).
    apply (H eq_refl StopLiveSession); [|reflexivity].
    apply list_elem_of_here.
Defined.

(** C1 as stated fails: on a running session whose transport rejects
    [stopLiveSession], [stopGeminiLive] returns normally after the
    first step and none of the other steps is executed: the timer is
    still set, the capture handles and the running flag are as before. *)
Lemma stopGeminiLive_skips_teardown :
  let st' := snd (stopGeminiLive stopFails running) in
  isAIRunning (mgr running) = true /\
  fst (stopGeminiLive stopFails running) = Ok tt /\
  trace (world st')
  = trace (world running)
    ++ [StopLiveSession; ConsoleError "Failed to stop Gemini Live:"] /\
  mgr st' = mgr running /\
  timers (world st') = [5] /\
  ~ tornDown (mgr st').
Proof.
  cbv zeta. repeat split; try reflexivity.
  intros (Hstream & _). discriminate Hstream.
Qed.

(** ** Playback *)

Lemma benign_noFail tracks snap : noFail (benign tracks snap).
Proof. intros a. reflexivity. Qed.

Lemma decodeSegment_Ok audioData segment :
  decodeSegment audioData = Ok segment ->
  exists arrayBuffer,
    base64ToArrayBuffer audioData = Ok arrayBuffer /\
    (length arrayBuffer / 2 =? 0) = false /\
    Nat.even (length arrayBuffer) = true /\
    segment
    = mkAudioBuffer 1 24000
        (fillChannelData (int16Elements arrayBuffer)
           (replicate (length arrayBuffer / 2) 0%Q)).
Proof.
  unfold decodeSegment, createBuffer, newInt16Array.
  destruct (base64ToArrayBuffer audioData) as [arrayBuffer| |]; cbn [bindR];
    try discriminate.
  destruct (length arrayBuffer / 2 =? 0) eqn:Hlen; cbn [bindR]; try discriminate.
  destruct (Nat.even (length arrayBuffer)) eqn:Heven; cbn [bindR];
    try discriminate.
  intros [= <-]. exists arrayBuffer. auto.
Qed.

Lemma decodeSegment_not_Pending audioData :
  decodeSegment audioData <> Pending.
Proof.
  unfold decodeSegment, base64ToArrayBuffer, atob, createBuffer,
    newInt16Array.
  destruct (Base64.decode (codeUnits audioData)); cbn [bindR]; try discriminate.
  match goal with |- context [Nat.eqb ?a ?b] => destruct (Nat.eqb a b) end;
    cbn [bindR]; try discriminate.
  match goal with |- context [Nat.even ?a] => destruct (Nat.even a) end;
    cbn [bindR]; discriminate.
Qed.

(** The rest of [playAudioChunk] on a payload that decodes. *)
Lemma resume_segment env st audioData segment ctx :
  noFail env ->
  decodeSegment audioData = Ok segment ->
  audioContext (mgr st) = Some ctx ->
  resumePlayAudioChunk env (Ok tt) audioData st
  = (Ok tt, afterEnqueue ctx (segmentLength audioData) segment st).
Proof.
  intros Hnf Hseg Hctx.
  apply decodeSegment_Ok in Hseg as (ab & Hab & Hlen & Heven & ->).
  open_state st. unfold afterEnqueue, segmentLength. rewrite Hab.
  exec. rewrite Hab. exec. rewrite Hnf, Hlen. exec. rewrite Heven. exec.
  destruct isPlayingAudio0; exec.
  - rewrite <- !app_assoc. reflexivity.
  - destruct audioQueue0 as [|head rest]; simpl; exec; rewrite !Hnf; exec;
      rewrite <- !app_assoc; reflexivity.
Qed.

(** The rest of [playAudioChunk] on a payload that does not decode: the
    error is written to the console and the manager is as before. *)
Lemma resume_dropped env st audioData e :
  decodeSegment audioData = Throw e ->
  exists l,
    startedBuffers l = [] /\
    resumePlayAudioChunk env (Ok tt) audioData st
    = (Ok tt, mkSt (mgr st) (logActions l (world st))).
Proof.
  unfold decodeSegment, createBuffer, newInt16Array. intros Hseg.
  open_state st. exec.
  destruct (base64ToArrayBuffer audioData) as [ab| |]; cbn [bindR] in Hseg;
    try discriminate; exec.
  2:{ eexists [_]. split; [|reflexivity]. reflexivity. }
  destruct audioContext0 as [ctx|]; exec.
  2:{ eexists [_]. split; [|reflexivity]. reflexivity. }
  destruct (fails env _); exec.
  { eexists [_; _]. rewrite <- !app_assoc. split; [|reflexivity]. reflexivity. }
  destruct (length ab / 2 =? 0); cbn [bindR] in Hseg; exec.
  { eexists [_; _]. rewrite <- !app_assoc. split; [|reflexivity]. reflexivity. }
  destruct (Nat.even (length ab)); cbn [bindR] in Hseg; try discriminate; exec.
  eexists [_; _]. rewrite <- !app_assoc. split; [|reflexivity]. reflexivity.
Qed.

Lemma startedBuffers_app l1 l2 :
  startedBuffers (l1 ++ l2) = startedBuffers l1 ++ startedBuffers l2.
Proof. apply omap_app. Qed.

Lemma segmentsOf_app l1 l2 :
  segmentsOf (l1 ++ l2) = segmentsOf l1 ++ segmentsOf l2.
Proof. apply omap_app. Qed.

(** [playNextAudioBuffer] on a platform where no call fails. *)
Lemma playNext_noFail env st ctx :
  noFail env ->
  audioContext (mgr st) = Some ctx ->
  playNextAudioBuffer env st
  = (Ok tt,
     match audioQueue (mgr st) with
     | [] => mkSt (set_isPlayingAudio false (mgr st)) (world st)
     | audioBuffer :: rest =>
         mkSt (set_audioQueue rest (set_isPlayingAudio true (mgr st)))
           (set_playing (playing (world st) ++ [(ctx, audioBuffer)])
              (logActions
                 [CreateBufferSource ctx; ConnectBufferSource ctx;
                  SourceStart ctx audioBuffer] (world st)))
     end).
Proof.
  intros Hnf Hctx. open_state st.
  destruct audioQueue0 as [|audioBuffer rest]; exec; rewrite ?Hnf; exec;
    rewrite <- ?app_assoc; reflexivity.
Qed.

(** [isPlayingAudio] becomes false in [playNextAudioBuffer] exactly when
    the queue is empty, whatever the platform does. *)
Lemma playNext_idle_iff env st :
  isPlayingAudio (mgr (snd (playNextAudioBuffer env st))) = false
  <-> audioQueue (mgr st) = [].
Proof.
  open_state st. destruct audioQueue0 as [|audioBuffer rest]; exec.
  - tauto.
  - destruct audioContext0; exec;
      repeat match goal with
             | |- context [fails ?e ?a] => destruct (fails e a); exec
             end;
      split; discriminate.
Qed.

(** The rest of [playAudioChunk] keeps playback consistent and appends
    the segment of the payload, if it has one, to what was started or
    waits. *)
Lemma resume_step st audioData ctx :
  audioContext (mgr st) = Some ctx ->
  microtasks (world st) = [] ->
  (if isPlayingAudio (mgr st)
   then length (playing (world st)) = 1
   else playing (world st) = [] /\ audioQueue (mgr st) = []) ->
  let st' :=
    snd (resumePlayAudioChunk (benign [] SnapOther) (Ok tt) audioData st) in
  playbackInv st' /\
  startedBuffers (trace (world st')) ++ audioQueue (mgr st')
  = (startedBuffers (trace (world st)) ++ audioQueue (mgr st))
    ++ segmentsOf [audioData].
Proof.
  intros Hctx Hmt Hinv.
  pose proof (benign_noFail [] SnapOther) as Hnf.
  unfold segmentsOf; cbn [omap list_omap].
  destruct (decodeSegment audioData) as [segment|e|] eqn:Hseg.
  - rewrite (resume_segment _ st _ segment ctx Hnf Hseg Hctx).
    open_state st. unfold afterEnqueue, playbackInv, startedBuffers; cbn.
    destruct isPlayingAudio0; cbn.
    + rewrite omap_app; cbn. rewrite !app_nil_r, <- !app_assoc.
      repeat split; eauto.
    + destruct Hinv as [-> ->]. cbn.
      rewrite omap_app; cbn. rewrite !app_nil_r.
      repeat split; eauto.
  - destruct (resume_dropped (benign [] SnapOther) st audioData e Hseg)
      as (l & Hl & ->).
    open_state st. unfold playbackInv; cbn.
    rewrite startedBuffers_app, Hl, !app_nil_r.
    destruct isPlayingAudio0; repeat split; eauto; tauto.
  - destruct (decodeSegment_not_Pending _ Hseg).
Qed.

(** One call of [playAudioChunk], as a job. *)
Lemma enqueue_step st audioData :
  playbackInv st ->
  exists st',
    run [playbackJob (Enqueue audioData)] st = Some st' /\
    playbackInv st' /\
    startedBuffers (trace (world st')) ++ audioQueue (mgr st')
    = (startedBuffers (trace (world st)) ++ audioQueue (mgr st))
      ++ segmentsOf [audioData].
Proof.
  intros (Hmt & Hctx & Hinv). open_state st.
  destruct audioContext0 as [ctx|].
  - eexists. split; [cbn [run]; exec_job; reflexivity|].
    match goal with
    | |- context [resumePlayAudioChunk _ _ _ ?st] =>
        exact (resume_step st audioData ctx eq_refl eq_refl Hinv)
    end.
  - destruct isPlayingAudio0;
      [destruct (Hctx eq_refl) as [? [=]]|].
    eexists. split;
      [cbn [run]; exec_job; cbv beta iota delta [benign fails]; exec_job;
       reflexivity|].
    match goal with
    | |- context [resumePlayAudioChunk _ _ _ ?st] =>
        pose proof (resume_step st audioData
                      (mkAudioContext fresh0 24000)
                      eq_refl eq_refl Hinv) as [Hinv' Hghost]
    end.
    split; [exact Hinv'|].
    etransitivity; [exact Hghost|].
    unfold startedBuffers; cbn. rewrite omap_app; cbn.
    rewrite app_nil_r. reflexivity.
Qed.

(** The end of the source that is playing, as a job: the head of the
    queue is started, or playback falls idle when nothing waits. *)
Lemma ended_step st st' :
  playbackInv st ->
  run [playbackJob Ended] st = Some st' ->
  playbackInv st' /\
  startedBuffers (trace (world st'))
  = startedBuffers (trace (world st)) ++ take 1 (audioQueue (mgr st)) /\
  audioQueue (mgr st') = drop 1 (audioQueue (mgr st)) /\
  (isPlayingAudio (mgr st') = false <-> audioQueue (mgr st) = []).
Proof.
  intros (Hmt & Hctx & Hinv) Hrun. open_state st.
  destruct playing0 as [|p rest]; [discriminate Hrun|].
  destruct isPlayingAudio0; [|destruct Hinv; discriminate].
  destruct rest; [|discriminate Hinv].
  destruct (Hctx eq_refl) as [ctx ->].
  pose proof (benign_noFail [] SnapOther) as Hnf.
  cbn [run] in Hrun. unfold step, playbackJob, job in Hrun.
  cbn [mgr world playing set_playing] in Hrun.
  match type of Hrun with
  | context [playNextAudioBuffer _ ?s] =>
      rewrite (playNext_noFail _ s ctx Hnf eq_refl) in Hrun
  end.
  destruct audioQueue0 as [|audioBuffer queue];
    cbn in Hrun; injection Hrun as <-;
    unfold playbackInv, startedBuffers; cbn.
  - rewrite app_nil_r. repeat split; auto; discriminate.
  - rewrite omap_app; cbn.
    repeat split; eauto; discriminate.
Qed.

Lemma run_cons job events st :
  run (job :: events) st
  = match run [job] st with
    | Some st1 => run events st1
    | None => None
    end.
Proof.
  destruct job as [env event]. cbn [run].
  destruct (step env event st) as [[r st1]|]; reflexivity.
Qed.

(** Any sequence of enqueue and end events keeps playback consistent;
    what was started, followed by what waits, is what was enqueued. *)
Lemma playback_run events :
  forall st st',
    playbackInv st ->
    run (map playbackJob events) st = Some st' ->
    playbackInv st' /\
    startedBuffers (trace (world st')) ++ audioQueue (mgr st')
    = (startedBuffers (trace (world st)) ++ audioQueue (mgr st))
      ++ segmentsOf (payloads events).
Proof.
  induction events as [|event events IH]; intros st st' Hinv Hrun.
  - injection Hrun as <-. rewrite app_nil_r. auto.
  - cbn [map] in Hrun. rewrite run_cons in Hrun.
    destruct event as [audioData|].
    + destruct (enqueue_step st audioData Hinv) as (st1 & H1 & Hinv1 & Hg1).
      rewrite H1 in Hrun.
      destruct (IH st1 st' Hinv1 Hrun) as [Hinv' Hg'].
      split; [exact Hinv'|].
      rewrite Hg', Hg1. cbn [payloads omap list_omap].
      change (audioData :: omap _ events)
        with ([audioData] ++ payloads events).
      rewrite segmentsOf_app, app_assoc. reflexivity.
    + destruct (run [playbackJob Ended] st) as [st1|] eqn:H1;
        [|discriminate Hrun].
      destruct (ended_step st st1 Hinv H1) as (Hinv1 & Hs1 & Hq1 & _).
      destruct (IH st1 st' Hinv1 Hrun) as [Hinv' Hg'].
      split; [exact Hinv'|].
      rewrite Hg', Hs1, Hq1, <- (app_assoc _ (take 1 _)), take_drop.
      reflexivity.
Qed.

(** C5. After any sequence of [playAudioChunk] calls and source
    completions, from a state in which playback is consistent (a fresh
    manager, or one inside a session): the segments whose playback was
    started, followed by the segments that wait in [audioQueue], are
    what was there before followed by the segments of the payloads in
    the order they were enqueued (first in, first out, none skipped); at
    most one source sounds, so a segment starts only when no other
    plays; [isPlayingAudio] is false exactly when no source sounds, and
    then nothing waits; while a segment waits a source is playing, and
    when it ends the head of the queue is started; at the end of a
    source [isPlayingAudio] becomes false exactly when the queue is
    empty. *)
Theorem playback_is_fifo events st0 st :
  playbackInv st0 ->
  run (map playbackJob events) st0 = Some st ->
  startedBuffers (trace (world st)) ++ audioQueue (mgr st)
  = (startedBuffers (trace (world st0)) ++ audioQueue (mgr st0))
    ++ segmentsOf (payloads events) /\
  length (playing (world st)) <= 1 /\
  (isPlayingAudio (mgr st) = false <-> playing (world st) = []) /\
  (isPlayingAudio (mgr st) = false -> audioQueue (mgr st) = []) /\
  (audioQueue (mgr st) <> [] ->
   exists st', run [playbackJob Ended] st = Some st') /\
  (forall st',
     run [playbackJob Ended] st = Some st' ->
     (isPlayingAudio (mgr st') = false <-> audioQueue (mgr st) = []) /\
     startedBuffers (trace (world st'))
     = startedBuffers (trace (world st)) ++ take 1 (audioQueue (mgr st)) /\
     audioQueue (mgr st') = drop 1 (audioQueue (mgr st))).
Proof.
  intros Hinv0 Hrun.
  destruct (playback_run events st0 st Hinv0 Hrun) as [Hinv Hghost].
  split; [exact Hghost|].
  assert (Hended : forall st1,
    run [playbackJob Ended] st = Some st1 ->
    (isPlayingAudio (mgr st1) = false <-> audioQueue (mgr st) = []) /\
    startedBuffers (trace (world st1))
    = startedBuffers (trace (world st)) ++ take 1 (audioQueue (mgr st)) /\
    audioQueue (mgr st1) = drop 1 (audioQueue (mgr st))).
  { intros st1 H1. destruct (ended_step st st1 Hinv H1) as (_ & ? & ? & ?).
    auto. }
  destruct Hinv as (Hmt & Hctx & Hplay).
  split; [|split; [|split; [|split; [|exact Hended]]]].
  - destruct (isPlayingAudio (mgr st)); [lia|].
    destruct Hplay as [-> _]. cbn. lia.
  - destruct (isPlayingAudio (mgr st)).
    + split; [discriminate|]. intros Hnil. rewrite Hnil in Hplay.
      discriminate Hplay.
    + tauto.
  - intros Hflag. rewrite Hflag in Hplay. tauto.
  - intros Hwait. destruct (isPlayingAudio (mgr st)); [|tauto].
    cbn [run]. unfold playbackJob, step.
    destruct (playing (world st)) as [|p rest]; [discriminate Hplay|].
    destruct (job _ _ _) as [r st']. exists st'. reflexivity.
Qed.

Lemma playback_is_fifo_witness :
  exists st,
    run (map playbackJob
           [Enqueue "AAD/fw=="; Enqueue "AQA="; Enqueue "?"; Ended;
            Enqueue "//8="; Ended])
      running = Some st /\
    startedBuffers (trace (world st)) ++ audioQueue (mgr st)
    = [mkAudioBuffer 1 24000 [0 # 32768; 32767 # 32768]%Q;
       mkAudioBuffer 1 24000 [1 # 32768]%Q;
       mkAudioBuffer 1 24000 [-1 # 32768]%Q] /\
    length (playing (world st)) <= 1.
Proof.
  eexists. split; [vm_compute; reflexivity|].
  match goal with
  | |- context [mgr ?st] =>
      destruct (playback_is_fifo
                  [Enqueue "AAD/fw=="; Enqueue "AQA="; Enqueue "?"; Ended;
                   Enqueue "//8="; Ended] running st) as (Hfifo & Hone & _)
  end.
  - repeat split. intros [=].
  - vm_compute. reflexivity.
  - split; [exact Hfifo | exact Hone].
Defined.

(** ** The context of playback *)

(** C2 fails on the code. After a session start, in which
    [setupAudioCapture] has stored its 16 kHz capture context in
    [audioContext], [initializeAudioContext] finds the field set and
    creates nothing: [playAudioChunk] builds the segment and starts its
    source on the 16 kHz context, and no context with the playback rate
    of 24 kHz exists. *)
Theorem playAudioChunk_after_start_uses_capture_context :
  let st := snd (job exampleEnv (playAudioChunk exampleEnv "AAD/fw==")
                   running) in
  let capture := mkAudioContext 2 16000 in
  let segment := mkAudioBuffer 1 24000 [0 # 32768; 32767 # 32768]%Q in
  audioContext (mgr running) = Some capture /\
  trace (world st)
  = trace (world running)
    ++ [CreateBuffer capture 2 24000; QueuePush segment;
        CreateBufferSource capture; ConnectBufferSource capture;
        SourceStart capture segment] /\
  playing (world st) = [(capture, segment)] /\
  audioContext (mgr st) = Some capture /\
  contextsCreated (trace (world st)) = [capture] /\
  ctxSampleRate capture <> 24000%Z.
Proof. cbv zeta. repeat split; try reflexivity. discriminate. Qed.

(** Without a session, on a manager that has no context, the same call
    creates the context of playback at 24 kHz, once: a second call
    reuses it. *)
Lemma playAudioChunk_without_session_creates_context :
  let st1 := snd (job exampleEnv (playAudioChunk exampleEnv "AAD/fw==")
                    ready) in
  let st2 := snd (job exampleEnv (playAudioChunk exampleEnv "AQA=") st1) in
  audioContext (mgr st1) = Some (mkAudioContext 1 24000) /\
  audioContext (mgr st2) = Some (mkAudioContext 1 24000) /\
  contextsCreated (trace (world st2)) = [mkAudioContext 1 24000].
Proof. cbv zeta. repeat split. Qed.

(** ** Inbound messages *)

Lemma initializeAudioContext_noFail env st :
  noFail env ->
  initializeAudioContext env st = (Ok tt, afterInitialize st).
Proof.
  intros Hnf. open_state st. unfold afterInitialize, playbackContext.
  destruct audioContext0; exec; rewrite ?Hnf; reflexivity.
Qed.

Lemma playAudioChunk_noFail env audioData st :
  noFail env ->
  playAudioChunk env audioData st
  = (Ok tt,
     mkSt (mgr (afterInitialize st))
       (set_microtasks
          (microtasks (world (afterInitialize st))
           ++ [ResumePlayAudioChunk (Ok tt) audioData])
          (world (afterInitialize st)))).
Proof.
  intros Hnf. unfold playAudioChunk.
  rewrite initializeAudioContext_noFail by assumption. reflexivity.
Qed.

(** [handleAIMessage] up to its return, for a message with an audio
    payload. *)
Lemma handleAIMessage_noFail env audioData content st :
  noFail env ->
  audioData <> "" ->
  handleAIMessage env (mkMessage (Some audioData) (Some content)) st
  = (Ok tt, afterMessage audioData content st).
Proof.
  intros Hnf Hdata. apply String.eqb_neq in Hdata.
  unfold handleAIMessage, afterMessage, dispatched, textEvent.
  cbn [data serverContent whenText]. rewrite Hdata.
  unfold mbind at 1, M_bind, bindM.
  rewrite playAudioChunk_noFail by assumption.
  destruct (afterInitialize st) as [m w]. destruct m, w.
  destruct content as [[[[input|]]|] [[[output|]]|] [[|]|]];
    cbn [inputTranscription outputTranscription turnComplete text whenText];
    repeat match goal with
           | |- context [String.eqb ?s ""] => destruct (String.eqb s "")
           end;
    exec; rewrite ?Hnf; exec; rewrite ?app_nil_r, <- ?app_assoc;
    reflexivity.
Qed.

Lemma milestones_app l1 l2 :
  milestones (l1 ++ l2) = milestones l1 ++ milestones l2.
Proof. apply omap_app. Qed.

Lemma milestones_textEvent mk transcription :
  (forall s, mk s <> TurnComplete) ->
  milestones (map DispatchEvent (textEvent mk transcription)) = [].
Proof.
  intros Hmk. unfold textEvent.
  destruct transcription as [[[s|]]|]; try reflexivity.
  cbn [text]. destruct (String.eqb s ""); [reflexivity|].
  cbn. specialize (Hmk s). destruct (mk s); congruence.
Qed.

Lemma milestones_dispatched content :
  turnComplete content = Some true ->
  milestones (map DispatchEvent (dispatched content))
  = [TurnCompleteDispatched].
Proof.
  intros Htc. unfold dispatched. rewrite Htc.
  rewrite !map_app, !milestones_app, !milestones_textEvent by discriminate.
  reflexivity.
Qed.

(** The job of a message with an audio payload that decodes: the rest
    of [playAudioChunk] runs when [handleAIMessage] has returned. *)
Lemma message_job env st audioData content segment :
  noFail env ->
  microtasks (world st) = [] ->
  audioData <> "" ->
  decodeSegment audioData = Ok segment ->
  job env (handleAIMessage env (mkMessage (Some audioData) (Some content))) st
  = (Ok tt,
     afterEnqueue (playbackContext st) (segmentLength audioData) segment
       (mkSt (mgr (afterMessage audioData content st))
          (set_microtasks [] (world (afterMessage audioData content st))))).
Proof.
  intros Hnf Hmt Hdata Hseg. unfold job.
  rewrite handleAIMessage_noFail by assumption.
  unfold drainMicrotasks, afterMessage, afterInitialize, playbackContext.
  open_state st.
  destruct audioContext0 as [ctx|]; cbn [mgr world audioContext microtasks
    set_microtasks logActions logAction bumpFresh app fold_left runTask
    set_audioContext];
    match goal with
    | |- context [resumePlayAudioChunk _ _ _ ?s] =>
        rewrite (resume_segment env s audioData segment _ Hnf Hseg eq_refl)
    end; reflexivity.
Qed.

(** C3, as the code has it. For a message that carries an audio payload
    that decodes and [turnComplete: true], on a platform where no call
    fails: [handleAIMessage] calls [playAudioChunk] first, but when it
    returns the one [turnComplete] event is dispatched, nothing is
    pushed onto [audioQueue] yet and the rest of [playAudioChunk] waits
    behind its [await]; that rest runs when the handler has returned
    and pushes the one segment.  Exactly one segment is enqueued and
    exactly one [turnComplete] event is dispatched, the event first. *)
Theorem message_turnComplete_then_enqueue env st audioData content segment :
  noFail env ->
  microtasks (world st) = [] ->
  audioData <> "" ->
  decodeSegment audioData = Ok segment ->
  turnComplete content = Some true ->
  let message := mkMessage (Some audioData) (Some content) in
  let st1 := afterMessage audioData content st in
  exists st2 new1 new2,
    handleAIMessage env message st = (Ok tt, st1) /\
    trace (world st1) = trace (world st) ++ new1 /\
    milestones new1 = [TurnCompleteDispatched] /\
    audioQueue (mgr st1) = audioQueue (mgr st) /\
    microtasks (world st1) = [ResumePlayAudioChunk (Ok tt) audioData] /\
    job env (handleAIMessage env message) st = (Ok tt, st2) /\
    trace (world st2) = trace (world st1) ++ new2 /\
    milestones new2 = [SegmentEnqueued] /\
    In (QueuePush segment) new2.
Proof.
  intros Hnf Hmt Hdata Hseg Htc message st1. subst st1.
  eexists.
  exists (match audioContext (mgr st) with
          | Some _ => []
          | None => [NewAudioContext (playbackContext st)]
          end ++ map DispatchEvent (dispatched content)).
  exists ([CreateBuffer (playbackContext st) (segmentLength audioData) 24000;
           QueuePush segment]
          ++ if isPlayingAudio (mgr st) then []
             else [CreateBufferSource (playbackContext st);
                   ConnectBufferSource (playbackContext st);
                   SourceStart (playbackContext st)
                     (hd segment (audioQueue (mgr st) ++ [segment]))]).
  split; [apply handleAIMessage_noFail; assumption|].
  split; [|split; [|split; [|split; [|split;
    [exact (message_job env st audioData content segment
              Hnf Hmt Hdata Hseg)|]]]]].
  - open_state st. unfold afterMessage, afterInitialize, playbackContext.
    destruct audioContext0; cbn; rewrite <- ?app_assoc; reflexivity.
  - rewrite milestones_app, milestones_dispatched by assumption.
    destruct (audioContext (mgr st)); reflexivity.
  - open_state st. unfold afterMessage, afterInitialize.
    destruct audioContext0; reflexivity.
  - open_state st. unfold afterMessage, afterInitialize.
    destruct audioContext0; reflexivity.
  - open_state st.
    unfold afterEnqueue, afterMessage, afterInitialize, playbackContext.
    destruct audioContext0, isPlayingAudio0; cbn; rewrite <- ?app_assoc;
      cbn; split; try reflexivity; split; try reflexivity; auto.
Qed.

Lemma message_turnComplete_then_enqueue_witness :
  exists st2 segment,
    job exampleEnv (handleAIMessage exampleEnv exampleMessage) running
    = (Ok tt, st2) /\
    milestones (drop (length (trace (world running))) (trace (world st2)))
    = [TurnCompleteDispatched; SegmentEnqueued] /\
    channelData segment = [0 # 32768; 32767 # 32768]%Q /\
    In (QueuePush segment) (trace (world st2)).
Proof.
  destruct (message_turnComplete_then_enqueue exampleEnv running "AAD/fw=="
              (mkServerContent None None (Some true))
              (mkAudioBuffer 1 24000 [0 # 32768; 32767 # 32768]%Q))
    as (st2 & new1 & new2 & _ & H1 & M1 & _ & _ & Hjob & H2 & M2 & Hin).
  - intros a. reflexivity.
  - reflexivity.
  - discriminate.
  - reflexivity.
  - reflexivity.
  - exists st2, (mkAudioBuffer 1 24000 [0 # 32768; 32767 # 32768]%Q).
    split; [exact Hjob|]. split; [|split; [reflexivity|]].
    + rewrite H2, H1, <- app_assoc, drop_app_length, milestones_app, M1, M2.
      reflexivity.
    + rewrite H2. apply in_or_app. right. exact Hin.
Defined.

(** C3 as stated fails: for the message of the example on a running
    session, the [turnComplete] event is dispatched while the queue is
    still empty and no segment was pushed, and the segment is pushed
    afterwards. *)
Lemma turnComplete_dispatched_before_enqueue :
  let st1 := snd (handleAIMessage exampleEnv exampleMessage running) in
  let st2 := snd (job exampleEnv (handleAIMessage exampleEnv exampleMessage)
                    running) in
  milestones (trace (world st1)) = [TurnCompleteDispatched] /\
  audioQueue (mgr st1) = [] /\
  milestones (trace (world st2)) = [TurnCompleteDispatched; SegmentEnqueued] /\
  milestones (trace (world st2)) <> [SegmentEnqueued; TurnCompleteDispatched].
Proof.
  cbv zeta. repeat split; try reflexivity. discriminate.
Qed.

(** ** The microtask queue *)

(** The rest of [playAudioChunk] never throws and adds no continuation,
    whatever the platform does. *)
Lemma resume_microtasks env awaited audioData st :
  is_throw (fst (resumePlayAudioChunk env awaited audioData st)) = false /\
  microtasks (world (snd (resumePlayAudioChunk env awaited audioData st)))
  = microtasks (world st).
Proof.
  open_state st. exec.
  destruct awaited as [[]|e|]; [|split; reflexivity..].
  destruct (base64ToArrayBuffer audioData) as [ab| |];
    [|split; reflexivity..].
  destruct audioContext0 as [ctx|]; [|split; reflexivity].
  destruct (fails env (CreateBuffer _ _ _)); [split; reflexivity|].
  destruct (length ab / 2 =? 0); [split; reflexivity|].
  destruct (Nat.even (length ab)); [|split; reflexivity].
  destruct isPlayingAudio0; [split; reflexivity|].
  destruct (audioQueue0 ++ _); [split; reflexivity|].
  repeat match goal with
         | |- context [fails ?e ?a] => destruct (fails e a)
         end; split; reflexivity.
Qed.

Lemma drainMicrotasks_empty env st :
  microtasks (world (drainMicrotasks env st)) = [].
Proof.
  unfold drainMicrotasks.
  assert (H : forall tasks st0,
    microtasks (world st0) = [] ->
    microtasks
      (world (fold_left (fun st task => snd (runTask env task st)) tasks st0))
    = []).
  { induction tasks as [|task tasks IH]; intros st0 H0; [exact H0|].
    cbn [fold_left]. apply IH. destruct task as [awaited audioData].
    cbn [runTask]. rewrite (proj2 (resume_microtasks _ _ _ _)). exact H0. }
  apply H. reflexivity.
Qed.

(** After any sequence of jobs no continuation waits. *)
Lemma run_microtasks_empty events :
  forall st st',
    microtasks (world st) = [] ->
    run events st = Some st' ->
    microtasks (world st') = [].
Proof.
  induction events as [|[env event] events IH]; intros st st' Hmt Hrun.
  - injection Hrun as <-. exact Hmt.
  - cbn [run] in Hrun.
    destruct (step env event st) as [[r st1]|] eqn:Hstep;
      [|discriminate Hrun].
    apply (IH st1 st'); [|exact Hrun].
    destruct event; cbn [step] in Hstep;
      repeat match type of Hstep with
             | (if ?c then _ else _) = _ => destruct c
             | match ?l with [] => _ | _ :: _ => _ end = _ => destruct l
             end;
      try discriminate Hstep;
      unfold job in Hstep;
      match type of Hstep with
      | Some (let (_, _) := ?m in _) = _ => destruct m
      end;
      injection Hstep as _ <-; apply drainMicrotasks_empty.
Qed.

(** * Further properties of the session manager *)

(** ** Teardown, again *)

Lemma forEach_call_safe env (f : nat -> Action) (l : list nat) st :
  (forall x, fails env (f x) = false) ->
  forEach l (fun x => call env (f x)) st
  = (Ok tt, mkSt (mgr st) (logActions (map f l) (world st))).
Proof.
  intros Hf. revert st; induction l as [|x l IH]; intros st.
  - open_state st. exec. rewrite app_nil_r. reflexivity.
  - change (forEach (x :: l) (fun x => call env (f x)))
      with (call env (f x) ;; forEach l (fun x => call env (f x))).
    open_state st. exec. rewrite Hf. exec. rewrite IH. exec.
    rewrite <- app_assoc. reflexivity.
Qed.

(** [cleanup] when the release calls succeed. *)
Lemma cleanup_succeeds env st :
  cleanupSucceeds env ->
  cleanup env st
  = (Ok tt, mkSt (cleaned (mgr st)) (cleanedWorld (mgr st) (world st))).
Proof.
  intros Hs. open_state st. unfold cleaned, cleanedWorld, cleanupActions.
  assert (Htracks : forall stream st,
    stopTracks env stream st
    = (Ok tt,
       mkSt (mgr st)
         (logActions (map TrackStop (streamTracks stream)) (world st)))).
  { intros. apply forEach_call_safe. intros x. apply Hs. reflexivity. }
  destruct screenshotInterval0, processorNode0, sourceNode0, audioContext0,
    audioStream0;
    exec; rewrite ?(Hs (ClearInterval _) eq_refl); exec;
    rewrite ?(Hs (DisconnectProcessor _) eq_refl); exec;
    rewrite ?(Hs (DisconnectSource _) eq_refl); exec;
    rewrite ?Htracks; exec;
    rewrite <- ?app_assoc; simpl; rewrite ?app_nil_r; reflexivity.
Qed.

(** X1. [cleanup] is idempotent: after a [cleanup] whose release calls
    succeeded the manager holds no handle, its queue is empty and
    playback is idle, and a second [cleanup] returns normally without a
    single platform call and without changing the state, whatever the
    platform would answer. *)
Theorem cleanup_idempotent env env' st :
  cleanupSucceeds env ->
  exists st1,
    cleanup env st = (Ok tt, st1) /\
    holdsNothing (mgr st1) /\
    audioQueue (mgr st1) = [] /\
    isPlayingAudio (mgr st1) = false /\
    cleanup env' st1 = (Ok tt, st1).
Proof.
  intros Hs. eexists. split; [apply cleanup_succeeds, Hs|].
  split; [repeat split|]. split; [reflexivity|]. split; [reflexivity|].
  open_state st. reflexivity.
Qed.

Lemma cleanup_idempotent_witness :
  exists st1,
    cleanup exampleEnv running = (Ok tt, st1) /\
    cleanup stopFails st1 = (Ok tt, st1).
Proof.
  destruct (cleanup_idempotent exampleEnv stopFails running)
    as (st1 & H1 & _ & _ & _ & H2).
  - intros a _. reflexivity.
  - exists st1. split; assumption.
Defined.

(** ** Session start *)

(** [exec], also through the fields of a stream. *)
Ltac execs :=
  repeat (progress (exec; cbn [streamTracks streamId length Nat.eqb])).

(** Case analysis on the answers of the platform, outermost first. *)
Ltac branch env :=
  repeat (execs;
          match goal with
          | |- context [fails env ?a] => destruct (fails env a) eqn:?
          | |- context [liveOutcome env] => destruct (liveOutcome env) eqn:?
          | |- context [userMediaTracks env] =>
              destruct (userMediaTracks env) eqn:?
          end).

Lemma startGeminiLive_unfold env st :
  isAIRunning (mgr st) = false ->
  is_Some (ai (mgr st)) ->
  startGeminiLive env st = tryCatch (startBody env) (startHandler env) st.
Proof.
  intros Hrun [a Hai]. open_state st. reflexivity.
Qed.

(** [setupAudioCapture] on a platform where no call fails and the
    microphone has a track. *)
Lemma setupAudioCapture_noFail env st :
  noFail env ->
  userMediaTracks env <> [] ->
  setupAudioCapture env st = (Ok tt, afterSetup env st).
Proof.
  intros Hnf Htracks. open_state st.
  unfold afterSetup, captureActions, captureContext, captureStream.
  destruct (userMediaTracks env) as [|track tracks] eqn:Ht;
    [contradiction|].
  exec. rewrite !Hnf, Ht. execs.
  repeat (rewrite Hnf; execs).
  rewrite <- ?app_assoc; cbn [app]. reflexivity.
Qed.

(** [startLiveAI] when its two transport calls succeed. *)
Lemma startLiveAI_noFail env st :
  noFail env ->
  is_Some (ai (mgr st)) ->
  startLiveAI env st
  = let st1 :=
      mkSt (mgr st)
        (set_callbacksSet true
           (logActions [SetLiveCallbacks; StartLiveSession] (world st))) in
    match liveOutcome env with
    | LiveOpened => (Ok tt, st1)
    | LiveErrored =>
        (Throw (ExternalFailure "onerror"),
         mkSt (mgr st1)
           (logAction (ConsoleError "Live AI error:") (world st1)))
    | LiveSilent => (Pending, st1)
    end.
Proof.
  intros Hnf [a Hai]. open_state st. exec. repeat (rewrite Hnf; exec).
  destruct (liveOutcome env); exec; rewrite <- ?app_assoc; reflexivity.
Qed.

Lemma startBody_unfold env st :
  startBody env st
  = match setupAudioCapture env st with
    | (Ok _, st1) =>
        match startLiveAI env st1 with
        | (Ok _, st2) =>
            (startScreenshotCapture 1000 ;;
             modifyMgr (set_isAIRunning true)) st2
        | (Throw e, st2) => (Throw e, st2)
        | (Pending, st2) => (Pending, st2)
        end
    | (Throw e, st1) => (Throw e, st1)
    | (Pending, st1) => (Pending, st1)
    end.
Proof.
  unfold startBody, mbind, M_bind, bindM.
  destruct (setupAudioCapture env st) as [[[]|e|] st1]; reflexivity.
Qed.

Lemma startBody_noFail env st :
  noFail env ->
  userMediaTracks env <> [] ->
  is_Some (ai (mgr st)) ->
  startBody env st
  = match liveOutcome env with
    | LiveOpened => (Ok tt, afterStart env st)
    | LiveErrored =>
        (Throw (ExternalFailure "onerror"),
         mkSt (mgr (afterOpen env st))
           (logAction (ConsoleError "Live AI error:")
              (world (afterOpen env st))))
    | LiveSilent => (Pending, afterOpen env st)
    end.
Proof.
  intros Hnf Htracks Hai. rewrite startBody_unfold.
  rewrite setupAudioCapture_noFail by assumption.
  rewrite startLiveAI_noFail
    by (try assumption; destruct Hai as [a Hai]; open_state st;
        exists a; reflexivity).
  unfold afterStart, afterOpen, afterSetup. open_state st.
  destruct (liveOutcome env), screenshotInterval0; exec;
    rewrite <- ?app_assoc; cbn [app]; reflexivity.
Qed.

(** A start on a platform where no call fails and the transport
    opens. *)
Lemma startGeminiLive_afterStart env st :
  noFail env ->
  userMediaTracks env <> [] ->
  liveOutcome env = LiveOpened ->
  isAIRunning (mgr st) = false ->
  is_Some (ai (mgr st)) ->
  startGeminiLive env st = (Ok tt, afterStart env st).
Proof.
  intros Hnf Htracks Hlive Hrun Hai.
  rewrite startGeminiLive_unfold by assumption. unfold tryCatch.
  rewrite startBody_noFail, Hlive by assumption. reflexivity.
Qed.

(** X2. On a platform where no call fails, the microphone has a track
    and the transport opens, [startGeminiLive] on a manager that is not
    running and has its [ai] returns normally with [isAIRunning] true,
    a capture stream, a 16 kHz capture context and the two nodes, all
    with new identities, and the frame timer set with an interval of
    1000 ms; the queue, the playback flag and the transcription texts
    are untouched, and no release call is made for handles that were
    there before. *)
Theorem startGeminiLive_succeeds env st :
  noFail env ->
  userMediaTracks env <> [] ->
  liveOutcome env = LiveOpened ->
  isAIRunning (mgr st) = false ->
  is_Some (ai (mgr st)) ->
  screenshotInterval (mgr st) = None ->
  let n := fresh (world st) in
  exists st',
    startGeminiLive env st = (Ok tt, st') /\
    isAIRunning (mgr st') = true /\
    audioStream (mgr st') = Some (mkMediaStream n (userMediaTracks env)) /\
    audioContext (mgr st') = Some (mkAudioContext (1 + n) 16000) /\
    sourceNode (mgr st') = Some (2 + n) /\
    processorNode (mgr st') = Some (3 + n) /\
    screenshotInterval (mgr st') = Some (4 + n) /\
    timers (world st') = timers (world st) ++ [4 + n] /\
    fresh (world st') = 5 + n /\
    trace (world st')
    = trace (world st) ++ captureActions env n
      ++ [SetLiveCallbacks; StartLiveSession; SetInterval (4 + n) 1000] /\
    audioQueue (mgr st') = audioQueue (mgr st) /\
    isPlayingAudio (mgr st') = isPlayingAudio (mgr st) /\
    currentInputText (mgr st') = currentInputText (mgr st) /\
    currentOutputText (mgr st') = currentOutputText (mgr st).
Proof.
  intros Hnf Htracks Hlive Hrun Hai Htimer n.
  exists (afterStart env st). split.
  - apply startGeminiLive_afterStart; assumption.
  - subst n. open_state st. unfold afterStart, afterOpen; cbn.
    rewrite <- !app_assoc. repeat split.
Qed.

Lemma startGeminiLive_succeeds_witness :
  exists st',
    startGeminiLive exampleEnv ready = (Ok tt, st') /\
    isAIRunning (mgr st') = true /\
    audioContext (mgr st') = Some (mkAudioContext 2 16000).
Proof.
  destruct (startGeminiLive_succeeds exampleEnv ready)
    as (st' & H & Hrun & _ & Hctx & _); try reflexivity.
  - intros a. reflexivity.
  - discriminate.
  - exists exampleAI. reflexivity.
  - exists st'. auto.
Defined.

(** X3. While the transport neither opens nor reports an error,
    [startGeminiLive] stays in its [await]: the capture pipeline is
    already built and the callbacks are installed, but [isAIRunning] is
    false and no frame timer is set.  In that state a block from the
    capture worklet is dropped, and [stopGeminiLive] returns without a
    platform call, leaving the capture handles in place. *)
Theorem startGeminiLive_pending env st :
  noFail env ->
  userMediaTracks env <> [] ->
  liveOutcome env = LiveSilent ->
  isAIRunning (mgr st) = false ->
  is_Some (ai (mgr st)) ->
  let st' := afterOpen env st in
  startGeminiLive env st = (Pending, st') /\
  isAIRunning (mgr st') = false /\
  is_Some (audioStream (mgr st')) /\
  screenshotInterval (mgr st') = screenshotInterval (mgr st) /\
  timers (world st') = timers (world st) /\
  callbacksSet (world st') = true /\
  (forall env' audioBuffer,
     onWorkletMessage env' true audioBuffer st' = (Ok tt, st')) /\
  (forall env', stopGeminiLive env' st' = (Ok tt, st')).
Proof.
  intros Hnf Htracks Hlive Hrun Hai st'. subst st'. split.
  - rewrite startGeminiLive_unfold by assumption. unfold tryCatch.
    rewrite startBody_noFail, Hlive by assumption. reflexivity.
  - open_state st. unfold afterOpen; cbn. repeat split; eauto.
Qed.

Lemma startGeminiLive_pending_witness :
  startGeminiLive transportSilent ready
  = (Pending, afterOpen transportSilent ready) /\
  stopGeminiLive exampleEnv (afterOpen transportSilent ready)
  = (Ok tt, afterOpen transportSilent ready).
Proof.
  destruct (startGeminiLive_pending transportSilent ready)
    as (H & _ & _ & _ & _ & _ & _ & Hstop); try reflexivity.
  - intros a. reflexivity.
  - discriminate.
  - exists exampleAI. reflexivity.
  - split; [exact H | apply Hstop].
Defined.

Lemma stopTracks_succeeds env stream st :
  cleanupSucceeds env ->
  stopTracks env stream st
  = (Ok tt,
     mkSt (mgr st)
       (logActions (map TrackStop (streamTracks stream)) (world st))).
Proof.
  intros Hs. apply forEach_call_safe. intros x. apply Hs. reflexivity.
Qed.

Lemma tracksStopped_map tracks : tracksStopped (map TrackStop tracks) = tracks.
Proof.
  induction tracks as [|t tracks IH]; [reflexivity|].
  cbn. f_equal. exact IH.
Qed.

Lemma contextsClosed_map tracks : contextsClosed (map TrackStop tracks) = [].
Proof. induction tracks as [|t tracks IH]; [reflexivity|exact IH]. Qed.

Lemma contextsCreated_map tracks :
  contextsCreated (map TrackStop tracks) = [].
Proof. induction tracks as [|t tracks IH]; [reflexivity|exact IH]. Qed.

(** X4. A failed start is rolled back.  If [startGeminiLive], called on
    a manager that is not running and holds no handle, throws, and the
    release calls of the platform succeed, then afterwards the manager
    holds no handle again and is not running, no timer was added, every
    track of the stream that [getUserMedia] delivered was stopped, the
    context that was stored was closed, and a following
    [stopGeminiLive] returns without doing anything. *)
Theorem startGeminiLive_rolls_back env st e st' :
  isAIRunning (mgr st) = false ->
  is_Some (ai (mgr st)) ->
  holdsNothing (mgr st) ->
  cleanupSucceeds env ->
  startGeminiLive env st = (Throw e, st') ->
  holdsNothing (mgr st') /\
  isAIRunning (mgr st') = false /\
  timers (world st') = timers (world st) /\
  (exists new,
     trace (world st') = trace (world st) ++ new /\
     tracksStopped new
     = (if fails env GetUserMedia then [] else userMediaTracks env) /\
     contextsClosed new
     = (if fails env GetUserMedia then []
        else match userMediaTracks env with
             | [] => []
             | _ :: _ =>
                 let ctx := captureContext (fresh (world st)) in
                 if fails env (NewAudioContext ctx) then [] else [ctx]
             end)) /\
  (forall env', stopGeminiLive env' st' = (Ok tt, st')).
Proof.
  intros Hrun Hai (Hh1 & Hh2 & Hh3 & Hh4 & Hh5) Hs.
  rewrite startGeminiLive_unfold by assumption. destruct Hai as [a Hai].
  open_state st. unfold captureContext, startBody, startHandler.
  cbn [world fresh].
  repeat (execs;
          rewrite ?(Hs (DisconnectProcessor _) eq_refl),
            ?(Hs (DisconnectSource _) eq_refl),
            ?(stopTracks_succeeds env _ _ Hs);
          match goal with
          | H : fails env ?a = _ |- context [fails env ?a] => rewrite H
          | |- context [fails env ?a] => destruct (fails env a) eqn:?
          | |- context [liveOutcome env] => destruct (liveOutcome env) eqn:?
          | |- context [userMediaTracks env] =>
              destruct (userMediaTracks env) eqn:?
          end);
    execs;
    rewrite ?(Hs (DisconnectProcessor _) eq_refl),
      ?(Hs (DisconnectSource _) eq_refl),
      ?(stopTracks_succeeds env _ _ Hs);
    execs;
    intros H; try discriminate H; inversion H; subst; clear H;
    (split; [repeat split|]);
    (split; [reflexivity|]);
    (split; [reflexivity|]);
    (split; [|reflexivity]);
    cbn [mgr world trace streamTracks map];
    rewrite <- ?app_assoc; cbn [app];
    (eexists; split; [reflexivity|]);
    rewrite ?app_nil_r;
    unfold tracksStopped, contextsClosed; cbn [omap list_omap];
    rewrite ?omap_app; cbn [omap list_omap];
    fold tracksStopped; fold contextsClosed;
    rewrite ?tracksStopped_map, ?contextsClosed_map, ?app_nil_r;
    split; reflexivity.
Qed.

Lemma startGeminiLive_rolls_back_witness :
  exists st',
    startGeminiLive transportErrors ready
    = (Throw (ExternalFailure "onerror"), st') /\
    holdsNothing (mgr st') /\
    isAIRunning (mgr st') = false.
Proof.
  eexists. split; [vm_compute; reflexivity|].
  match goal with
  | |- holdsNothing (mgr ?s) /\ _ =>
      destruct (startGeminiLive_rolls_back transportErrors ready
                  (ExternalFailure "onerror") s) as (H1 & H2 & _)
  end.
  - reflexivity.
  - exists exampleAI. reflexivity.
  - repeat split.
  - intros a _. reflexivity.
  - vm_compute. reflexivity.
  - split; assumption.
Defined.

(** ** Restarting *)

(** [stopGeminiLive] on a running session when no call fails. *)
Lemma stopGeminiLive_noFail env st a :
  noFail env ->
  isAIRunning (mgr st) = true ->
  ai (mgr st) = Some a ->
  stopGeminiLive env st
  = (Ok tt,
     mkSt
       (set_currentOutputText ""
          (set_currentInputText ""
             (set_isAIRunning false (cleaned (mgr st)))))
       (cleanedWorld (mgr st)
          (if hasStopLiveSession a
           then logAction StopLiveSession (world st) else world st))).
Proof.
  intros Hnf Hrun Hai. open_state st. destruct a as [[|] hasSend];
    unfold stopGeminiLive; exec_monad; rewrite ?Hnf; exec_monad;
    rewrite cleanup_noFail by assumption; reflexivity.
Qed.

(** X5. A stopped session can be started again.  On a platform where no
    call fails, [stopGeminiLive] on a running session followed by
    [startGeminiLive] ends with [isAIRunning] true and a new capture
    pipeline and timer.  When the handles of the manager are older
    than the next free identity, none of the new identities is one
    that the manager held before the stop, the timer that the stop
    cleared does not fire any more, and the handles are again older
    than the next free identity. *)
Theorem restart_after_stop env st :
  noFail env ->
  userMediaTracks env <> [] ->
  liveOutcome env = LiveOpened ->
  isAIRunning (mgr st) = true ->
  is_Some (ai (mgr st)) ->
  handlesBelow (fresh (world st)) (mgr st) ->
  let n := fresh (world st) in
  exists st1 st2,
    stopGeminiLive env st = (Ok tt, st1) /\
    holdsNothing (mgr st1) /\
    startGeminiLive env st1 = (Ok tt, st2) /\
    isAIRunning (mgr st2) = true /\
    audioStream (mgr st2) = Some (mkMediaStream n (userMediaTracks env)) /\
    audioContext (mgr st2) = Some (mkAudioContext (1 + n) 16000) /\
    sourceNode (mgr st2) = Some (2 + n) /\
    processorNode (mgr st2) = Some (3 + n) /\
    screenshotInterval (mgr st2) = Some (4 + n) /\
    heldIds (mgr st2) = [n; 1 + n; 2 + n; 3 + n; 4 + n] /\
    Forall (fun id => id ∉ heldIds (mgr st)) (heldIds (mgr st2)) /\
    (forall timer,
       screenshotInterval (mgr st) = Some timer ->
       timer ∉ timers (world st2)) /\
    handlesBelow (fresh (world st2)) (mgr st2).
Proof.
  intros Hnf Htracks Hlive Hrun [a Hai] Hbelow n.
  pose proof (stopGeminiLive_noFail env st a Hnf Hrun Hai) as Hstop.
  match type of Hstop with
  | _ = (_, ?s) =>
      assert (Hstart : startGeminiLive env s = (Ok tt, afterStart env s))
        by (apply startGeminiLive_afterStart;
            [assumption|assumption|assumption|reflexivity
            |open_state st; exists a; reflexivity]);
      exists s, (afterStart env s)
  end.
  split; [exact Hstop|]. split; [repeat split|].
  split; [exact Hstart|].
  assert (Hnew : forall id, id ∈ heldIds (mgr st) -> id < n).
  { intros id Hid. unfold handlesBelow in Hbelow.
    rewrite Forall_forall in Hbelow. apply Hbelow, Hid. }
  assert (Htimer : forall timer,
            screenshotInterval (mgr st) = Some timer -> timer < n).
  { intros timer Ht. apply Hnew. unfold heldIds. rewrite Ht.
    rewrite !elem_of_app. do 4 right. apply list_elem_of_here. }
  clear Hbelow Hstop Hstart. subst n. open_state st.
  unfold afterStart, afterOpen.
  destruct (hasStopLiveSession a);
    cbn [mgr world trace microtasks fresh timers playing callbacksSet
         xrDeviceCamera ai audioStream audioContext sourceNode processorNode
         isAIRunning audioQueue isPlayingAudio screenshotInterval
         currentInputText currentOutputText cleaned cleanedWorld logAction
         set_isAIRunning set_screenshotInterval set_timers bumpFresh
         set_currentInputText set_currentOutputText captureStream
         captureContext Nat.add];
    (do 6 (split; [reflexivity|]));
    (split; [reflexivity|]);
    (split;
     [match goal with
      | |- Forall ?P ?l => let l' := eval cbv in l in change (Forall P l')
      end;
      repeat (apply Forall_cons; split;
              [intros Hid; apply Hnew in Hid; lia|]);
      apply Forall_nil_2|]);
    (split;
     [intros timer Ht; pose proof (Htimer timer Ht);
      rewrite Ht; cbn;
      rewrite elem_of_app, list_elem_of_filter, list_elem_of_singleton;
      intros [[Hne _] | ->]; [apply Hne; reflexivity|lia]|]);
    unfold handlesBelow;
    match goal with
    | |- Forall ?P ?l => let l' := eval cbv in l in change (Forall P l')
    end;
    repeat (apply Forall_cons; split; [lia|]); apply Forall_nil_2.
Qed.

Lemma restart_after_stop_witness :
  exists st1 st2,
    stopGeminiLive exampleEnv running = (Ok tt, st1) /\
    startGeminiLive exampleEnv st1 = (Ok tt, st2) /\
    heldIds (mgr running) = [1; 2; 3; 4; 5] /\
    heldIds (mgr st2) = [6; 7; 8; 9; 10] /\
    5 ∉ timers (world st2).
Proof.
  destruct (restart_after_stop exampleEnv running)
    as (st1 & st2 & H1 & _ & H2 & _ & _ & _ & _ & _ & _ & Hids & _ & Ht & _);
    try reflexivity.
  - intros a. reflexivity.
  - discriminate.
  - exists exampleAI. reflexivity.
  - repeat constructor.
  - exists st1, st2. split; [exact H1|]. split; [exact H2|].
    split; [reflexivity|]. split; [exact Hids|]. apply Ht. reflexivity.
Defined.

(** X6. After a spontaneous close the capture pipeline is still in
    place, and a new [startGeminiLive] builds a second one over it: on
    a platform where no call fails it makes no release call, the fields
    of the manager now name the new stream, context and nodes, the old
    timer is kept (with an error on the console), and a later
    [stopGeminiLive] closes only the new context: the context of the
    first session is never closed. *)
Theorem restart_after_close_keeps_old_capture env st ctx timer :
  noFail env ->
  userMediaTracks env <> [] ->
  liveOutcome env = LiveOpened ->
  isAIRunning (mgr st) = true ->
  (exists a, ai (mgr st) = Some a /\ hasStopLiveSession a = true) ->
  audioContext (mgr st) = Some ctx ->
  (ctxId ctx <= fresh (world st))%nat ->
  screenshotInterval (mgr st) = Some timer ->
  let n := fresh (world st) in
  exists st2 st3,
    startGeminiLive env (snd (onclose st)) = (Ok tt, st2) /\
    isAIRunning (mgr st2) = true /\
    audioContext (mgr st2) = Some (captureContext n) /\
    screenshotInterval (mgr st2) = Some timer /\
    timers (world st2) = timers (world st) /\
    trace (world st2)
    = trace (world st) ++ captureActions env n
      ++ [SetLiveCallbacks; StartLiveSession;
          ConsoleError "Screenshot interval already running"] /\
    stopGeminiLive env st2 = (Ok tt, st3) /\
    contextsCreated
      (drop (length (trace (world st))) (trace (world st3)))
    = [captureContext n] /\
    contextsClosed
      (drop (length (trace (world st))) (trace (world st3)))
    = [captureContext n] /\
    ctx <> captureContext n.
Proof.
  intros Hnf Htracks Hlive Hrun (a & Hai & Hstop) Hctx Hid Htimer n.
  assert (Hstart : startGeminiLive env (snd (onclose st))
                   = (Ok tt, afterStart env (snd (onclose st)))).
  { rewrite startGeminiLive_unfold.
    - unfold tryCatch. rewrite startBody_noFail, Hlive; [reflexivity|..];
        try assumption.
      open_state st. exists a. reflexivity.
    - reflexivity.
    - open_state st. exists a. reflexivity. }
  pose proof (stopGeminiLive_noFail env (afterStart env (snd (onclose st))) a
                Hnf) as Hstop'.
  subst n. open_state st. destruct a as [hasStop hasSend]. cbn in Hstop.
  subst hasStop.
  eexists. eexists. split; [exact Hstart|].
  unfold afterStart, afterOpen, onclose in *. cbn in Hstop' |- *.
  rewrite <- !app_assoc.
  repeat (split; [reflexivity|]).
  split; [apply Hstop'; reflexivity|]. clear Hstop' Hstart.
  cbn. rewrite <- !app_assoc, drop_app_length.
  unfold captureContext, contextsCreated, contextsClosed.
  repeat (rewrite ?omap_app; cbn [omap list_omap app]).
  fold contextsCreated. fold contextsClosed.
  rewrite contextsCreated_map, contextsClosed_map.
  split; [reflexivity|]. split; [reflexivity|].
  intros ->. cbn in Hid. lia.
Qed.

Lemma restart_after_close_keeps_old_capture_witness :
  exists st2 st3,
    startGeminiLive exampleEnv (snd (onclose running)) = (Ok tt, st2) /\
    audioContext (mgr st2) = Some (mkAudioContext 7 16000) /\
    stopGeminiLive exampleEnv st2 = (Ok tt, st3) /\
    contextsClosed (trace (world st3)) = [mkAudioContext 7 16000] /\
    contextsCreated (trace (world st3))
    = [mkAudioContext 2 16000; mkAudioContext 7 16000].
Proof.
  destruct (restart_after_close_keeps_old_capture exampleEnv running
              (mkAudioContext 2 16000) 5)
    as (st2 & st3 & H2 & _ & Hc & _ & _ & _ & H3 & _);
    try reflexivity.
  - intros a. reflexivity.
  - discriminate.
  - exists exampleAI. split; reflexivity.
  - cbn. lia.
  - exists st2, st3. split; [exact H2|]. split; [exact Hc|].
    split; [exact H3|].
    vm_compute in H2. injection H2 as <-.
    vm_compute in H3. injection H3 as <-.
    split; reflexivity.
Defined.

(** ** After the transport has closed *)

(** X7. After a spontaneous close nothing is torn down: the frame
    timer keeps firing.  On such a tick the frame is captured, nothing
    is sent to the transport, an error is written to the console, and
    the timer and the capture handles stay as they are. *)
Theorem tick_after_close_sends_nothing env st base64Image :
  callbacksSet (world st) = true ->
  microtasks (world st) = [] ->
  timers (world st) <> [] ->
  is_Some (xrDeviceCamera (mgr st)) ->
  fails env GetSnapshot = false ->
  snapshot env = SnapString base64Image ->
  run [(env, TransportClose); (env, TimerTick)] st
  = Some (mkSt (set_isAIRunning false (mgr st))
            (logActions
               [GetSnapshot; ConsoleError "Failed to capture screenshot:"]
               (world st))) /\
  inputsSent [GetSnapshot; ConsoleError "Failed to capture screenshot:"] = [].
Proof.
  intros Hcb Hmt Htimers [cam Hcam] Hsnap Himg. split; [|reflexivity].
  open_state st. destruct timers0 as [|timer timers0]; [contradiction|].
  cbn [run]. exec. rewrite Hsnap, Himg. exec.
  rewrite <- app_assoc. reflexivity.
Qed.

Lemma tick_after_close_sends_nothing_witness :
  run [(exampleEnv, TransportClose); (exampleEnv, TimerTick)] running
  = Some (mkSt (set_isAIRunning false (mgr running))
            (logActions
               [GetSnapshot; ConsoleError "Failed to capture screenshot:"]
               (world running))).
Proof.
  apply (tick_after_close_sends_nothing exampleEnv running
           "data:image/jpeg;base64,QUJD"); try reflexivity.
  - discriminate.
  - exists 0. reflexivity.
Defined.

(** ** The capture worklet *)

Lemma inputsSent_app l1 l2 :
  inputsSent (l1 ++ l2) = inputsSent l1 ++ inputsSent l2.
Proof. apply omap_app. Qed.

(** X8. The handler of the capture worklet.  A message that is not of
    type audioData, or one that arrives while [isAIRunning] is false,
    changes nothing.  On an open session an audioData block is pushed
    to the transport as exactly one audio chunk with the MIME type
    audio/pcm;rate=16000, whose payload [base64ToArrayBuffer] decodes
    to the block; the handler returns normally even when the transport
    call fails, and no field of the manager changes. *)
Theorem onWorkletMessage_forwards env st isAudioData audioBuffer :
  (isAudioData = false \/ isAIRunning (mgr st) = false ->
   onWorkletMessage env isAudioData audioBuffer st = (Ok tt, st)) /\
  (isAudioData = true ->
   isAIRunning (mgr st) = true ->
   (exists a, ai (mgr st) = Some a /\ hasSendRealtimeInput a = true) ->
   exists payload st',
     onWorkletMessage env isAudioData audioBuffer st = (Ok tt, st') /\
     mgr st' = mgr st /\
     inputsSent (trace (world st'))
     = inputsSent (trace (world st))
       ++ [AudioInput payload "audio/pcm;rate=16000"] /\
     base64ToArrayBuffer payload = Ok audioBuffer).
Proof.
  split.
  - intros H. open_state st.
    destruct H as [-> | H]; [|cbn in H; subst; destruct isAudioData];
      reflexivity.
  - intros -> Hrun (a & Hai & Hsend). open_state st.
    destruct a as [hasStop hasSend]. cbn in Hsend. subst hasSend.
    destruct (arrayBufferToBase64_decodes audioBuffer)
      as (payload & Henc & Hdec).
    exists payload. exec. rewrite Henc. exec.
    destruct (fails env _); eexists;
      (split; [reflexivity|]); (split; [reflexivity|]);
      (split; [|exact Hdec]); cbn [world trace];
      rewrite <- ?app_assoc, inputsSent_app, ?app_nil_r; reflexivity.
Qed.

Lemma onWorkletMessage_forwards_witness :
  onWorkletMessage exampleEnv true [x01; x02] ready = (Ok tt, ready) /\
  exists payload st',
    onWorkletMessage exampleEnv true [x01; x02] running = (Ok tt, st') /\
    base64ToArrayBuffer payload = Ok [x01; x02].
Proof.
  split.
  - apply (onWorkletMessage_forwards exampleEnv ready true [x01; x02]).
    right. reflexivity.
  - destruct (proj2 (onWorkletMessage_forwards exampleEnv running true
                       [x01; x02]))
      as (payload & st' & H & _ & _ & Hdec); try reflexivity.
    + exists exampleAI. split; reflexivity.
    + exists payload, st'. split; assumption.
Defined.

(** ** The frame timer *)

(** X9. [startScreenshotCapture] sets at most one timer.  The first
    call on a manager without a timer sets one with the interval it is
    given; a second call returns normally, writes an error to the
    console, sets no timer and keeps the handle and the interval of the
    first. *)
Theorem startScreenshotCapture_once intervalMs intervalMs' st :
  screenshotInterval (mgr st) = None ->
  let n := fresh (world st) in
  exists st1 st2,
    startScreenshotCapture intervalMs st = (Ok tt, st1) /\
    screenshotInterval (mgr st1) = Some n /\
    timers (world st1) = timers (world st) ++ [n] /\
    trace (world st1) = trace (world st) ++ [SetInterval n intervalMs] /\
    startScreenshotCapture intervalMs' st1 = (Ok tt, st2) /\
    mgr st2 = mgr st1 /\
    timers (world st2) = timers (world st1) /\
    trace (world st2)
    = trace (world st1) ++ [ConsoleError "Screenshot interval already running"].
Proof.
  intros Hnone n. subst n. open_state st.
  eexists. eexists. exec. repeat split.
Qed.

Lemma startScreenshotCapture_once_witness :
  exists st1 st2,
    startScreenshotCapture 1000 ready = (Ok tt, st1) /\
    startScreenshotCapture 50 st1 = (Ok tt, st2) /\
    timers (world st2) = [1].
Proof.
  destruct (startScreenshotCapture_once 1000 50 ready)
    as (st1 & st2 & H1 & _ & Ht1 & _ & H2 & _ & Ht2 & _); [reflexivity|].
  exists st1, st2. split; [exact H1|]. split; [exact H2|].
  rewrite Ht2, Ht1. reflexivity.
Defined.

(** ** Disposal *)

(** X10. [dispose] releases what [cleanup] releases and then calls
    [super.dispose]; it does not ask the transport to close and does
    not touch [isAIRunning] or the transcription texts.  On a running
    session a later [stopGeminiLive] therefore still asks the transport
    to close, finds nothing left to release and clears the flag. *)
Theorem dispose_then_stop env st a :
  noFail env ->
  ai (mgr st) = Some a ->
  hasStopLiveSession a = true ->
  isAIRunning (mgr st) = true ->
  exists st1 st2,
    dispose env st = (Ok tt, st1) /\
    holdsNothing (mgr st1) /\
    isAIRunning (mgr st1) = true /\
    currentInputText (mgr st1) = currentInputText (mgr st) /\
    currentOutputText (mgr st1) = currentOutputText (mgr st) /\
    trace (world st1)
    = trace (world st) ++ cleanupActions (mgr st) ++ [SuperDispose] /\
    stopGeminiLive env st1 = (Ok tt, st2) /\
    isAIRunning (mgr st2) = false /\
    trace (world st2) = trace (world st1) ++ [StopLiveSession].
Proof.
  intros Hnf Hai Hstop Hrun.
  assert (Hdispose : dispose env st
    = (Ok tt, mkSt (cleaned (mgr st))
                (logAction SuperDispose
                   (cleanedWorld (mgr st) (world st))))).
  { unfold dispose, mbind, M_bind, bindM.
    rewrite cleanup_noFail by assumption.
    unfold call, mbind, M_bind, bindM, note, modifyWorld. cbn [mgr world].
    rewrite Hnf. reflexivity. }
  eexists. eexists. split; [exact Hdispose|].
  split; [repeat split|].
  split; [open_state st; reflexivity|].
  split; [reflexivity|]. split; [reflexivity|].
  split; [open_state st; cbn; rewrite <- app_assoc; reflexivity|].
  split.
  - apply (stopGeminiLive_noFail env _ a Hnf).
    + open_state st. reflexivity.
    + open_state st. reflexivity.
  - rewrite Hstop. open_state st. cbn. rewrite app_nil_r.
    split; reflexivity.
Qed.

Lemma dispose_then_stop_witness :
  exists st1 st2,
    dispose exampleEnv running = (Ok tt, st1) /\
    isAIRunning (mgr st1) = true /\
    stopGeminiLive exampleEnv st1 = (Ok tt, st2) /\
    isAIRunning (mgr st2) = false.
Proof.
  destruct (dispose_then_stop exampleEnv running exampleAI)
    as (st1 & st2 & H1 & _ & Hr1 & _ & _ & _ & H2 & Hr2 & _);
    try reflexivity.
  - intros a. reflexivity.
  - exists st1, st2. auto.
Defined.

(** ** Messages without audio *)

Lemma textEvent_nonempty mk transcription :
  (forall s, eventText (mk s) = Some s) ->
  Forall (fun event => eventText event <> Some "")
    (textEvent mk transcription).
Proof.
  intros Hmk. unfold textEvent.
  destruct transcription as [[[s|]]|]; cbn [text]; try constructor.
  destruct (String.eqb_spec s ""); constructor; [|constructor].
  rewrite Hmk. congruence.
Qed.

Lemma handleAIMessage_no_audio_noFail env message st :
  noFail env ->
  noAudio message ->
  handleAIMessage env message st
  = (Ok tt,
     mkSt (mgr st)
       (logActions (map DispatchEvent (dispatchedFor message)) (world st))).
Proof.
  intros Hnf Hno. unfold dispatchedFor, dispatched, textEvent.
  destruct message as [d content]. cbn [data serverContent] in *.
  open_state st.
  assert (Hd : d = None \/ d = Some "") by exact Hno. clear Hno.
  destruct Hd as [-> | ->];
    destruct content as [[[[[input|]]|] [[[output|]]|] [[|]|]]|];
    unfold handleAIMessage;
    cbn [data serverContent inputTranscription outputTranscription
         turnComplete text whenText String.eqb];
    repeat match goal with
           | |- context [String.eqb ?s ""] => destruct (String.eqb s "")
           end;
    exec; rewrite ?Hnf; exec; rewrite ?Hnf; exec; rewrite ?Hnf; exec;
    rewrite ?app_nil_r, <- ?app_assoc; reflexivity.
Qed.

(** X11. For a message without audio, on a platform where no call
    fails, [handleAIMessage] returns normally and leaves every field of
    the manager and the microtask queue as they are: nothing is handed
    to playback.  It dispatches at most three events, in the order
    input transcription, output transcription, turn complete; no event
    carries an empty text, and [turnComplete] is dispatched exactly
    when the marker of the message is true. *)
Theorem handleAIMessage_without_audio env message st :
  noFail env ->
  noAudio message ->
  exists st',
    handleAIMessage env message st = (Ok tt, st') /\
    mgr st' = mgr st /\
    microtasks (world st') = microtasks (world st) /\
    trace (world st')
    = trace (world st) ++ map DispatchEvent (dispatchedFor message) /\
    length (dispatchedFor message) <= 3 /\
    Forall (fun event => eventText event <> Some "") (dispatchedFor message) /\
    (forall content,
       serverContent message = Some content ->
       exists input output,
         dispatchedFor message
         = omap (fun e => e)
             [InputTranscription <$> input; OutputTranscription <$> output;
              if bool_decide (turnComplete content = Some true)
              then Some TurnComplete else None]).
Proof.
  intros Hnf Hno. eexists.
  split; [apply handleAIMessage_no_audio_noFail; assumption|].
  split; [reflexivity|]. split; [reflexivity|]. split; [reflexivity|].
  unfold dispatchedFor. destruct (serverContent message) as [content|].
  2:{ split; [cbn; lia|]. split; [constructor|]. intros ? [=]. }
  unfold dispatched. split; [|split].
  - unfold textEvent.
    destruct (inputTranscription content) as [[[s|]]|],
      (outputTranscription content) as [[[s'|]]|],
      (turnComplete content) as [[|]|]; cbn [text];
      repeat match goal with
             | |- context [String.eqb ?s ""] => destruct (String.eqb s "")
             end; cbn; lia.
  - rewrite !Forall_app. split; [|split].
    + apply textEvent_nonempty. reflexivity.
    + apply textEvent_nonempty. reflexivity.
    + destruct (turnComplete content) as [[|]|]; repeat constructor.
      discriminate.
  - intros ? [= <-]. unfold textEvent.
    destruct (inputTranscription content) as [[[s|]]|],
      (outputTranscription content) as [[[s'|]]|]; cbn [text];
      repeat match goal with
             | |- context [String.eqb ?s ""] => destruct (String.eqb s "")
             end;
      try (exists None, None; destruct (turnComplete content) as [[|]|];
           reflexivity);
      try (exists (Some s), None; destruct (turnComplete content) as [[|]|];
           reflexivity);
      try (exists None, (Some s'); destruct (turnComplete content) as [[|]|];
           reflexivity);
      try (exists None, (Some s); destruct (turnComplete content) as [[|]|];
           reflexivity);
      try (exists (Some s), (Some s'); destruct (turnComplete content) as [[|]|];
           reflexivity).
Qed.

Lemma handleAIMessage_without_audio_witness :
  exists st',
    handleAIMessage exampleEnv
      (mkMessage None
         (Some (mkServerContent (Some (mkTranscription (Some "")))
                  (Some (mkTranscription (Some "hello"))) (Some true))))
      running = (Ok tt, st') /\
    trace (world st')
    = trace (world running)
      ++ [DispatchEvent (OutputTranscription "hello");
          DispatchEvent TurnComplete].
Proof.
  destruct (handleAIMessage_without_audio exampleEnv
              (mkMessage None
                 (Some (mkServerContent (Some (mkTranscription (Some "")))
                          (Some (mkTranscription (Some "hello")))
                          (Some true))))
              running)
    as (st' & H & _ & _ & Ht & _).
  - intros a. reflexivity.
  - left. reflexivity.
  - exists st'. split; [exact H | exact Ht].
Defined.

(** X12. A subscriber that throws ends the handling of the message: if
    the listeners of the [inputTranscription] event throw, the
    exception leaves [handleAIMessage], and neither the output
    transcription nor [turnComplete] of that message is dispatched. *)
Theorem handleAIMessage_listener_throws env message content input st :
  noAudio message ->
  serverContent message = Some content ->
  inputTranscription content = Some (mkTranscription (Some input)) ->
  input <> "" ->
  fails env (DispatchEvent (InputTranscription input)) = true ->
  handleAIMessage env message st
  = (Throw (ExternalFailure "platform"),
     mkSt (mgr st)
       (logAction (DispatchEvent (InputTranscription input)) (world st))).
Proof.
  intros Hno Hcontent Hinput Hne Hfail.
  destruct message as [d c]. cbn [data serverContent] in *. subst c.
  apply String.eqb_neq in Hne.
  destruct content as [i o t]. cbn [inputTranscription] in Hinput. subst i.
  open_state st.
  assert (Hd : d = None \/ d = Some "") by exact Hno. clear Hno.
  destruct Hd as [-> | ->]; unfold handleAIMessage;
    cbn [data serverContent inputTranscription text whenText String.eqb];
    rewrite Hne; exec; rewrite Hfail; reflexivity.
Qed.

Lemma handleAIMessage_listener_throws_witness :
  handleAIMessage listenerThrows
    (mkMessage None
       (Some (mkServerContent (Some (mkTranscription (Some "hi")))
                (Some (mkTranscription (Some "hello"))) (Some true))))
    running
  = (Throw (ExternalFailure "platform"),
     mkSt (mgr running)
       (logAction (DispatchEvent (InputTranscription "hi")) (world running))).
Proof.
  apply (handleAIMessage_listener_throws listenerThrows _
           (mkServerContent (Some (mkTranscription (Some "hi")))
              (Some (mkTranscription (Some "hello"))) (Some true)) "hi");
    try reflexivity.
  - left. reflexivity.
  - discriminate.
Defined.

(** Names the fields of a state, with fixed names. *)
Ltac open_named st :=
  destruct st as [[cam0 ai0 stream0 ctx0 src0 proc0 running0 queue0 busy0
                   timer0 inText0 outText0]
                  [tr0 mts0 n0 tms0 pl0 cbs0]];
  cbn [mgr world trace microtasks fresh timers playing callbacksSet
       xrDeviceCamera ai audioStream audioContext sourceNode processorNode
       isAIRunning audioQueue isPlayingAudio screenshotInterval
       currentInputText currentOutputText] in *;
  subst.

(** ** Payloads that do not decode *)

Lemma resume_dropped_last env st audioData e :
  decodeSegment audioData = Throw e ->
  exists l,
    startedBuffers (l ++ [ConsoleError "Error playing audio chunk:"]) = [] /\
    resumePlayAudioChunk env (Ok tt) audioData st
    = (Ok tt,
       mkSt (mgr st)
         (logActions (l ++ [ConsoleError "Error playing audio chunk:"])
            (world st))).
Proof.
  unfold decodeSegment, createBuffer, newInt16Array. intros Hseg.
  open_named st. exec.
  destruct (base64ToArrayBuffer audioData) as [ab| |]; cbn [bindR] in Hseg;
    try discriminate; exec.
  2:{ exists []. split; reflexivity. }
  destruct ctx0 as [ctx|]; exec.
  2:{ exists []. split; reflexivity. }
  destruct (fails env _); exec.
  { eexists [_]. rewrite <- !app_assoc. split; [|reflexivity]. reflexivity. }
  destruct (length ab / 2 =? 0); cbn [bindR] in Hseg; exec.
  { eexists [_]. rewrite <- !app_assoc. split; [|reflexivity]. reflexivity. }
  destruct (Nat.even (length ab)); cbn [bindR] in Hseg; try discriminate;
    exec.
  eexists [_]. rewrite <- !app_assoc. split; [|reflexivity]. reflexivity.
Qed.

Lemma dropped_trace (trace l : list Action) (a : Action) :
  startedBuffers (l ++ [a]) = [] ->
  startedBuffers (trace ++ l ++ [a]) = startedBuffers trace /\
  last (trace ++ l ++ [a]) = Some a.
Proof.
  intros Hl. split.
  - rewrite startedBuffers_app, Hl, app_nil_r. reflexivity.
  - rewrite app_assoc. apply last_snoc.
Qed.

(** X13. A payload that does not decode is dropped, whatever the
    platform does: the call of [playAudioChunk] and its continuation
    end normally, the queue, the playback flag and the sources that
    sound are as before, no source is started, no continuation is left
    waiting, and the last thing done is an error on the console.  On a
    platform where no call fails, a payload that decodes and is
    enqueued after it is started or waits as if the bad one had never
    arrived. *)
Theorem playAudioChunk_drops_malformed env st audioData e :
  microtasks (world st) = [] ->
  decodeSegment audioData = Throw e ->
  (exists st',
     job env (playAudioChunk env audioData) st = (Ok tt, st') /\
     audioQueue (mgr st') = audioQueue (mgr st) /\
     isPlayingAudio (mgr st') = isPlayingAudio (mgr st) /\
     playing (world st') = playing (world st) /\
     startedBuffers (trace (world st')) = startedBuffers (trace (world st)) /\
     microtasks (world st') = [] /\
     last (trace (world st'))
     = Some (ConsoleError "Error playing audio chunk:")) /\
  (forall next segment st',
     playbackInv st ->
     decodeSegment next = Ok segment ->
     run (map playbackJob [Enqueue audioData; Enqueue next]) st = Some st' ->
     startedBuffers (trace (world st')) ++ audioQueue (mgr st')
     = (startedBuffers (trace (world st)) ++ audioQueue (mgr st))
       ++ [segment]).
Proof.
  intros Hmt Hseg. split.
  - open_named st. exec_job.
    destruct ctx0 as [ctx|];
      [|destruct (fails env (NewAudioContext (mkAudioContext n0 24000)))];
      exec_job.
    2:{ exec. eexists. split; [reflexivity|].
        cbn [mgr world trace microtasks playing audioQueue isPlayingAudio].
        destruct (dropped_trace tr0
                    [NewAudioContext (mkAudioContext n0 24000)]
                    (ConsoleError "Error playing audio chunk:") eq_refl)
          as [Hs Hlast].
        rewrite <- ?app_assoc. repeat split; assumption. }
    + match goal with
      | |- context [resumePlayAudioChunk env (Ok tt) audioData ?s] =>
          destruct (resume_dropped_last env s audioData e Hseg)
            as (l & Hl & Hres); rewrite Hres
      end.
      eexists; (split; [reflexivity|]).
      cbn [mgr world trace logActions microtasks playing audioQueue
           isPlayingAudio].
      rewrite <- ?app_assoc; cbn [app].
      destruct (dropped_trace tr0 l _ Hl) as [Hs Hlast].
      repeat split; assumption.
    + match goal with
      | |- context [resumePlayAudioChunk env (Ok tt) audioData ?s] =>
          destruct (resume_dropped_last env s audioData e Hseg)
            as (l & Hl & Hres); rewrite Hres
      end.
      eexists; (split; [reflexivity|]).
      cbn [mgr world trace logActions microtasks playing audioQueue
           isPlayingAudio].
      rewrite <- ?app_assoc; cbn [app].
      destruct (dropped_trace tr0
                  (NewAudioContext (mkAudioContext n0 24000) :: l) _ Hl)
        as [Hs Hlast].
      repeat split; assumption.
  - intros next segment st' Hinv Hnext Hrun.
    destruct (playback_run [Enqueue audioData; Enqueue next] st st' Hinv Hrun)
      as [_ Hghost].
    rewrite Hghost. unfold segmentsOf, payloads. cbn [omap list_omap].
    rewrite Hseg, Hnext. reflexivity.
Qed.

Lemma playAudioChunk_drops_malformed_witness :
  exists st',
    job exampleEnv (playAudioChunk exampleEnv "?") running = (Ok tt, st') /\
    audioQueue (mgr st') = audioQueue (mgr running) /\
    last (trace (world st'))
    = Some (ConsoleError "Error playing audio chunk:").
Proof.
  destruct (playAudioChunk_drops_malformed exampleEnv running "?"
              InvalidCharacterError)
    as [(st' & H & Hq & _ & _ & _ & _ & Hlast) _].
  - reflexivity.
  - vm_compute. reflexivity.
  - exists st'. split; [exact H | split; [exact Hq | exact Hlast]].
Defined.

(** ** Frames that are not well-formed data URLs *)

(** X14. The data-URL prefix is stripped by position, not by parsing.
    A snapshot that starts with "data:" and holds no comma has no
    element 1 after the split: on an open session the frame is pushed
    to the transport without data ([undefined]) and the tick ends
    normally.  A snapshot with several commas is forwarded as the part
    between the first and the second comma only. *)
Theorem capture_malformed_data_url env st a :
  noFail env ->
  is_Some (xrDeviceCamera (mgr st)) ->
  isAIRunning (mgr st) = true ->
  ai (mgr st) = Some a ->
  hasSendRealtimeInput a = true ->
  (forall rest,
     commaFree rest ->
     snapshot env = SnapString ("data:" +:+ rest) ->
     stripDataUrlPrefix ("data:" +:+ rest) = None /\
     captureAndSendScreenshot env st
     = (Ok tt,
        mkSt (mgr st)
          (logActions
             [GetSnapshot; SendRealtimeInput (VideoInput None "image/jpeg")]
             (world st)))) /\
  (forall meta payload more,
     commaFree meta -> commaFree payload ->
     stripDataUrlPrefix
       ("data:" +:+ meta +:+ String "," (payload +:+ String "," more))
     = Some payload).
Proof.
  intros Hnf [cam Hcam] Hrun Hai Hsend. split.
  - intros rest Hrest Hsnap.
    assert (Hstrip : stripDataUrlPrefix ("data:" +:+ rest) = None).
    { unfold stripDataUrlPrefix. rewrite startsWith_data.
      rewrite split_commaFree; [reflexivity|].
      apply commaFree_app; [|exact Hrest].
      repeat constructor; discriminate. }
    split; [exact Hstrip|].
    open_named st. destruct a as [hasStop hasSend]. cbn in Hsend. subst.
    exec. rewrite !Hnf, Hsnap. exec. rewrite Hstrip. exec.
    rewrite !Hnf. exec. rewrite <- !app_assoc. reflexivity.
  - intros meta payload more Hm Hp. unfold stripDataUrlPrefix.
    rewrite startsWith_data, <- string_app_assoc.
    rewrite split_comma.
    + rewrite split_comma by exact Hp. reflexivity.
    + apply commaFree_app; [|exact Hm]. repeat constructor; discriminate.
Qed.

Lemma capture_malformed_data_url_witness :
  captureAndSendScreenshot
    (mkEnv (fun _ => false) [7] LiveOpened (SnapString "data:image/jpeg"))
    running
  = (Ok tt,
     mkSt (mgr running)
       (logActions
          [GetSnapshot; SendRealtimeInput (VideoInput None "image/jpeg")]
          (world running))) /\
  stripDataUrlPrefix "data:a,QUJD,x" = Some "QUJD".
Proof.
  destruct (capture_malformed_data_url
              (mkEnv (fun _ => false) [7] LiveOpened
                 (SnapString "data:image/jpeg"))
              running exampleAI) as [H1 H2].
  - intros action. reflexivity.
  - exists 0. reflexivity.
  - reflexivity.
  - reflexivity.
  - reflexivity.
  - split.
    + apply (H1 "image/jpeg"); [|reflexivity].
      repeat constructor; discriminate.
    + apply (H2 "a" "QUJD" "x"); repeat constructor; discriminate.
Defined.

(** ** What a payload decodes to *)

(** X15. The segment that [playAudioChunk] builds, by the bytes that the
    payload decodes to.  A payload that [atob] rejects raises its
    error.  Fewer than two bytes make [createBuffer] raise
    NotSupportedError (for a single byte before the [Int16Array] view is
    taken); an odd number of bytes from three on makes the view raise
    RangeError; an even number n >= 2 gives one channel at 24000 Hz
    whose samples are the n/2 little-endian 16-bit integers, each
    divided by 32768. *)
Theorem decodeSegment_cases audioData :
  (forall e,
     base64ToArrayBuffer audioData = Throw e ->
     decodeSegment audioData = Throw e) /\
  (forall arrayBuffer,
     base64ToArrayBuffer audioData = Ok arrayBuffer ->
     decodeSegment audioData
     = if length arrayBuffer <? 2 then Throw NotSupportedError
       else if Nat.even (length arrayBuffer)
            then Ok (mkAudioBuffer 1 24000
                       (map normalize (int16Elements arrayBuffer)))
            else Throw RangeError).
Proof.
  unfold decodeSegment, createBuffer, newInt16Array. split.
  - intros e ->. reflexivity.
  - intros arrayBuffer ->. cbn [bindR].
    destruct arrayBuffer as [|lo [|hi r]]; try reflexivity.
    change (length (lo :: hi :: r)) with (1 * 2 + length r).
    rewrite Nat.div_add_l by discriminate.
    cbn [Nat.add Nat.mul Nat.eqb Nat.ltb Nat.leb bindR].
    destruct (Nat.even (S (S (length r)))) eqn:Heven; cbn [bindR];
      [|reflexivity].
    cbn [numberOfChannels sampleRate channelData]. do 2 f_equal.
    apply fill_loop.
    rewrite length_replicate, int16Elements_length.
    change (length (lo :: hi :: r)) with (1 * 2 + length r).
    rewrite Nat.div_add_l by discriminate. reflexivity.
Qed.

Lemma decodeSegment_cases_witness :
  decodeSegment "?" = Throw InvalidCharacterError /\
  decodeSegment "AA==" = Throw NotSupportedError /\
  decodeSegment "AAAA" = Throw RangeError /\
  decodeSegment "AAD/fw=="
  = Ok (mkAudioBuffer 1 24000 (map normalize [0; 32767]%Z)).
Proof.
  split; [|split; [|split]].
  - apply (proj1 (decodeSegment_cases "?")). vm_compute. reflexivity.
  - apply (proj2 (decodeSegment_cases "AA==") [x00]). vm_compute. reflexivity.
  - apply (proj2 (decodeSegment_cases "AAAA") [x00; x00; x00]).
    vm_compute. reflexivity.
  - apply (proj2 (decodeSegment_cases "AAD/fw==") [x00; x00; xff; x7f]).
    vm_compute. reflexivity.
Defined.

(** * ScreenshotSynthesizer *)

(** ** Typed arrays *)

Lemma subarray_splice (pre row post : list byte) off n :
  length pre = off -> length row = n ->
  subarray (pre ++ row ++ post) off (off + n) = row.
Proof.
  intros <- <-. unfold subarray.
  rewrite drop_app_length.
  replace (length pre + length row - length pre) with (length row) by lia.
  apply take_app_length.
Qed.

Lemma typedArraySet_splice (pre old new post : list byte) off :
  length pre = off -> length old = length new ->
  typedArraySet (pre ++ old ++ post) new off = Ok (pre ++ new ++ post).
Proof.
  intros <- Hlen. unfold typedArraySet.
  rewrite !length_app.
  destruct (Nat.ltb_spec (length pre + (length old + length post))
              (length new + length pre)) as [Hlt|_]; [lia|].
  rewrite take_app_length. do 3 f_equal.
  rewrite drop_app_ge by lia.
  replace (length pre + length new - length pre) with (length old) by lia.
  apply drop_app_length.
Qed.

Lemma typedArraySet_whole (target source : list byte) :
  length target = length source ->
  typedArraySet target source 0 = Ok source.
Proof.
  intros Hlen.
  pose proof (typedArraySet_splice [] target source [] 0 eq_refl Hlen) as H.
  rewrite !app_nil_r in H. exact H.
Qed.

(** ** The rows of an image *)

Lemma flipRow_swap width height y (pre top mid bot post temp : list byte) :
  length pre = y * (width * 4) ->
  length top = width * 4 ->
  length bot = width * 4 ->
  length temp = width * 4 ->
  length pre + length top + length mid = (height - 1 - y) * (width * 4) ->
  flipRow width height y (pre ++ top ++ mid ++ bot ++ post, temp)
  = Ok (pre ++ bot ++ mid ++ top ++ post, top).
Proof.
  intros Hpre Htop Hbot Htemp Hmid. unfold flipRow.
  rewrite subarray_splice by assumption.
  rewrite typedArraySet_whole by congruence. cbn [bindR].
  replace (pre ++ top ++ mid ++ bot ++ post)
    with ((pre ++ top ++ mid) ++ bot ++ post) at 2
    by (rewrite <- !app_assoc; reflexivity).
  rewrite subarray_splice by (rewrite ?length_app; lia).
  rewrite typedArraySet_splice by congruence. cbn [bindR].
  replace (pre ++ bot ++ mid ++ bot ++ post)
    with ((pre ++ bot ++ mid) ++ bot ++ post)
    by (rewrite <- !app_assoc; reflexivity).
  rewrite typedArraySet_splice by (rewrite ?length_app; lia).
  cbn [bindR]. rewrite <- !app_assoc. reflexivity.
Qed.

Lemma flipRow_middle width height y (pre row post temp : list byte) :
  length pre = y * (width * 4) ->
  length row = width * 4 ->
  length temp = width * 4 ->
  height - 1 - y = y ->
  flipRow width height y (pre ++ row ++ post, temp)
  = Ok (pre ++ row ++ post, row).
Proof.
  intros Hpre Hrow Htemp Hy. unfold flipRow. rewrite Hy.
  rewrite subarray_splice by assumption.
  rewrite typedArraySet_whole by congruence. cbn [bindR].
  rewrite typedArraySet_splice by congruence. cbn [bindR].
  rewrite typedArraySet_splice by congruence. reflexivity.
Qed.

(** The loop from row [y] on, when the rows before [y] and behind
    [height - 1 - y] are done: the rows in between are reversed. *)
Lemma flip_loop width height :
  forall n (rows : list (list byte)) y fuel (pre post temp : list byte),
    length rows = n ->
    Forall (fun row => length row = width * 4) rows ->
    height = 2 * y + length rows ->
    length pre = y * (width * 4) ->
    length temp = width * 4 ->
    length rows < fuel ->
    exists temp',
      forLoop fuel (fun y _ => 2 * y <? height) (flipRow width height) y
        (pre ++ concat rows ++ post, temp)
      = Ok (pre ++ concat (reverse rows) ++ post, temp') /\
      length temp' = width * 4.
Proof.
  induction n as [n IH] using lt_wf_ind.
  intros rows y fuel pre post temp Hn Hrows Hh Hpre Htemp Hfuel.
  destruct fuel as [|fuel]; [lia|]. cbn [forLoop].
  destruct rows as [|top rows].
  { exists temp. split; [|assumption].
    destruct (Nat.ltb_spec (2 * y) height) as [Hlt|_]; [cbn in Hh; lia|].
    reflexivity. }
  destruct (Nat.ltb_spec (2 * y) height) as [_|Hge];
    [|cbn [length] in Hh; lia].
  apply Forall_cons in Hrows as [Htop Hrows].
  destruct (decide (rows = [])) as [->|Hne].
  - exists top. cbn [concat reverse rev_append app length] in *.
    rewrite app_nil_r.
    rewrite flipRow_middle by (try assumption; lia). cbn [bindR].
    destruct fuel as [|fuel]; [cbn in Hfuel; lia|]. cbn [forLoop].
    destruct (Nat.ltb_spec (2 * S y) height) as [Hlt|_]; [lia|].
    split; [reflexivity|assumption].
  - destruct (exists_last Hne) as (mid & bot & ->).
    apply Forall_app in Hrows as [Hmid Hbot].
    rewrite Forall_singleton in Hbot.
    cbn [length] in *. rewrite !length_app in *. cbn [length] in *.
    rewrite concat_cons, concat_app. cbn [concat]. rewrite app_nil_r.
    rewrite <- !app_assoc.
    assert (Hlen : length (concat mid) = length mid * (width * 4)).
    { clear -Hmid. induction Hmid as [|row mid Hrow _ IHm]; [reflexivity|].
      cbn. rewrite length_app, IHm, Hrow. reflexivity. }
    rewrite flipRow_swap by (try assumption; rewrite Hlen; nia).
    cbn [bindR].
    destruct (IH (length mid) ltac:(lia) mid (S y) fuel (pre ++ bot)
                (top ++ post) top eq_refl Hmid ltac:(lia)
                ltac:(rewrite length_app; lia) Htop ltac:(lia))
      as (temp' & Hloop & Htemp').
    exists temp'. split; [|assumption].
    rewrite <- !app_assoc in Hloop. rewrite Hloop.
    rewrite reverse_cons, reverse_app. cbn [reverse rev_append].
    rewrite !concat_app. cbn [concat app]. rewrite !app_nil_r.
    rewrite <- !app_assoc. reflexivity.
Qed.

Lemma flip_rows width height (rows : list (list byte)) (rest : list byte) :
  Forall (fun row => length row = width * 4) rows ->
  length rows = height ->
  flipBufferVertically (concat rows ++ rest) width height
  = Ok (concat (reverse rows) ++ rest).
Proof.
  intros Hrows Hlen. unfold flipBufferVertically.
  destruct (flip_loop width height (length rows) rows 0 (S height) [] rest
              (replicate (width * 4) x00) eq_refl Hrows)
    as (temp' & Hloop & _);
    [lia|reflexivity|apply length_replicate|lia|].
  cbn [app] in Hloop. rewrite Hloop. reflexivity.
Qed.

Lemma concat_rows bytesPerRow (buffer : list byte) height :
  concat (map (rowOf bytesPerRow buffer) (seq 0 height))
  = take (height * bytesPerRow) buffer.
Proof.
  induction height as [|height IH]; [reflexivity|].
  rewrite seq_S, map_app, concat_app, IH. cbn [map concat Nat.add].
  rewrite app_nil_r. unfold rowOf.
  rewrite take_take_drop. f_equal. lia.
Qed.

Lemma rows_uniform bytesPerRow (buffer : list byte) height :
  height * bytesPerRow <= length buffer ->
  Forall (fun row => length row = bytesPerRow)
    (map (rowOf bytesPerRow buffer) (seq 0 height)).
Proof.
  intros Hlen. apply Forall_fmap, Forall_forall. intros y Hy.
  apply elem_of_seq in Hy. unfold rowOf. cbn.
  rewrite length_take, length_drop. nia.
Qed.

Lemma concat_uniform_length bytesPerRow (rows : list (list byte)) :
  Forall (fun row => length row = bytesPerRow) rows ->
  length (concat rows) = length rows * bytesPerRow.
Proof.
  induction 1 as [|row rows Hrow _ IH]; [reflexivity|].
  cbn. rewrite length_app, IH, Hrow. reflexivity.
Qed.

Lemma rowOf_concat bytesPerRow (rows : list (list byte)) rest y row :
  Forall (fun row => length row = bytesPerRow) rows ->
  rows !! y = Some row ->
  rowOf bytesPerRow (concat rows ++ rest) y = row.
Proof.
  intros Hrows. revert y.
  induction Hrows as [|top rows Htop _ IH]; intros y Hy; [discriminate|].
  unfold rowOf in *. destruct y as [|y]; cbn in Hy.
  - injection Hy as ->. cbn [concat Nat.mul drop].
    rewrite <- app_assoc. apply take_app_length'. congruence.
  - cbn [concat Nat.mul]. rewrite <- app_assoc.
    rewrite drop_app_add' by congruence. apply IH, Hy.
Qed.

(** X16. [flipBufferVertically] on a buffer that holds the
    [width * height * 4] bytes of an image mirrors the image: it ends
    normally, the row [y] of the result is the row [height - 1 - y] of
    the input, the length and the bytes behind the image are as
    before, and a second call restores the input. *)
Theorem flipBufferVertically_mirrors buffer width height :
  width * height * 4 <= length buffer ->
  exists flipped,
    flipBufferVertically buffer width height = Ok flipped /\
    length flipped = length buffer /\
    (forall y,
       y < height ->
       rowOf (width * 4) flipped y
       = rowOf (width * 4) buffer (height - 1 - y)) /\
    drop (width * height * 4) flipped = drop (width * height * 4) buffer /\
    flipBufferVertically flipped width height = Ok buffer.
Proof.
  intros Hlen.
  set (rows := map (rowOf (width * 4) buffer) (seq 0 height)).
  set (rest := drop (height * (width * 4)) buffer).
  assert (Hrows : Forall (fun row => length row = width * 4) rows)
    by (apply rows_uniform; lia).
  assert (Hheight : length rows = height)
    by (unfold rows; rewrite length_map, length_seq; reflexivity).
  assert (Hbuffer : buffer = concat rows ++ rest)
    by (unfold rows, rest; rewrite concat_rows; symmetry;
        apply take_drop).
  assert (Hreverse : Forall (fun row => length row = width * 4)
                       (reverse rows))
    by (rewrite Forall_reverse; exact Hrows).
  exists (concat (reverse rows) ++ rest). split; [|split; [|split; [|split]]].
  - rewrite Hbuffer at 1. apply flip_rows; assumption.
  - rewrite Hbuffer at 1.
    rewrite !length_app, !(concat_uniform_length (width * 4)) by assumption.
    rewrite length_reverse. reflexivity.
  - intros y Hy. apply rowOf_concat; [exact Hreverse|].
    rewrite reverse_lookup by lia. rewrite Hheight.
    unfold rows. rewrite list_lookup_fmap, lookup_seq_lt by lia.
    cbn. do 2 f_equal. lia.
  - replace (width * height * 4) with (height * (width * 4)) by lia.
    rewrite drop_app_length'
      by (rewrite (concat_uniform_length (width * 4)), length_reverse
            by assumption; lia).
    reflexivity.
  - rewrite flip_rows by (rewrite ?length_reverse; assumption).
    rewrite reverse_involutive. f_equal. symmetry. exact Hbuffer.
Qed.

Lemma flipBufferVertically_mirrors_witness :
  flipBufferVertically
    [x01; x02; x03; x04; x05; x06; x07; x08; x09; x0a; x0b; x0c; xff] 1 3
  = Ok [x09; x0a; x0b; x0c; x05; x06; x07; x08; x01; x02; x03; x04; xff].
Proof.
  destruct (flipBufferVertically_mirrors
              [x01; x02; x03; x04; x05; x06; x07; x08; x09; x0a; x0b; x0c;
               xff] 1 3) as (flipped & H & _); [cbn; lia|].
  rewrite H. f_equal. vm_compute in H. injection H as <-. reflexivity.
Defined.

(** X17. On a buffer shorter than [width * height * 4] bytes
    [flipBufferVertically] throws a RangeError: the last row of the
    image is not there to be written. *)
Theorem flipBufferVertically_short_buffer buffer width height :
  length buffer < width * height * 4 ->
  flipBufferVertically buffer width height = Throw RangeError.
Proof.
  intros Hlen. unfold flipBufferVertically.
  cbn [forLoop].
  destruct (Nat.ltb_spec (2 * 0) height) as [Hh|Hh]; [|nia].
  unfold flipRow, typedArraySet, subarray.
  rewrite length_replicate, length_take, length_drop.
  destruct (Nat.ltb_spec (width * 4)
              ((0 * (width * 4) + width * 4 - 0 * (width * 4))
                 `min` (length buffer - 0 * (width * 4)) + 0)) as [Hlt|_];
    [lia|].
  cbn [bindR]. rewrite length_take, length_drop.
  destruct (Nat.ltb_spec (length buffer)
              (((height - 1 - 0) * (width * 4) + width * 4
                - (height - 1 - 0) * (width * 4))
                 `min` (length buffer - (height - 1 - 0) * (width * 4))
               + 0 * (width * 4))) as [Hlt|_]; [lia|].
  cbn [bindR].
  match goal with
  | |- context [length ?t <? length ?s + ?o] =>
      destruct (Nat.ltb_spec (length t) (length s + o)) as [_|Hge]
  end; [reflexivity|].
  exfalso. revert Hge.
  rewrite !length_app, !length_take, !length_drop, length_replicate.
  nia.
Qed.

Lemma flipBufferVertically_short_buffer_witness :
  flipBufferVertically [x01; x02; x03; x04; x05; x06; x07] 1 2
  = Throw RangeError.
Proof.
  apply flipBufferVertically_short_buffer. cbn. lia.
Defined.

(** ** Pending requests *)

Lemma resolve_loop resolves url :
  forall (todo kept junk : list PendingScreenshotRequest) calls fuel,
    length todo < fuel ->
    exists junk',
      forLoop fuel (fun i s => i <? length (requests s))
        (resolveBody resolves url) (length kept + length junk)
        (mkCompaction (kept ++ junk ++ todo) (length kept) calls)
      = Ok (mkCompaction
              (kept
                 ++ List.filter (fun request => negb (resolves request)) todo
                 ++ junk')
              (length kept
               + length (List.filter
                           (fun request => negb (resolves request)) todo))
              (calls
                 ++ map (fun request => mkResolution (promise request) url)
                      (List.filter resolves todo))).
Proof.
  induction todo as [|request todo IH]; intros kept junk calls fuel Hfuel;
    (destruct fuel as [|fuel]; [cbn in Hfuel; lia|]); cbn [forLoop requests].
  - exists junk. rewrite !length_app, Nat.add_0_r.
    cbn [length List.filter map app]. rewrite Nat.ltb_irrefl, !app_nil_r.
    rewrite Nat.add_0_r. reflexivity.
  - destruct (Nat.ltb_spec (length kept + length junk)
                (length (kept ++ junk ++ request :: todo))) as [_|Hge];
      [|rewrite !length_app in Hge; cbn in Hge; lia].
    unfold resolveBody at 1. cbn [requests remainingRequests resolutions].
    assert (Hread : (kept ++ junk ++ request :: todo)
                      !! (length kept + length junk) = Some request).
    { rewrite lookup_app_r by lia.
      replace (length kept + length junk - length kept) with (length junk)
        by lia.
      rewrite lookup_app_r by lia. rewrite Nat.sub_diag. reflexivity. }
    rewrite Hread. cbn [List.filter].
    destruct (resolves request) eqn:Hres; cbn [negb bindR map].
    + destruct (IH kept (junk ++ [request])
                  (calls ++ [mkResolution (promise request) url]) fuel)
        as (junk' & Hloop); [cbn in Hfuel; lia|].
      exists junk'.
      rewrite length_app, <- ?app_assoc in Hloop. cbn [length app] in Hloop.
      replace (S (length kept + length junk))
        with (length kept + (length junk + 1)) by lia.
      rewrite Hloop. rewrite <- ?app_assoc. reflexivity.
    + assert (Hwrite : exists junk1,
                <[length kept := request]> (kept ++ junk ++ request :: todo)
                = (kept ++ [request]) ++ junk1 ++ todo /\
                length junk1 = length junk).
      { rewrite insert_app_r_alt by lia. rewrite Nat.sub_diag.
        destruct junk as [|j junk].
        - exists []. rewrite <- app_assoc. split; reflexivity.
        - exists (junk ++ [request]). cbn [app insert list_insert].
          rewrite <- ?app_assoc. split; [reflexivity|].
          rewrite length_app. cbn. lia. }
      destruct Hwrite as (junk1 & -> & Hjunk1).
      destruct (IH (kept ++ [request]) junk1 calls fuel)
        as (junk' & Hloop); [cbn in Hfuel; lia|].
      exists junk'.
      rewrite length_app in Hloop. cbn [length] in Hloop.
      replace (S (length kept + length junk))
        with (length kept + 1 + length junk1) by lia.
      replace (S (length kept)) with (length kept + 1) by lia.
      rewrite Hloop. rewrite <- ?app_assoc. cbn [length app].
      do 2 f_equal. lia.
Qed.

Lemma resolveRequests_filter resolves url pending :
  resolveRequests resolves url pending
  = Ok (List.filter (fun request => negb (resolves request)) pending,
        map (fun request => mkResolution (promise request) url)
          (List.filter resolves pending)).
Proof.
  unfold resolveRequests.
  destruct (resolve_loop resolves url pending [] [] [] (S (length pending)))
    as (junk' & Hloop); [lia|].
  cbn [app length Nat.add] in Hloop. rewrite Hloop. cbn [bindR].
  cbn [remainingRequests requests resolutions].
  rewrite take_app_length. reflexivity.
Qed.

(** X18. The two in-place loops split the array of pending requests
    without reordering it.  [resolveVirtualOnlyRequests] calls
    [resolve] with the image once for every request without
    [overlayOnCamera], in the order of the array, and leaves the other
    requests in the array in their order; [resolveVirtualRealRequests]
    does the same with the two kinds exchanged.  Neither throws. *)
Theorem resolve_requests_partition url (pending : list PendingScreenshotRequest) :
  resolveVirtualOnlyRequests url pending
  = Ok (List.filter (fun request => overlayOnCamera request) pending,
        map (fun request => mkResolution (promise request) url)
          (List.filter (fun request => negb (overlayOnCamera request))
             pending)) /\
  resolveVirtualRealRequests url pending
  = Ok (List.filter (fun request => negb (overlayOnCamera request)) pending,
        map (fun request => mkResolution (promise request) url)
          (List.filter (fun request => overlayOnCamera request) pending)).
Proof.
  unfold resolveVirtualOnlyRequests, resolveVirtualRealRequests.
  rewrite !resolveRequests_filter. split; [|reflexivity].
  do 2 f_equal. apply filter_ext. intros request.
  apply negb_involutive.
Qed.

(** ** Frames *)

Lemma forallb_negb_existsb {A} (f : A -> bool) (l : list A) :
  forallb (fun x => negb (f x)) l = negb (existsb f l).
Proof.
  induction l as [|x l IH]; [reflexivity|].
  cbn. rewrite IH. destruct (f x); reflexivity.
Qed.

Lemma filter_none {A} (f : A -> bool) (l : list A) :
  existsb f l = false ->
  List.filter f l = [] /\ List.filter (fun x => negb (f x)) l = l.
Proof.
  induction l as [|x l IH]; [split; reflexivity|].
  cbn. destruct (f x); [discriminate|]. cbn. intros H.
  destruct (IH H) as [-> ->]. split; reflexivity.
Qed.

(** The requests that a frame serves. *)
Lemma frame_cases env s :
  frame env s
  = let pending := pendingScreenshotRequests s in
    let resolution url request := mkResolution (promise request) url in
    if length pending =? 0 then Ok (s, None)
    else if negb (hasRenderTarget env) then Ok (s, Some ExpectingRenderTarget)
    else if existsb (fun request => overlayOnCamera request) pending
    then match deviceCamera env with
         | None => Ok (s, Some NoDeviceCamera)
         | Some loaded =>
             if loaded && negb (String.eqb (virtualRealImage env) "")
             then Ok (mkSynthesizer
                        (List.filter
                           (fun request => negb (overlayOnCamera request))
                           pending)
                        (settled s
                           ++ map (resolution (virtualRealImage env))
                                (List.filter
                                   (fun request => overlayOnCamera request)
                                   pending)),
                      None)
             else Ok (s, None)
         end
    else Ok (mkSynthesizer []
               (settled s ++ map (resolution (virtualImage env)) pending),
             None).
Proof.
  destruct s as [pending done]. unfold frame, onAfterRender.
  cbn [pendingScreenshotRequests settled].
  destruct (length pending =? 0); [reflexivity|].
  destruct (hasRenderTarget env); cbn [negb]; [|reflexivity].
  rewrite forallb_negb_existsb.
  destruct (existsb (fun request => overlayOnCamera request) pending)
    eqn:Hsome; cbn [negb andb app fold_left].
  - destruct (deviceCamera env) as [[|]|] eqn:Hcam;
      cbn [fold_left app bindR complete];
      rewrite ?Hcam; try reflexivity.
    destruct (String.eqb (virtualRealImage env) ""); [reflexivity|].
    unfold resolveVirtualRealRequests.
    rewrite resolveRequests_filter. reflexivity.
  - cbn [bindR complete]. unfold resolveVirtualOnlyRequests.
    rewrite resolveRequests_filter. cbn [bindR fst snd].
    destruct (filter_none _ _ Hsome) as [Hnone Hall].
    cbv beta. cbn [pendingScreenshotRequests settled]. rewrite Hall.
    replace (List.filter
               (fun request => negb (negb (overlayOnCamera request))) pending)
      with (List.filter (fun request => overlayOnCamera request) pending)
      by (apply filter_ext; intros; symmetry; apply negb_involutive).
    rewrite Hnone. reflexivity.
Qed.

Lemma filter_split_perm {A} (f : A -> bool) (l : list A) :
  Permutation l
    (List.filter (fun x => negb (f x)) l ++ List.filter f l).
Proof.
  induction l as [|x l IH]; [constructor|].
  cbn. destruct (f x); cbn.
  - rewrite <- Permutation_middle. constructor. exact IH.
  - constructor. exact IH.
Qed.

Lemma filter_filter_negb {A} (f : A -> bool) (l : list A) :
  List.filter (fun x => negb (f x)) (List.filter (fun x => negb (f x)) l)
  = List.filter (fun x => negb (f x)) l /\
  existsb f (List.filter (fun x => negb (f x)) l) = false.
Proof.
  induction l as [|x l [IH1 IH2]]; [split; reflexivity|].
  cbn. destruct (f x) eqn:Hx; cbn; rewrite ?Hx; cbn; [split; assumption|].
  rewrite IH1. split; [reflexivity|assumption].
Qed.

(** X19. A frame neither loses a request nor settles one twice:
    [onAfterRender] and the pipelines that it starts end without a
    TypeError, and the requests that waited before the frame are those
    that wait after it together with those whose [resolve] was called
    in it, once each.  A frame in which [onAfterRender] throws settles
    nothing.  While a request with [overlayOnCamera] waits, a frame
    settles no request without it: these requests all still wait, in
    their order. *)
Theorem frame_conserves_requests env s :
  exists s' error new,
    frame env s = Ok (s', error) /\
    settled s' = settled s ++ new /\
    Permutation (map promise (pendingScreenshotRequests s))
      (map promise (pendingScreenshotRequests s')
         ++ map resolvedPromise new) /\
    (error <> None -> s' = s) /\
    (existsb (fun request => overlayOnCamera request)
       (pendingScreenshotRequests s) = true ->
     List.filter (fun request => negb (overlayOnCamera request))
       (pendingScreenshotRequests s')
     = List.filter (fun request => negb (overlayOnCamera request))
         (pendingScreenshotRequests s)).
Proof.
  rewrite frame_cases. destruct s as [pending done].
  cbn [pendingScreenshotRequests settled].
  assert (Hstay : forall error : option ScreenshotError,
    exists s' error' new,
      Ok (mkSynthesizer pending done, error) = Ok (s', error') /\
      settled s' = done ++ new /\
      Permutation (map promise pending)
        (map promise (pendingScreenshotRequests s')
           ++ map resolvedPromise new) /\
      (error' <> None -> s' = mkSynthesizer pending done) /\
      (existsb (fun request => overlayOnCamera request) pending = true ->
       List.filter (fun request => negb (overlayOnCamera request))
         (pendingScreenshotRequests s')
       = List.filter (fun request => negb (overlayOnCamera request))
           pending)).
  { intros error. exists (mkSynthesizer pending done), error, [].
    cbn. rewrite !app_nil_r. repeat split; reflexivity. }
  destruct (length pending =? 0); [apply Hstay|].
  destruct (hasRenderTarget env); cbn [negb]; [|apply Hstay].
  destruct (existsb (fun request => overlayOnCamera request) pending)
    eqn:Hsome.
  - destruct (deviceCamera env) as [loaded|]; [|apply Hstay].
    destruct (loaded && negb (String.eqb (virtualRealImage env) ""));
      [|apply Hstay].
    eexists _, None, _. split; [reflexivity|].
    cbn [pendingScreenshotRequests settled].
    split; [reflexivity|]. split; [|split].
    + rewrite map_map. cbn [resolvedPromise]. rewrite <- map_app.
      apply Permutation_map, filter_split_perm.
    + intros H. contradiction.
    + intros _. apply filter_filter_negb.
  - eexists _, None, _. split; [reflexivity|].
    cbn [pendingScreenshotRequests settled].
    split; [reflexivity|]. split; [|split].
    + rewrite map_map. cbn [map app resolvedPromise]. reflexivity.
    + intros H. contradiction.
    + discriminate.
Qed.

Lemma frame_conserves_requests_witness :
  exists s' error,
    frame (mkFrameEnv true (Some true) "data:v1" "data:r1")
      (mkSynthesizer
         [mkRequest 1 false; mkRequest 2 true; mkRequest 3 false] [])
    = Ok (s', error) /\
    List.filter (fun request => negb (overlayOnCamera request))
      (pendingScreenshotRequests s')
    = [mkRequest 1 false; mkRequest 3 false].
Proof.
  destruct (frame_conserves_requests
              (mkFrameEnv true (Some true) "data:v1" "data:r1")
              (mkSynthesizer
                 [mkRequest 1 false; mkRequest 2 true; mkRequest 3 false] []))
    as (s' & error & new & H & _ & _ & _ & Hwait).
  exists s', error. split; [exact H|].
  rewrite Hwait; reflexivity.
Defined.

(** X20. Two frames serve every request.  With a render target and a
    loaded device camera, two successive frames whose pipelines
    complete leave no request waiting and throw nothing: when a
    request with [overlayOnCamera] waits, the first frame resolves the
    requests of that kind with the image over the camera and the
    second resolves the others with the virtual image; otherwise the
    first frame resolves them all. *)
Theorem two_frames_drain env1 env2 s :
  hasRenderTarget env1 = true -> hasRenderTarget env2 = true ->
  deviceCamera env1 = Some true ->
  virtualRealImage env1 <> "" ->
  let pending := pendingScreenshotRequests s in
  let overlay := List.filter (fun request => overlayOnCamera request) pending in
  let others :=
    List.filter (fun request => negb (overlayOnCamera request)) pending in
  let resolution url request := mkResolution (promise request) url in
  frames [env1; env2] s
  = Ok (mkSynthesizer []
          (settled s
             ++ if existsb (fun request => overlayOnCamera request) pending
                then map (resolution (virtualRealImage env1)) overlay
                       ++ map (resolution (virtualImage env2)) others
                else map (resolution (virtualImage env1)) pending),
        []).
Proof.
  intros Htarget1 Htarget2 Hcam Himage. cbv zeta. cbn [frames].
  rewrite !frame_cases. destruct s as [pending done].
  cbn [pendingScreenshotRequests settled]. rewrite Htarget1, Hcam.
  apply String.eqb_neq in Himage. rewrite Himage. cbn [negb andb].
  destruct pending as [|request pending].
  { cbn. rewrite ?app_nil_r. reflexivity. }
  cbn [length Nat.eqb].
  destruct (existsb (fun request => overlayOnCamera request)
              (request :: pending)) eqn:Hsome; cbn [bindR fst snd].
  - rewrite frame_cases. cbn [pendingScreenshotRequests settled].
    rewrite Htarget2. cbn [negb].
    destruct (filter_filter_negb (fun request => overlayOnCamera request)
                (request :: pending)) as [_ Hnone].
    rewrite Hnone.
    destruct (List.filter (fun request => negb (overlayOnCamera request))
                (request :: pending)) as [|other others];
      cbn [length Nat.eqb bindR fst snd map app];
      rewrite ?app_nil_r, <- ?app_assoc; reflexivity.
  - rewrite frame_cases. cbn [pendingScreenshotRequests settled length Nat.eqb].
    cbn [bindR fst snd app]. rewrite ?app_nil_r. reflexivity.
Qed.

Lemma two_frames_drain_witness :
  frames
    [mkFrameEnv true (Some true) "data:v1" "data:r1";
     mkFrameEnv true (Some true) "data:v2" "data:r2"]
    (mkSynthesizer
       [mkRequest 1 false; mkRequest 2 true; mkRequest 3 false] [])
  = Ok (mkSynthesizer []
          [mkResolution 2 "data:r1"; mkResolution 1 "data:v2";
           mkResolution 3 "data:v2"],
        []).
Proof.
  apply (two_frames_drain
           (mkFrameEnv true (Some true) "data:v1" "data:r1")
           (mkFrameEnv true (Some true) "data:v2" "data:r2")
           (mkSynthesizer
              [mkRequest 1 false; mkRequest 2 true; mkRequest 3 false] []));
    try reflexivity.
  discriminate.
Defined.

(** X21. A request with [overlayOnCamera] blocks every request while
    the device camera is absent or not loaded: whatever the frames,
    none of them settles a request, with or without [overlayOnCamera],
    and the synthesizer stays as it is. *)
Theorem overlay_without_camera_blocks envs s :
  existsb (fun request => overlayOnCamera request)
    (pendingScreenshotRequests s) = true ->
  Forall (fun env => deviceCamera env <> Some true) envs ->
  exists errors, frames envs s = Ok (s, errors).
Proof.
  intros Hsome Hcams.
  induction Hcams as [|env envs Hcam _ [errors IH]].
  - exists []. reflexivity.
  - cbn [frames]. rewrite frame_cases. cbv zeta. rewrite Hsome.
    assert (Hstay : forall error : option ScreenshotError,
      exists errors',
        bindR (Ok (s, error)) (fun r =>
        bindR (frames envs (fst r)) (fun r' =>
        Ok (fst r',
            match snd r with Some e => [e] | None => [] end ++ snd r')))
        = Ok (s, errors')).
    { intros error. cbn [bindR fst snd]. rewrite IH. cbn [bindR fst snd].
      eexists. reflexivity. }
    destruct (length (pendingScreenshotRequests s) =? 0); [apply Hstay|].
    destruct (negb (hasRenderTarget env)); [apply Hstay|].
    destruct (deviceCamera env) as [[|]|]; [contradiction|apply Hstay..].
Qed.

Lemma overlay_without_camera_blocks_witness :
  exists errors,
    frames
      [mkFrameEnv true None "data:v1" "data:r1";
       mkFrameEnv true (Some false) "data:v2" "data:r2"]
      (mkSynthesizer [mkRequest 1 false; mkRequest 2 true] [])
    = Ok (mkSynthesizer [mkRequest 1 false; mkRequest 2 true] [], errors).
Proof.
  apply (overlay_without_camera_blocks
           [mkFrameEnv true None "data:v1" "data:r1";
            mkFrameEnv true (Some false) "data:v2" "data:r2"]
           (mkSynthesizer [mkRequest 1 false; mkRequest 2 true] [])).
  - reflexivity.
  - repeat constructor; discriminate.
Defined.

(** ** Before [init], and without a device camera *)

(** X22. Before [init] the manager has no [ai]: [startGeminiLive]
    returns normally after a warning and acquires nothing.  After
    [init] with a transport, on a platform where no call fails, the
    same call starts the session, with the collaborators that [init]
    stored. *)
Theorem startGeminiLive_needs_init env st deviceCamera coreAi :
  ai (mgr st) = None ->
  isAIRunning (mgr st) = false ->
  startGeminiLive env st
  = (Ok tt,
     mkSt (mgr st)
       (logAction (ConsoleWarn "AI already running or not available")
          (world st))) /\
  (noFail env ->
   userMediaTracks env <> [] ->
   liveOutcome env = LiveOpened ->
   exists st1 st2,
     init deviceCamera (Some coreAi) st = (Ok tt, st1) /\
     startGeminiLive env st1 = (Ok tt, st2) /\
     isAIRunning (mgr st2) = true /\
     xrDeviceCamera (mgr st2) = deviceCamera /\
     ai (mgr st2) = Some coreAi).
Proof.
  intros Hai Hrun. split.
  - open_named st. reflexivity.
  - intros Hnf Htracks Hlive.
    exists (mkSt (set_collaborators deviceCamera (Some coreAi) (mgr st))
              (world st)).
    eexists. split; [reflexivity|]. split.
    + apply startGeminiLive_afterStart; try assumption.
      open_named st. exists coreAi. reflexivity.
    + open_named st. unfold afterStart, afterOpen.
      destruct timer0; repeat split.
Qed.

Lemma startGeminiLive_needs_init_witness :
  startGeminiLive exampleEnv initial
  = (Ok tt,
     mkSt (mgr initial)
       (logAction (ConsoleWarn "AI already running or not available")
          (world initial))) /\
  exists st1 st2,
    init (Some 0) (Some exampleAI) initial = (Ok tt, st1) /\
    startGeminiLive exampleEnv st1 = (Ok tt, st2) /\
    isAIRunning (mgr st2) = true.
Proof.
  destruct (startGeminiLive_needs_init exampleEnv initial (Some 0) exampleAI)
    as [H1 H2]; try reflexivity.
  split; [exact H1|].
  destruct H2 as (st1 & st2 & Hinit & Hstart & Hrun & _).
  - intros a. reflexivity.
  - discriminate.
  - reflexivity.
  - exists st1, st2. auto.
Defined.

(** X23. A session without a device camera never sends a frame.  When
    [xrDeviceCamera] is not set, every tick of the frame timer ends
    normally with one error on the console: the platform is not asked
    for a snapshot, nothing reaches the transport, and the manager and
    the timer stay as they are, for any number of ticks. *)
Theorem ticks_without_camera env st n :
  xrDeviceCamera (mgr st) = None ->
  timers (world st) <> [] ->
  microtasks (world st) = [] ->
  run (replicate n (env, TimerTick)) st
  = Some (mkSt (mgr st)
            (logActions
               (replicate n (ConsoleError "Failed to capture screenshot:"))
               (world st))) /\
  inputsSent (replicate n (ConsoleError "Failed to capture screenshot:")) = [].
Proof.
  intros Hcam Htimers Hmt. split.
  - revert st Hcam Htimers Hmt.
    induction n as [|n IH]; intros st Hcam Htimers Hmt.
    + open_named st. unfold logActions. cbn. rewrite app_nil_r.
      reflexivity.
    + cbn [replicate run].
      assert (Hstep : step env TimerTick st
        = Some (Ok tt,
                mkSt (mgr st)
                  (logAction (ConsoleError "Failed to capture screenshot:")
                     (world st)))).
      { open_named st. destruct tms0 as [|timer tms0]; [contradiction|].
        reflexivity. }
      rewrite Hstep, IH by (open_named st; first [assumption|reflexivity]).
      open_named st. unfold logActions, logAction. cbn.
      rewrite <- app_assoc. reflexivity.
  - induction n as [|n IH]; [reflexivity|exact IH].
Qed.

Lemma ticks_without_camera_witness :
  run (replicate 3 (exampleEnv, TimerTick))
    (mkSt (set_collaborators None (Some exampleAI) (mgr running))
       (world running))
  = Some (mkSt (set_collaborators None (Some exampleAI) (mgr running))
            (logActions
               (replicate 3 (ConsoleError "Failed to capture screenshot:"))
               (world running))).
Proof.
  apply (ticks_without_camera exampleEnv
           (mkSt (set_collaborators None (Some exampleAI) (mgr running))
              (world running)) 3); try reflexivity.
  discriminate.
Defined.

(** X24. A transport without [sendRealtimeInput].  On a running session
    a block from the capture worklet makes the handler throw "AI not
    ready to send audio clip." out of the job, while a tick of the
    frame timer takes the snapshot and ends normally with an error on
    the console; in both cases the state of the manager is untouched
    and nothing is sent. *)
Theorem transport_without_sendRealtimeInput env st a audioBuffer :
  isAIRunning (mgr st) = true ->
  ai (mgr st) = Some a ->
  hasSendRealtimeInput a = false ->
  onWorkletMessage env true audioBuffer st = (Throw NotReadyAudio, st) /\
  (forall base64Image,
     is_Some (xrDeviceCamera (mgr st)) ->
     fails env GetSnapshot = false ->
     snapshot env = SnapString base64Image ->
     captureAndSendScreenshot env st
     = (Ok tt,
        mkSt (mgr st)
          (logActions
             [GetSnapshot; ConsoleError "Failed to capture screenshot:"]
             (world st)))).
Proof.
  intros Hrun Hai Hsend. destruct a as [hasStop hasSend].
  cbn in Hsend. subst hasSend. split.
  - open_named st. reflexivity.
  - intros base64Image [cam Hcam] Hsnap Himage. open_named st.
    exec. rewrite Hsnap, Himage. exec.
    rewrite <- app_assoc. reflexivity.
Qed.

Lemma transport_without_sendRealtimeInput_witness :
  onWorkletMessage exampleEnv true [x01; x02]
    (mkSt (set_collaborators (Some 0) (Some receiveOnlyAI) (mgr running))
       (world running))
  = (Throw NotReadyAudio,
     mkSt (set_collaborators (Some 0) (Some receiveOnlyAI) (mgr running))
       (world running)) /\
  captureAndSendScreenshot exampleEnv
    (mkSt (set_collaborators (Some 0) (Some receiveOnlyAI) (mgr running))
       (world running))
  = (Ok tt,
     mkSt (set_collaborators (Some 0) (Some receiveOnlyAI) (mgr running))
       (logActions
          [GetSnapshot; ConsoleError "Failed to capture screenshot:"]
          (world running))).
Proof.
  destruct (transport_without_sendRealtimeInput exampleEnv
              (mkSt (set_collaborators (Some 0) (Some receiveOnlyAI)
                       (mgr running))
                 (world running))
              receiveOnlyAI [x01; x02]) as [H1 H2]; try reflexivity.
  split; [exact H1|].
  apply (H2 "data:image/jpeg;base64,QUJD"); try reflexivity.
  exists 0. reflexivity.
Defined.

(** ** A release call that throws *)

(** X25. [cleanup] stops at the first release call that throws.  When
    [processorNode.disconnect] throws, the timer is cleared and the
    queue is emptied, but the fields of the two nodes, the context and
    the stream keep their handles, no context is closed and no track is
    stopped.  [stopGeminiLive] on such a running session returns
    normally after an error on the console, and the session still
    counts as running. *)
Theorem cleanup_stops_at_first_failure env st node :
  processorNode (mgr st) = Some node ->
  fails env (DisconnectProcessor node) = true ->
  (forall timer, fails env (ClearInterval timer) = false) ->
  exists st' new,
    cleanup env st = (Throw (ExternalFailure "platform"), st') /\
    screenshotInterval (mgr st') = None /\
    audioQueue (mgr st') = [] /\
    isPlayingAudio (mgr st') = false /\
    processorNode (mgr st') = Some node /\
    sourceNode (mgr st') = sourceNode (mgr st) /\
    audioContext (mgr st') = audioContext (mgr st) /\
    audioStream (mgr st') = audioStream (mgr st) /\
    trace (world st') = trace (world st) ++ new /\
    contextsClosed new = [] /\
    tracksStopped new = [] /\
    (isAIRunning (mgr st) = true ->
     fails env StopLiveSession = false ->
     exists st'',
       stopGeminiLive env st = (Ok tt, st'') /\
       mgr st'' = mgr st' /\
       isAIRunning (mgr st'') = true /\
       last (trace (world st''))
       = Some (ConsoleError "Failed to stop Gemini Live:")).
Proof.
  intros Hnode Hfail Hclear. open_named st.
  destruct timer0 as [timer|].
  - eexists. exists [ClearInterval timer; DisconnectProcessor node].
    split; [exec; rewrite Hclear; exec; rewrite Hfail; exec;
            rewrite <- app_assoc; reflexivity|].
    cbn [mgr world trace screenshotInterval audioQueue isPlayingAudio
         processorNode sourceNode audioContext audioStream].
    do 10 (split; [reflexivity|]).
    intros -> Hstop.
    destruct ai0 as [[[|] hasSend]|];
      (eexists; split;
       [exec; rewrite ?Hstop; exec; rewrite Hclear; exec; rewrite Hfail;
        exec; reflexivity|]);
      cbn [mgr world trace isAIRunning];
      (split; [reflexivity|]); (split; [reflexivity|]);
      apply last_snoc.
  - eexists. exists [DisconnectProcessor node].
    split; [exec; rewrite Hfail; exec; reflexivity|].
    cbn [mgr world trace screenshotInterval audioQueue isPlayingAudio
         processorNode sourceNode audioContext audioStream].
    do 10 (split; [reflexivity|]).
    intros -> Hstop.
    destruct ai0 as [[[|] hasSend]|];
      (eexists; split;
       [exec; rewrite ?Hstop; exec; rewrite Hfail; exec; reflexivity|]);
      cbn [mgr world trace isAIRunning];
      (split; [reflexivity|]); (split; [reflexivity|]);
      apply last_snoc.
Qed.

Lemma cleanup_stops_at_first_failure_witness :
  exists st' st'',
    cleanup disconnectFails running
    = (Throw (ExternalFailure "platform"), st') /\
    audioContext (mgr st') = audioContext (mgr running) /\
    stopGeminiLive disconnectFails running = (Ok tt, st'') /\
    isAIRunning (mgr st'') = true.
Proof.
  destruct (cleanup_stops_at_first_failure disconnectFails running 4)
    as (st' & new & H & _ & _ & _ & _ & _ & Hctx & _ & _ & _ & _ & Hstop);
    try reflexivity.
  destruct Hstop as (st'' & Hs & _ & Hrun & _); try reflexivity.
  exists st', st''. auto.
Defined.

(** ** A message after the stop *)

Lemma omap_dispatch {B} (f : Action -> option B) (events : list GeminiEvent) :
  (forall event, f (DispatchEvent event) = None) ->
  omap f (map DispatchEvent events) = [].
Proof.
  intros Hf. induction events as [|event events IH]; [reflexivity|].
  cbn. rewrite Hf. exact IH.
Qed.

(** X26. [handleAIMessage] does not look at [isAIRunning].  On a
    platform where no call fails, a message with audio that arrives
    after [stopGeminiLive] is still played: as the teardown has cleared
    [audioContext], a new context with a rate of 24000 Hz is created,
    the segment is started on it at once, and the manager, which is not
    running, holds that context; nothing closes it. *)
Theorem message_after_stop_plays env st a audioData content segment :
  noFail env ->
  isAIRunning (mgr st) = true ->
  ai (mgr st) = Some a ->
  microtasks (world st) = [] ->
  audioData <> "" ->
  decodeSegment audioData = Ok segment ->
  let ctx := mkAudioContext (fresh (world st)) 24000 in
  exists st1 st2 new,
    stopGeminiLive env st = (Ok tt, st1) /\
    job env
      (handleAIMessage env (mkMessage (Some audioData) (Some content))) st1
    = (Ok tt, st2) /\
    isAIRunning (mgr st2) = false /\
    audioContext (mgr st2) = Some ctx /\
    isPlayingAudio (mgr st2) = true /\
    playing (world st2) = playing (world st1) ++ [(ctx, segment)] /\
    trace (world st2) = trace (world st1) ++ new /\
    contextsCreated new = [ctx] /\
    startedBuffers new = [segment] /\
    contextsClosed new = [].
Proof.
  intros Hnf Hrun Hai Hmt Hdata Hseg ctx.
  eexists. eexists.
  exists ([NewAudioContext ctx] ++ map DispatchEvent (dispatched content)
          ++ [CreateBuffer ctx (segmentLength audioData) 24000;
              QueuePush segment; CreateBufferSource ctx;
              ConnectBufferSource ctx; SourceStart ctx segment]).
  split; [apply (stopGeminiLive_noFail env st a); assumption|].
  split.
  { apply (message_job env _ audioData content segment); try assumption.
    open_named st. destruct (hasStopLiveSession a); reflexivity. }
  subst ctx. open_named st.
  unfold afterEnqueue, afterMessage, afterInitialize, playbackContext.
  destruct (hasStopLiveSession a);
    cbn [mgr world trace microtasks fresh timers playing callbacksSet
         xrDeviceCamera ai audioStream audioContext sourceNode processorNode
         isAIRunning audioQueue isPlayingAudio screenshotInterval
         currentInputText currentOutputText cleaned cleanedWorld logAction
         logActions set_isAIRunning set_audioContext set_audioQueue
         set_isPlayingAudio set_playing set_microtasks bumpFresh
         set_currentInputText set_currentOutputText app hd tl];
    (do 4 (split; [reflexivity|]));
    (split; [rewrite <- !app_assoc; reflexivity|]);
    unfold contextsCreated, startedBuffers, contextsClosed;
    cbn [omap list_omap]; rewrite !omap_app;
    rewrite !omap_dispatch by reflexivity;
    repeat split.
Qed.

Lemma message_after_stop_plays_witness :
  exists st1 st2,
    stopGeminiLive exampleEnv running = (Ok tt, st1) /\
    job exampleEnv (handleAIMessage exampleEnv exampleMessage) st1
    = (Ok tt, st2) /\
    isAIRunning (mgr st2) = false /\
    audioContext (mgr st2) = Some (mkAudioContext 6 24000).
Proof.
  destruct (message_after_stop_plays exampleEnv running exampleAI "AAD/fw=="
              (mkServerContent None None (Some true))
              (mkAudioBuffer 1 24000 [0 # 32768; 32767 # 32768]%Q))
    as (st1 & st2 & new & H1 & H2 & Hrun & Hctx & _); try reflexivity.
  - intros action. reflexivity.
  - discriminate.
  - exists st1, st2. auto.
Defined.
